(** * VR Transform (src/App.tsx): the staged progress engine, the synchronized
    playback controller and the download naming rule.

    The React component [App] is embedded as a state machine.  Its [useState]
    cells, the step objects they point to, the closures and timers created by
    [startProcessing], the two video refs and the browser side effects
    (commands sent to the media elements, download links clicked) are the
    fields of one record [App]; every handler of the component is a function
    on that record, and every timer callback is a function that fires one
    pending timer. *)

From Stdlib Require Import ZArith QArith Qround Floats Lia.
From Stdlib Require Import String Ascii.
From stdpp Require Import base option list.

Local Open Scope string_scope.
Local Open Scope nat_scope.
Local Open Scope list_scope.

(** ** JavaScript numbers

    Every arithmetic step of the source is kept as an operation of the
    interface below, in the order the source performs it.  Two instances
    are used: IEEE-754 binary64 (what the program runs on) and exact
    rationals (the idealisation in which no operation rounds). *)

Class JSNumber (num : Type) := {
  lit : nat -> num;              (* a non-negative integer literal or counter *)
  nadd : num -> num -> num;      (* a + b *)
  nmul : num -> num -> num;      (* a * b *)
  ndiv : num -> num -> num;      (* a / b *)
  ngeb : num -> num -> bool;     (* a >= b *)
  neqb : num -> num -> bool;     (* a === b *)
}.

Arguments lit : simpl never.

#[global] Instance Q_JSNumber : JSNumber Q := {|
  lit n := inject_Z (Z.of_nat n);
  nadd := Qplus;
  nmul := Qmult;
  ndiv := Qdiv;
  ngeb a b := Qle_bool b a;
  neqb := Qeq_bool;
|}.

Definition float_of_nat (n : nat) : float :=
  PrimFloat.of_uint63 (Uint63.of_Z (Z.of_nat n)).

#[global] Instance F64_JSNumber : JSNumber float := {|
  lit := float_of_nat;
  nadd := PrimFloat.add;
  nmul := PrimFloat.mul;
  ndiv := PrimFloat.div;
  ngeb a b := PrimFloat.leb b a;
  neqb := PrimFloat.eqb;
|}.

(** ** Data model *)

(** [interface ProcessingStep] *)
Record ProcessingStep (num : Type) := mkStep {
  name : string;
  description : string;
  progress : num;
  completed : bool;
}.
Arguments mkStep {num} _ _ _ _.
Arguments name {num} _.
Arguments description {num} _.
Arguments progress {num} _.
Arguments completed {num} _.

(** [interface VideoFile]; the [File] handle itself is never inspected. *)
Module VideoFile.
Record t := mk {
  url : string;
  name : string;
  size : string;
}.
End VideoFile.

(** The union type of [currentStep]. *)
Inductive WizardStep := upload | processing | preview | download.

(** The part of an [HTMLVideoElement] the component drives. *)
Record HTMLVideoElement := mkVideo { paused : bool }.

Inductive View := LeftEye | RightEye.
Inductive MediaCommand := Play | Pause.

(** Step objects live in a store and are named by their address: the arrays
    held by React state and the array [steps] captured by the timer
    callbacks hold addresses, so that a write through one is seen through
    the other, as in the source. *)
Abbreviation loc := nat (only parsing).

(** The timer a run has scheduled.  [stepInterval] carries the variables of
    the enclosing [processStep] call that its callback closes over. *)
Inductive Timer (num : Type) :=
| stepInterval (step : loc) (stepProgress : num)   (* setInterval(.., 80) *)
| pauseTimeout                                     (* setTimeout(processStep, 500) *)
| noTimer.
Arguments stepInterval {num} _ _.
Arguments pauseTimeout {num}.
Arguments noTimer {num}.

(** The closure environment of one [startProcessing] call: the constant
    [steps], the mutable [currentStepIndex], and the one timer that call
    has pending (a run never has two: the interval is cleared before the
    timeout is set, and the timeout has fired before the next interval is
    created). *)
Record Run (num : Type) := mkRun {
  steps : list loc;
  currentStepIndex : nat;
  timer : Timer num;
}.
Arguments mkRun {num} _ _ _.
Arguments steps {num} _.
Arguments currentStepIndex {num} _.
Arguments timer {num} _.

Record App (num : Type) := mkApp {
  (* useState cells *)
  currentStep : WizardStep;
  uploadedVideo : option VideoFile.t;
  isPlaying : bool;
  processingSteps : list loc;
  overallProgress : num;
  isProcessing : bool;
  (* the step objects *)
  heap : list (ProcessingStep num);
  (* one entry per startProcessing call so far; its index is the timer id *)
  runs : list (Run num);
  (* leftVideoRef.current, rightVideoRef.current *)
  leftVideoRef : option HTMLVideoElement;
  rightVideoRef : option HTMLVideoElement;
  (* play()/pause() calls made so far, oldest first *)
  issued : list (View * MediaCommand);
  (* link.download of every link clicked so far, oldest first *)
  downloads : list string;
}.
Arguments mkApp {num} _ _ _ _ _ _ _ _ _ _ _ _.
Arguments currentStep {num} _.
Arguments uploadedVideo {num} _.
Arguments isPlaying {num} _.
Arguments processingSteps {num} _.
Arguments overallProgress {num} _.
Arguments isProcessing {num} _.
Arguments heap {num} _.
Arguments runs {num} _.
Arguments leftVideoRef {num} _.
Arguments rightVideoRef {num} _.
Arguments issued {num} _.
Arguments downloads {num} _.

(** Durations of the two timers, in milliseconds. *)
Definition tickMs : nat := 80.
Definition pauseMs : nat := 500.

Inductive TimerKind := Tick | PauseEnd.

Definition delay (k : TimerKind) : nat :=
  match k with Tick => tickMs | PauseEnd => pauseMs end.

(** Ticks that take one stage from 0 to 100, at [100 / 50] per tick ("50
    iterations per step" in the source). *)
Definition ticksPerStage : nat := 50.

(** Timers a stage takes: its ticks and the pause after it. *)
Definition period : nat := ticksPerStage + 1.

(** The timers of one stage in the order they fire. *)
Definition stage_timers : list TimerKind :=
  replicate ticksPerStage Tick ++ [PauseEnd].

Definition same_kind (a b : TimerKind) : bool :=
  match a, b with
  | Tick, Tick | PauseEnd, PauseEnd => true
  | _, _ => false
  end.

(** How many timers of kind [k] a sequence holds. *)
Definition count_kind (k : TimerKind) (l : list TimerKind) : nat :=
  length (List.filter (same_kind k) l).

(** ** The component *)

Section Component.
Context {num : Type} `{JSNumber num}.

Abbreviation Step := (ProcessingStep num).
Abbreviation State := (App num).

(** *** State setters ([setCurrentStep], [setOverallProgress], ...) *)

Definition setCurrentStep (v : WizardStep) (s : State) : State :=
  mkApp v (uploadedVideo s) (isPlaying s) (processingSteps s)
        (overallProgress s) (isProcessing s) (heap s) (runs s)
        (leftVideoRef s) (rightVideoRef s) (issued s) (downloads s).

Definition setUploadedVideo (v : option VideoFile.t) (s : State) : State :=
  mkApp (currentStep s) v (isPlaying s) (processingSteps s)
        (overallProgress s) (isProcessing s) (heap s) (runs s)
        (leftVideoRef s) (rightVideoRef s) (issued s) (downloads s).

Definition setIsPlaying (v : bool) (s : State) : State :=
  mkApp (currentStep s) (uploadedVideo s) v (processingSteps s)
        (overallProgress s) (isProcessing s) (heap s) (runs s)
        (leftVideoRef s) (rightVideoRef s) (issued s) (downloads s).

Definition setProcessingSteps (v : list loc) (s : State) : State :=
  mkApp (currentStep s) (uploadedVideo s) (isPlaying s) v
        (overallProgress s) (isProcessing s) (heap s) (runs s)
        (leftVideoRef s) (rightVideoRef s) (issued s) (downloads s).

Definition setOverallProgress (v : num) (s : State) : State :=
  mkApp (currentStep s) (uploadedVideo s) (isPlaying s) (processingSteps s)
        v (isProcessing s) (heap s) (runs s)
        (leftVideoRef s) (rightVideoRef s) (issued s) (downloads s).

Definition setIsProcessing (v : bool) (s : State) : State :=
  mkApp (currentStep s) (uploadedVideo s) (isPlaying s) (processingSteps s)
        (overallProgress s) v (heap s) (runs s)
        (leftVideoRef s) (rightVideoRef s) (issued s) (downloads s).

(** Writes to the store, the timer table, the media elements and the
    document. *)
Definition with_heap (h : list Step) (s : State) : State :=
  mkApp (currentStep s) (uploadedVideo s) (isPlaying s) (processingSteps s)
        (overallProgress s) (isProcessing s) h (runs s)
        (leftVideoRef s) (rightVideoRef s) (issued s) (downloads s).

Definition with_runs (r : list (Run num)) (s : State) : State :=
  mkApp (currentStep s) (uploadedVideo s) (isPlaying s) (processingSteps s)
        (overallProgress s) (isProcessing s) (heap s) r
        (leftVideoRef s) (rightVideoRef s) (issued s) (downloads s).

Definition with_videos (l r : option HTMLVideoElement) (s : State) : State :=
  mkApp (currentStep s) (uploadedVideo s) (isPlaying s) (processingSteps s)
        (overallProgress s) (isProcessing s) (heap s) (runs s)
        l r (issued s) (downloads s).

Definition with_issued (c : list (View * MediaCommand)) (s : State) : State :=
  mkApp (currentStep s) (uploadedVideo s) (isPlaying s) (processingSteps s)
        (overallProgress s) (isProcessing s) (heap s) (runs s)
        (leftVideoRef s) (rightVideoRef s) c (downloads s).

Definition with_downloads (d : list string) (s : State) : State :=
  mkApp (currentStep s) (uploadedVideo s) (isPlaying s) (processingSteps s)
        (overallProgress s) (isProcessing s) (heap s) (runs s)
        (leftVideoRef s) (rightVideoRef s) (issued s) d.

(** [step.progress = v] and [step.completed = b] on the object at [l]. *)
Definition assign_progress (v : num) (o : Step) : Step :=
  mkStep (name o) (description o) v (completed o).

Definition assign_completed (b : bool) (o : Step) : Step :=
  mkStep (name o) (description o) (progress o) b.

Definition write (l : loc) (f : Step -> Step) (s : State) : State :=
  with_heap (alter f l (heap s)) s.

(** Replaces the closure environment of run [rid]. *)
Definition update_run (rid : nat) (r : Run num) (s : State) : State :=
  with_runs (<[rid := r]> (runs s)) s.

(** *** [startProcessing] and its timer callbacks *)

(** const progressIncrement = 100 / 50 *)
Definition progressIncrement : num := ndiv (lit 100) (lit 50).

(** [processStep], called for run [rid] whose environment is [r]. *)
Definition processStep (rid : nat) (r : Run num) (s : State) : State :=
  if length (steps r) <=? currentStepIndex r then
    (* currentStepIndex >= steps.length *)
    update_run rid (mkRun (steps r) (currentStepIndex r) noTimer)
      (setCurrentStep preview
        (setIsProcessing false
          (setOverallProgress (lit 100) s)))
  else
    match steps r !! currentStepIndex r with
    | Some step =>
        (* let stepProgress = 0; const stepInterval = setInterval(.., 80) *)
        update_run rid
          (mkRun (steps r) (currentStepIndex r) (stepInterval step (lit 0))) s
    | None => s   (* not reached: the test above has ruled it out *)
    end.

(** The arrow function passed to [setInterval], for run [rid] with
    environment [r], closed over [step] and [stepProgress]. *)
Definition intervalCallback (rid : nat) (r : Run num)
    (step : loc) (stepProgress : num) (s : State) : State :=
  let stepProgress := nadd stepProgress progressIncrement in
  let len := lit (length (steps r)) in
  if ngeb stepProgress (lit 100) then
    let s := write step (assign_progress (lit 100)) s in
    let s := write step (assign_completed true) s in
    (* clearInterval(stepInterval) *)
    let s := setProcessingSteps (steps r) s in
    let s := setOverallProgress
               (nmul (ndiv (lit (currentStepIndex r + 1)) len) (lit 100)) s in
    (* currentStepIndex++; setTimeout(processStep, 500) *)
    update_run rid (mkRun (steps r) (currentStepIndex r + 1) pauseTimeout) s
  else
    let s := write step (assign_progress stepProgress) s in
    let s := setProcessingSteps (steps r) s in
    let s := setOverallProgress
               (nadd (nmul (ndiv (lit (currentStepIndex r)) len) (lit 100))
                     (ndiv stepProgress len)) s in
    update_run rid
      (mkRun (steps r) (currentStepIndex r) (stepInterval step stepProgress)) s.

Definition startProcessing (s : State) : State :=
  let s := setCurrentStep processing s in
  let s := setIsProcessing true s in
  (* const steps = [...processingSteps]; let currentStepIndex = 0 *)
  let r := mkRun (processingSteps s) 0 noTimer in
  let rid := length (runs s) in
  let s := with_runs (runs s ++ [r]) s in
  processStep rid r s.

(** The timer of run [rid] fires: the event loop calls its callback.
    [None] when that run has nothing scheduled. *)
Definition fire (rid : nat) (s : State) : option (TimerKind * State) :=
  match runs s !! rid with
  | Some r =>
      match timer r with
      | stepInterval step stepProgress =>
          Some (Tick, intervalCallback rid r step stepProgress s)
      | pauseTimeout => Some (PauseEnd, processStep rid r s)
      | noTimer => None
      end
  | None => None
  end.

(** *** [resetProcess] *)

Definition blankStep : Step := mkStep "" "" (lit 0) false.

(** The object at [l]. *)
Definition deref (h : list Step) (l : loc) : Step := default blankStep (h !! l).

(** [{...step, progress: 0, completed: false}] *)
Definition cleared (o : Step) : Step :=
  mkStep (name o) (description o) (lit 0) false.

(** The file input, whose value is cleared last, is not part of the
    state. *)
Definition resetProcess (s : State) : State :=
  let s := setCurrentStep upload s in
  let s := setUploadedVideo None s in
  let s := setIsProcessing false s in
  let s := setOverallProgress (lit 0) s in
  (* processingSteps.map(..) allocates one new object per stage *)
  let fresh := (fun l => cleared (deref (heap s) l)) <$> processingSteps s in
  let base := length (heap s) in
  let s := with_heap (heap s ++ fresh) s in
  setProcessingSteps (seq base (length fresh)) s.

(** *** Playback *)

(** [video.play()] and [video.pause()] on the element behind a ref. *)
Definition command (c : MediaCommand) (e : HTMLVideoElement) : HTMLVideoElement :=
  match c with
  | Play => mkVideo false
  | Pause => mkVideo true
  end.

Definition togglePlayback (s : State) : State :=
  match leftVideoRef s, rightVideoRef s with
  | Some leftVideo, Some rightVideo =>
      if isPlaying s then
        let s := with_videos (Some (command Pause leftVideo))
                             (Some (command Pause rightVideo)) s in
        let s := with_issued (issued s ++ [(LeftEye, Pause); (RightEye, Pause)]) s in
        setIsPlaying false s
      else
        let s := with_videos (Some (command Play leftVideo))
                             (Some (command Play rightVideo)) s in
        let s := with_issued (issued s ++ [(LeftEye, Play); (RightEye, Play)]) s in
        setIsPlaying true s
  | _, _ => s
  end.

Definition handleVideoEnd (s : State) : State := setIsPlaying false s.

(** *** Upload and download *)

(** [f] is the [VideoFile] the handler builds from the chosen [File]: its
    object URL, its name and its formatted size. *)
Definition handleVideoUpload (f : VideoFile.t) (s : State) : State :=
  setUploadedVideo (Some f) s.

(** [String.prototype.split] with a one-character separator. *)
Fixpoint split (sep : ascii) (s : string) : list string :=
  match s with
  | EmptyString => [EmptyString]
  | String c rest =>
      if Ascii.eqb c sep then EmptyString :: split sep rest
      else match split sep rest with
           | hd :: tl => String c hd :: tl
           | [] => [String c EmptyString]
           end
  end.

(** How a template literal prints a value that may be [undefined]. *)
Definition template (v : option string) : string :=
  match v with Some x => x | None => "undefined" end.

(** `${uploadedVideo?.name.split('.')[0]}_VR180.mp4` *)
Definition downloadName (v : option VideoFile.t) : string :=
  (template (v ≫= fun f => split "." (VideoFile.name f) !! 0)
     ++ "_VR180.mp4")%string.

(** The link is created, clicked and removed; its [download] attribute is
    what the browser names the file. *)
Definition downloadVideo (s : State) : State :=
  let s := with_downloads (downloads s ++ [downloadName (uploadedVideo s)]) s in
  setCurrentStep download s.

(** *** Rendering

    The two [<video>] elements carrying the refs are rendered exactly when
    [currentStep === 'preview' && uploadedVideo]; React fills the refs when
    they mount (a new element starts paused) and empties them when they
    unmount. *)
Definition previewRendered (s : State) : bool :=
  match currentStep s, uploadedVideo s with
  | preview, Some _ => true
  | _, _ => false
  end.

Definition commit (s : State) : State :=
  if previewRendered s then
    with_videos (Some (default (mkVideo true) (leftVideoRef s)))
                (Some (default (mkVideo true) (rightVideoRef s))) s
  else with_videos None None s.

(** *** Events

    What the user and the browser can do to the rendered component.  A
    click is only possible on a button that is rendered. *)
Inductive Event :=
| SelectFile (f : VideoFile.t)   (* drop or file input: handleVideoUpload *)
| ClickChooseDifferent           (* () => setUploadedVideo(null) *)
| ClickStart                     (* onClick={startProcessing} *)
| ClickToggle                    (* onClick={togglePlayback} *)
| ClickDownload                  (* onClick={downloadVideo} *)
| ClickReset                     (* onClick={resetProcess} *)
| Ended (v : View)               (* onEnded={handleVideoEnd} on either video *)
| TimerFires (rid : nat).

(** The browser pauses an element that reaches its end before it reports
    [ended]. *)
Definition reach_end (v : View) (s : State) : State :=
  match v with
  | LeftEye => with_videos (command Pause <$> leftVideoRef s) (rightVideoRef s) s
  | RightEye => with_videos (leftVideoRef s) (command Pause <$> rightVideoRef s) s
  end.

Definition handle (e : Event) (s : State) : option State :=
  match e with
  | SelectFile f =>
      match currentStep s, uploadedVideo s with
      | upload, None => Some (handleVideoUpload f s)
      | _, _ => None
      end
  | ClickChooseDifferent =>
      match currentStep s, uploadedVideo s with
      | upload, Some _ => Some (setUploadedVideo None s)
      | _, _ => None
      end
  | ClickStart =>
      match currentStep s, uploadedVideo s with
      | upload, Some _ => Some (startProcessing s)
      | _, _ => None
      end
  | ClickToggle =>
      if previewRendered s then Some (togglePlayback s) else None
  | ClickDownload =>
      if previewRendered s then Some (downloadVideo s) else None
  | ClickReset =>
      match currentStep s with
      | preview => if previewRendered s then Some (resetProcess s) else None
      | download => Some (resetProcess s)
      | _ => None
      end
  | Ended v =>
      if previewRendered s then Some (handleVideoEnd (reach_end v s)) else None
  | TimerFires rid => snd <$> fire rid s
  end.

(** One turn of the event loop: the handler runs, then React re-renders. *)
Definition dispatch (e : Event) (s : State) : option State :=
  commit <$> handle e s.

(** *** The initial render *)

Definition initialSteps : list Step :=
  [ mkStep "3D Depth Mapping"
      "Creating detailed depth maps from 2D footage using AI" (lit 0) false;
    mkStep "Stereoscopic Rendering"
      "Generating left and right eye views for 3D effect" (lit 0) false;
    mkStep "VR 180 Conversion"
      "Converting to immersive 3D VR 180 format" (lit 0) false;
    mkStep "3D Quality Enhancement"
      "Optimizing 3D depth and VR viewing experience" (lit 0) false ].

Definition initial : State :=
  mkApp upload None false (seq 0 (length initialSteps)) (lit 0) false
        initialSteps [] None None [] [].

(** *** Running the timers of one run *)

(** Fires the timer of run [rid] up to [n] times and lists what fired and
    the state each callback left behind. *)
Fixpoint run_timers (n : nat) (rid : nat) (s : State) : list (TimerKind * State) :=
  match n with
  | 0 => []
  | S n =>
      match fire rid s with
      | Some (k, s') => (k, s') :: run_timers n rid s'
      | None => []
      end
  end.

(** The state after [n] timers of run [rid], while it has one to fire. *)
Fixpoint after_timers (n : nat) (rid : nat) (s : State) : option State :=
  match n with
  | 0 => Some s
  | S n =>
      match fire rid s with
      | Some (_, s') => after_timers n rid s'
      | None => None
      end
  end.

(** *** What an observer sees *)

(** The stage objects the processing view maps over. *)
Definition displayed (s : State) : list Step :=
  deref (heap s) <$> processingSteps s.

(** The states an observer of one run is shown: the one [startProcessing]
    leaves, then the one after each timer of that run. *)
Definition snapshots (fuel : nat) (s : State) : list State :=
  startProcessing s :: (run_timers fuel (length (runs s)) (startProcessing s)).*2.

(** No run has a timer scheduled. *)
Definition quiet (s : State) : Prop :=
  forall r, r ∈ runs s -> timer r = noTimer.

(** Checks on observed values, with the comparisons of the number type. *)
Fixpoint nondecreasing (xs : list num) : bool :=
  match xs with
  | x :: (y :: _) as rest => ngeb y x && nondecreasing rest
  | _ => true
  end.

(** [completed] agrees with [progress === 100] on every displayed stage. *)
Definition flags_agree (s : State) : bool :=
  forallb (fun o => Bool.eqb (completed o) (neqb (progress o) (lit 100)))
          (displayed s).

Definition all_completed (s : State) : bool :=
  forallb completed (displayed s).

(** Every stage completed in [s] is completed in [s']. *)
Definition keeps_completed (s s' : State) : bool :=
  forallb (fun oo => implb (completed oo.1) (completed oo.2))
          (zip (displayed s) (displayed s')).

(** Stages shown completed. *)
Definition completedCount (s : State) : nat :=
  length (List.filter completed (displayed s)).

(** The overall progress shown by each snapshot in which one more stage is
    completed than in the snapshot before. *)
Fixpoint boundaries (l : list State) : list num :=
  match l with
  | x :: (y :: _) as rest =>
      if completedCount x <? completedCount y
      then overallProgress y :: boundaries rest
      else boundaries rest
  | _ => []
  end.

Fixpoint chain (R : State -> State -> bool) (l : list State) : bool :=
  match l with
  | x :: (y :: _) as rest => R x y && chain R rest
  | _ => true
  end.

End Component.

(** ** Sample states *)

Definition clip : VideoFile.t :=
  VideoFile.mk "blob:clip" "holiday.2024.mov" "12.5 MB".

(** Feeds a list of events to the component, oldest first. *)
Fixpoint dispatch_all {num} `{JSNumber num}
    (es : list Event) (s : App num) : option (App num) :=
  match es with
  | [] => Some s
  | e :: es =>
      match dispatch e s with
      | Some s' => dispatch_all es s'
      | None => None
      end
  end.

(** The wizard right after the first render. *)
Definition fresh64 : App float := initial.

(** A clip is chosen and the conversion is started. *)
Definition started64 : App float :=
  startProcessing (handleVideoUpload clip fresh64).

(** The preview view, reached through the user interface: the clip is
    chosen, the conversion started, and every timer of the run has fired. *)
Definition previewing64 : App float :=
  default fresh64
    (dispatch_all (SelectFile clip :: ClickStart :: replicate 204 (TimerFires 0))
                  fresh64).

(** The clip is chosen; the four stages are idle. *)
Definition uploaded64 : App float := handleVideoUpload clip fresh64.

(** Every snapshot of the run, with more fuel than the run needs. *)
Definition snapshots64 : list (App float) := snapshots 1000 uploaded64.

(** The timers the run fires. *)
Definition timers64 : list TimerKind := (run_timers 1000 0 started64).*1.

(** The run 44 ticks into its second stage. *)
Definition midrun64 : App float :=
  default started64 (after_timers (period + 44) 0 started64).

(** The run after 200 ticks and 3 pauses. *)
Definition lastPause64 : App float :=
  default started64 (after_timers (period * 4 - 1) 0 started64).

(** A second [startProcessing] while the first run is ticking. *)
Definition doubled64 : App float := startProcessing started64.

(** [startProcessing] with no stage at all. *)
Definition stageless64 : App float :=
  startProcessing (setProcessingSteps [] uploaded64).

(** A pipeline cut down to three stages, which the component never has:
    thirds are not binary fractions. *)
Definition threeStages64 : App float := setProcessingSteps [0; 1; 2] uploaded64.

(** The wizard right after the first render, on exact rationals. *)
Definition freshQ : App Q := initial.

(** ** Notions the statements use *)

(** The rule in the words of the specification: the name taken up to its
    first occurrence of [c]. *)
Fixpoint upToFirst (c : ascii) (s : string) : string :=
  match s with
  | EmptyString => EmptyString
  | String a rest =>
      if Ascii.eqb a c then EmptyString else String a (upToFirst c rest)
  end.

Section PlaybackNotions.
Context {num : Type} `{JSNumber num}.

(** Whether the element behind a ref is playing. *)
Definition playing (e : HTMLVideoElement) : bool := negb (paused e).

(** Both views attached and in the play state the controller shows. *)
Definition in_step (s : App num) : Prop :=
  playing <$> leftVideoRef s = Some (isPlaying s) /\
  playing <$> rightVideoRef s = Some (isPlaying s).

(** The commands [togglePlayback] sent, given what was sent before. *)
Definition sent_by_toggle (s : App num) : list (View * MediaCommand) :=
  drop (length (issued s)) (issued (togglePlayback s)).

End PlaybackNotions.

(** *** Where a run stands

    A run over [n] stages fires 51 timers per stage: 50 ticks of the stage's
    interval and the pause that follows it.  Its position is the pair of the
    stage index [i] and the number [j] of timers already fired in that
    stage; position [(n, 0)] is the finished run. *)

Section Positions.
Local Open Scope Q_scope.

Local Abbreviation lit := (@lit Q Q_JSNumber).

(** The progress, in percent, of stage [m] at position [(i, j)]. *)
Definition stage_pct (i j m : nat) : nat :=
  if (m <? i)%nat then 100%nat
  else if (m =? i)%nat then (2 * j)%nat
  else 0%nat.

(** Overall progress, in percent of one stage, after [k] timers. *)
Definition pct (k : nat) : nat := (100 * (k / period) + 2 * (k mod period))%nat.

(** The kind of the timer that fires at tick count [j] of a stage. *)
Definition kind_at (j : nat) : TimerKind :=
  if (j <? ticksPerStage)%nat then Tick else PauseEnd.

(** A start state as the contract of [start] asks for it: distinct stage
    objects, all at progress 0 and not completed, overall progress 0, and
    no earlier run still in flight. *)
Definition idle (s : App Q) : Prop :=
  overallProgress s == 0 /\
  forall l, l ∈ processingSteps s ->
    exists o, heap s !! l = Some o /\ progress o == 0 /\ completed o = false.

Definition ready (s : App Q) : Prop :=
  NoDup (processingSteps s) /\ idle s /\ quiet s.

(** What the closure of the run started from [s0] holds at position
    [(i, j)]. *)
Definition closure_at (s0 : App Q) (i j : nat) (r : Run Q) : Prop :=
  steps r = processingSteps s0 /\
  if (i =? length (processingSteps s0))%nat then
    currentStepIndex r = length (processingSteps s0) /\ timer r = noTimer
  else if (j =? ticksPerStage)%nat then
    currentStepIndex r = (i + 1)%nat /\ timer r = pauseTimeout
  else
    currentStepIndex r = i /\
    exists l p, processingSteps s0 !! i = Some l /\
                timer r = stepInterval l p /\
                p == lit (2 * j)%nat.

(** What the store holds for the stages of the run at position [(i, j)]. *)
Definition heap_at (s0 : App Q) (i j : nat) (h : list (ProcessingStep Q)) : Prop :=
  forall m l, processingSteps s0 !! m = Some l ->
    exists o, h !! l = Some o /\
              progress o == lit (stage_pct i j m) /\
              completed o = (stage_pct i j m =? 100)%nat.

(** The state of the component at position [(i, j)] of the run started
    from [s0]. *)
Record At (s0 : App Q) (i j : nat) (s : App Q) : Prop := {
  at_runs : exists r, runs s = runs s0 ++ [r] /\ closure_at s0 i j r;
  at_steps : processingSteps s = processingSteps s0;
  at_overall : overallProgress s
                 == lit (100 * i + 2 * j)%nat / lit (length (processingSteps s0));
  at_step : currentStep s
              = if (i =? length (processingSteps s0))%nat then preview
                else processing;
  at_processing : isProcessing s = negb (i =? length (processingSteps s0))%nat;
  at_heap : heap_at s0 i j (heap s);
  at_rest : uploadedVideo s = uploadedVideo s0 /\
            isPlaying s = isPlaying s0 /\
            issued s = issued s0 /\
            downloads s = downloads s0
}.

(** A run in flight: somewhere before its completion signal. *)
Definition in_flight (s : App Q) : Prop :=
  exists s0 i j,
    ready s0 /\ (i < length (processingSteps s0))%nat /\
    (j <= ticksPerStage)%nat /\ At s0 i j s.

(** A finished conversion: nothing scheduled, every stage at 100 and
    completed. *)
Definition finished (s : App Q) : Prop :=
  quiet s /\ NoDup (processingSteps s) /\
  forall l, l ∈ processingSteps s ->
    exists o, heap s !! l = Some o /\ progress o == lit 100%nat /\
              completed o = true.

(** What holds of the wizard in each of its steps. *)
Definition wizard_inv (s : App Q) : Prop :=
  length (processingSteps s) = 4%nat /\
  match currentStep s with
  | upload => ready s
  | processing => uploadedVideo s <> None /\ in_flight s
  | preview | download => uploadedVideo s <> None /\ finished s
  end.

End Positions.

(** *** Where a run stands, on the numbers of the program

    The same positions for a number type on which the counter of a stage
    is exact: adding [100 / 50] to [2 j] gives [2 (j + 1)], and the tests
    against 100 come out as on integers.  Overall progress is then
    whatever the operations of the source give, rounded or not. *)

Section CountedPositions.
Context {num : Type} `{JSNumber num}.

Definition exact_counter : Prop :=
  forall j, j <= ticksPerStage ->
    neqb (lit (2 * j)) (lit 100) = (j =? ticksPerStage) /\
    (j < ticksPerStage ->
       nadd (lit (2 * j)) progressIncrement = lit (2 * (j + 1)) /\
       ngeb (lit (2 * (j + 1))) (lit 100) = (ticksPerStage <=? j + 1)).

(** What [overallProgress] holds at position [(i, j)] of a run over [n]
    stages that started at overall progress [start]: the argument of the
    last [setOverallProgress] call. *)
Definition overall_shown (n : nat) (start : num) (i j : nat) : num :=
  if i =? n then lit 100
  else if j =? ticksPerStage then nmul (ndiv (lit (i + 1)) (lit n)) (lit 100)
  else if j =? 0 then
    match i with
    | 0 => start
    | S i' => nmul (ndiv (lit (i' + 1)) (lit n)) (lit 100)
    end
  else nadd (nmul (ndiv (lit i) (lit n)) (lit 100)) (ndiv (lit (2 * j)) (lit n)).

(** Distinct stage objects at progress 0, not completed, and no earlier
    run in flight. *)
Definition counted_idle (s : App num) : Prop :=
  NoDup (processingSteps s) /\
  (forall l, l ∈ processingSteps s ->
     exists o, heap s !! l = Some o /\ progress o = lit 0 /\
               completed o = false) /\
  quiet s.

Definition counted_closure (s0 : App num) (i j : nat) (r : Run num) : Prop :=
  steps r = processingSteps s0 /\
  if i =? length (processingSteps s0) then
    currentStepIndex r = length (processingSteps s0) /\ timer r = noTimer
  else if j =? ticksPerStage then
    currentStepIndex r = i + 1 /\ timer r = pauseTimeout
  else
    currentStepIndex r = i /\
    exists l, processingSteps s0 !! i = Some l /\
              timer r = stepInterval l (lit (2 * j)).

Definition counted_heap (s0 : App num) (i j : nat)
    (h : list (ProcessingStep num)) : Prop :=
  forall m l, processingSteps s0 !! m = Some l ->
    exists o, h !! l = Some o /\
              progress o = lit (stage_pct i j m) /\
              completed o = (stage_pct i j m =? 100).

Record CountedAt (s0 : App num) (i j : nat) (s : App num) : Prop := {
  ct_runs : exists r, runs s = runs s0 ++ [r] /\ counted_closure s0 i j r;
  ct_steps : processingSteps s = processingSteps s0;
  ct_overall : overallProgress s
                 = overall_shown (length (processingSteps s0))
                                 (overallProgress s0) i j;
  ct_step : currentStep s
              = if i =? length (processingSteps s0) then preview
                else processing;
  ct_processing : isProcessing s = negb (i =? length (processingSteps s0));
  ct_heap : counted_heap s0 i j (heap s)
}.

End CountedPositions.

(** The engine started on [n] idle stages, on binary64 numbers. *)
Definition stages64 (n : nat) : App float :=
  setProcessingSteps (seq 0 n)
    (with_heap (replicate n (mkStep "stage" "" (lit 0) false)) uploaded64).

(** The states the wizard can get into: the first render, and whatever an
    event the rendered component accepts leads to. *)
Inductive reachable {num : Type} `{JSNumber num} : App num -> Prop :=
| reachable_initial : reachable initial
| reachable_dispatch (s s' : App num) (e : Event) :
    reachable s -> dispatch e s = Some s' -> reachable s'.

(** ** The rest of the component: the upload paths and what is rendered *)

(** The part of a DOM [File] the component reads. *)
Module File.
Record t := mk {
  name : string;
  size : nat;
  type : string;
}.
End File.

Section UploadPaths.
Context {num : Type} `{JSNumber num}.

(** [URL.createObjectURL], and [formatFileSize] on a size that is not 0,
    where it computes with [Math.log] and [toFixed]: both are left to the
    browser and taken as given. *)
Variable createObjectURL : File.t -> string.
Variable formatNonZero : nat -> string.

Definition formatFileSize (bytes : nat) : string :=
  if bytes =? 0 then "0 Bytes" else formatNonZero bytes.

(** The [VideoFile] that [handleVideoUpload] builds from a [File]. *)
Definition videoFileOf (file : File.t) : VideoFile.t :=
  VideoFile.mk (createObjectURL file) (File.name file)
               (formatFileSize (File.size file)).

(** The component state with the [isDragging] cell. *)
Record Shell := mkShell {
  app : App num;
  isDragging : bool;
}.

Definition setIsDragging (v : bool) (sh : Shell) : Shell :=
  mkShell (app sh) v.

Definition with_app (a : App num) (sh : Shell) : Shell :=
  mkShell a (isDragging sh).

Definition handleDragOver (sh : Shell) : Shell := setIsDragging true sh.

Definition handleDragLeave (sh : Shell) : Shell := setIsDragging false sh.

(** file.type.startsWith('video/') *)
Definition isVideo (file : File.t) : bool :=
  String.prefix "video/" (File.type file).

(** [files] is [Array.from(e.dataTransfer.files)]. *)
Definition handleDrop (files : list File.t) (sh : Shell) : Shell :=
  let sh := setIsDragging false sh in
  match List.find isVideo files with
  | Some videoFile =>
      with_app (handleVideoUpload (videoFileOf videoFile) (app sh)) sh
  | None => sh
  end.

(** [files] is [e.target.files], empty when there is none. *)
Definition handleFileSelect (files : list File.t) (sh : Shell) : Shell :=
  match files !! 0 with
  | Some file => with_app (handleVideoUpload (videoFileOf file) (app sh)) sh
  | None => sh
  end.

End UploadPaths.

(** *** The step indicator *)

(** The three looks of a step: the current one, one already passed, one
    still to come. *)
Inductive Tone := CurrentTone | PassedTone | ComingTone.

Definition sameStep (a b : WizardStep) : bool :=
  match a, b with
  | upload, upload | processing, processing
  | preview, preview | download, download => true
  | _, _ => false
  end.

(** [Array.prototype.indexOf]: the first index, or -1. *)
Fixpoint indexOf (x : WizardStep) (l : list WizardStep) : Z :=
  match l with
  | [] => (-1)%Z
  | y :: rest =>
      if sameStep y x then 0%Z
      else let r := indexOf x rest in
           if (r <? 0)%Z then (-1)%Z else (r + 1)%Z
  end.

(** The steps the indicator maps over, and the array it looks steps up in. *)
Definition indicatorSteps : list WizardStep :=
  [upload; processing; preview; download].

Definition rankedSteps : list WizardStep := [processing; preview; download].

Definition stepTone (currentStep step : WizardStep) : Tone :=
  if sameStep currentStep step then CurrentTone
  else if (indexOf currentStep rankedSteps >? indexOf step rankedSteps)%Z
       then PassedTone
       else ComingTone.

(** The line after the step at [index], drawn for [index < 3]. *)
Definition connectorPassed (currentStep : WizardStep) (index : nat) : bool :=
  (indexOf currentStep rankedSteps >? Z.of_nat index)%Z.

(** *** A stage row and the overall readout *)

Inductive StageIcon := CheckIcon | SpinnerIcon | DotIcon.

(** What the rendering needs of numbers besides [JSNumber]: [a > b], and
    [Math.round], which has no integer to give for NaN and the
    infinities. *)
Class JSView (num : Type) := {
  ngtb : num -> num -> bool;
  mathRound : num -> option Z;
}.

(** Half-way cases go up. *)
Definition roundQ (q : Q) : Z := Qfloor (q + (1 # 2)).

#[global] Instance Q_JSView : JSView Q := {|
  ngtb a b := negb (Qle_bool a b);
  mathRound q := Some (roundQ q);
|}.

(** The rational a finite binary64 number stands for. *)
Definition exactQ (x : float) : option Q :=
  match Prim2SF x with
  | S754_zero _ => Some 0%Q
  | S754_finite sign m e =>
      Some (inject_Z (if sign then Zneg m else Zpos m) * Qpower 2 e)%Q
  | _ => None
  end.

#[global] Instance F64_JSView : JSView float := {|
  ngtb a b := PrimFloat.ltb b a;
  mathRound x := roundQ <$> exactQ x;
|}.

Section Rendered.
Context {num : Type} `{JSNumber num} `{JSView num}.

(** step.completed ? check : step.progress > 0 ? spinner : dot *)
Definition stageIcon (o : ProcessingStep num) : StageIcon :=
  if completed o then CheckIcon
  else if ngtb (progress o) (lit 0) then SpinnerIcon
  else DotIcon.

(** {Math.round(overallProgress)}% and {Math.round(step.progress)}% *)
Definition overallReadout (s : App num) : option Z :=
  mathRound (overallProgress s).

Definition stageReadout (o : ProcessingStep num) : option Z :=
  mathRound (progress o).

(** Checks first, then at most one spinner, then dots. *)
Fixpoint iconsInOrder (l : list StageIcon) : bool :=
  match l with
  | [] => true
  | CheckIcon :: rest => iconsInOrder rest
  | SpinnerIcon :: rest | DotIcon :: rest =>
      forallb (fun x => match x with DotIcon => true | _ => false end) rest
  end.

End Rendered.

(** *** Notions for the statements about them *)

(** A history in which every command went to the left view and then, the
    same, to the right one. *)
Definition toBothViews (cs : list MediaCommand) : list (View * MediaCommand) :=
  flat_map (fun c => [(LeftEye, c); (RightEye, c)]) cs.

(** The fields no timer callback writes. *)
Definition same_outside_engine {num : Type} (s s' : App num) : Prop :=
  uploadedVideo s' = uploadedVideo s /\
  isPlaying s' = isPlaying s /\
  leftVideoRef s' = leftVideoRef s /\
  rightVideoRef s' = rightVideoRef s /\
  issued s' = issued s /\
  downloads s' = downloads s.

(** A position on the timeline of a run over [n] stages. *)
Definition on_timeline (n i j : nat) : Prop :=
  i < n /\ j <= ticksPerStage \/ i = n /\ j = 0.

(** What the component shows at position [(i, j)] of a run over [n]
    stages: the stages and the overall progress. *)
Definition shows (n i j : nat) (s : App Q) : Prop :=
  length (displayed s) = n /\
  (overallProgress s == lit (100 * i + 2 * j) / lit n)%Q /\
  forall m o, displayed s !! m = Some o ->
    (progress o == lit (stage_pct i j m))%Q /\
    completed o = (stage_pct i j m =? 100).

(** Outside the processing step nothing is being processed, and once the
    preview is reached overall progress is 100. *)
Definition settled (s : App Q) : Prop :=
  match currentStep s with
  | upload => isProcessing s = false
  | processing => True
  | preview | download => isProcessing s = false /\ (overallProgress s == lit 100)%Q
  end.

(** Stage [i] is the only one that may be under way: the stages before it
    are completed at 100, the stages after it have not begun. *)
Definition frontier (i : nat) (s : App Q) : Prop :=
  forall m o, displayed s !! m = Some o ->
    (m < i -> completed o = true /\ (progress o == lit 100)%Q) /\
    (i < m -> completed o = false /\ (progress o == lit 0)%Q).

(** [f off + f (off + 1) + ... + f (off + len - 1)] *)
Fixpoint sum_from (f : nat -> nat) (off len : nat) : nat :=
  match len with
  | 0 => 0
  | S len => f off + sum_from f (S off) len
  end.

(** The name and the description of a stage, and those of the stages a
    list of references points to. *)
Definition label {num : Type} (o : ProcessingStep num) : string * string :=
  (name o, description o).

Definition labels_at {num : Type} `{JSNumber num}
    (h : list (ProcessingStep num)) (ls : list nat) : list (string * string) :=
  (fun l => label (deref h l)) <$> ls.

(** The references of [ls] point into the store, at stages that carry, in
    order, the names and descriptions of the first render. *)
Definition well_labelled {num : Type} `{JSNumber num}
    (h : list (ProcessingStep num)) (ls : list nat) : Prop :=
  Forall (fun l => l < length h) ls /\
  labels_at h ls = label <$> initialSteps.

(** The stages on display and the stages every run holds are the stages
    of the first render. *)
Definition stages_kept {num : Type} `{JSNumber num} (s : App num) : Prop :=
  well_labelled (heap s) (processingSteps s) /\
  forall r, r ∈ runs s -> well_labelled (heap s) (steps r).

(** One conversion, as the user goes through it: the file is chosen, the
    conversion started, and the timers of the run [rid] fire to the end. *)
Definition conversion (f : VideoFile.t) (rid : nat) : list Event :=
  SelectFile f :: ClickStart :: replicate (period * 4) (TimerFires rid).

(** The sum of a list of rationals. *)
Definition total (l : list Q) : Q := foldr Qplus 0%Q l.

(** The wizard on exact rationals after a conversion of [clip] and a click
    on play. *)
Definition playingQ : App Q :=
  default freshQ (dispatch_all (conversion clip 0 ++ [ClickToggle]) freshQ).

(** The same after the download of the converted clip. *)
Definition downloadedQ : App Q :=
  default freshQ
    (dispatch_all (conversion clip 0 ++ [ClickToggle; ClickDownload]) freshQ).

(** The conversion of [clip] one tick before its last stage completes. *)
Definition lastTickQ : App Q :=
  default freshQ
    (dispatch_all
       (SelectFile clip :: ClickStart
          :: replicate (period * 3 + 49) (TimerFires 0)) freshQ).

(** ** Unfolding the handlers *)

(** Computes the fields of a state built by the setters. *)
Ltac fields :=
  cbn [currentStep uploadedVideo isPlaying processingSteps overallProgress
       isProcessing heap runs leftVideoRef rightVideoRef issued downloads
       setCurrentStep setUploadedVideo setIsPlaying setProcessingSteps
       setOverallProgress setIsProcessing with_heap with_runs with_videos
       with_issued with_downloads write update_run
       steps currentStepIndex timer].

Tactic Notation "fields" "in" hyp(H) :=
  cbn [currentStep uploadedVideo isPlaying processingSteps overallProgress
       isProcessing heap runs leftVideoRef rightVideoRef issued downloads
       setCurrentStep setUploadedVideo setIsPlaying setProcessingSteps
       setOverallProgress setIsProcessing with_heap with_runs with_videos
       with_issued with_downloads write update_run
       steps currentStepIndex timer] in H.

Section Equations.
Context {num : Type} `{JSNumber num}.

Lemma processStep_finish (rid : nat) (r : Run num) (s : App num) :
  length (steps r) <= currentStepIndex r ->
  processStep rid r s =
    update_run rid (mkRun (steps r) (currentStepIndex r) noTimer)
      (setCurrentStep preview
        (setIsProcessing false (setOverallProgress (lit 100) s))).
Proof.
  intros Hle. unfold processStep.
  now destruct (Nat.leb_spec (length (steps r)) (currentStepIndex r)); [|lia].
Qed.

Lemma processStep_stage (rid : nat) (r : Run num) (s : App num) (l : loc) :
  steps r !! currentStepIndex r = Some l ->
  processStep rid r s =
    update_run rid
      (mkRun (steps r) (currentStepIndex r) (stepInterval l (lit 0))) s.
Proof.
  intros Hl. unfold processStep.
  pose proof (lookup_lt_Some _ _ _ Hl) as Hlt.
  destruct (Nat.leb_spec (length (steps r)) (currentStepIndex r)); [lia|].
  now rewrite Hl.
Qed.

Lemma intervalCallback_completes (rid : nat) (r : Run num) (l : loc) (p : num)
    (s : App num) :
  ngeb (nadd p progressIncrement) (lit 100) = true ->
  intervalCallback rid r l p s =
    update_run rid (mkRun (steps r) (currentStepIndex r + 1) pauseTimeout)
      (setOverallProgress
         (nmul (ndiv (lit (currentStepIndex r + 1)) (lit (length (steps r))))
               (lit 100))
         (setProcessingSteps (steps r)
            (write l (assign_completed true)
               (write l (assign_progress (lit 100)) s)))).
Proof. intros Hge. unfold intervalCallback. now rewrite Hge. Qed.

Lemma intervalCallback_advances (rid : nat) (r : Run num) (l : loc) (p : num)
    (s : App num) :
  ngeb (nadd p progressIncrement) (lit 100) = false ->
  intervalCallback rid r l p s =
    update_run rid
      (mkRun (steps r) (currentStepIndex r)
             (stepInterval l (nadd p progressIncrement)))
      (setOverallProgress
         (nadd (nmul (ndiv (lit (currentStepIndex r)) (lit (length (steps r))))
                     (lit 100))
               (ndiv (nadd p progressIncrement) (lit (length (steps r)))))
         (setProcessingSteps (steps r)
            (write l (assign_progress (nadd p progressIncrement)) s))).
Proof. intros Hlt. unfold intervalCallback. now rewrite Hlt. Qed.

Lemma startProcessing_unfold (s : App num) :
  startProcessing s =
    processStep (length (runs s)) (mkRun (processingSteps s) 0 noTimer)
      (with_runs (runs s ++ [mkRun (processingSteps s) 0 noTimer])
         (setIsProcessing true (setCurrentStep processing s))).
Proof. reflexivity. Qed.

(** The timer of a run is looked up in the closure the run owns. *)
Lemma fire_lookup (rid : nat) (r : Run num) (s : App num) :
  runs s !! rid = Some r ->
  fire rid s =
    match timer r with
    | stepInterval l p => Some (Tick, intervalCallback rid r l p s)
    | pauseTimeout => Some (PauseEnd, processStep rid r s)
    | noTimer => None
    end.
Proof. intros Hr. unfold fire. now rewrite Hr. Qed.

Lemma update_last_run (rs : list (Run num)) (r r' : Run num) :
  <[length rs := r']> (rs ++ [r]) = rs ++ [r'].
Proof.
  rewrite insert_app_r_alt by lia. now rewrite Nat.sub_diag.
Qed.

(** [after_timers] and [run_timers] describe the same execution. *)
Lemma after_timers_succ (k rid : nat) (s : App num) :
  after_timers (S k) rid s
    = after_timers k rid s ≫= fun sk => snd <$> fire rid sk.
Proof.
  revert s. induction k as [|k IH]; intros s.
  - cbn. now destruct (fire rid s) as [[κ s']|].
  - change (after_timers (S (S k)) rid s)
      with (match fire rid s with
            | Some (_, s') => after_timers (S k) rid s'
            | None => None
            end).
    change (after_timers (S k) rid s)
      with (match fire rid s with
            | Some (_, s') => after_timers k rid s'
            | None => None
            end).
    destruct (fire rid s) as [[κ s']|]; [apply IH | reflexivity].
Qed.

Lemma run_timers_lookup (fuel k rid : nat) (s sk s' : App num) (κ : TimerKind) :
  after_timers k rid s = Some sk -> fire rid sk = Some (κ, s') -> k < fuel ->
  run_timers fuel rid s !! k = Some (κ, s').
Proof.
  revert fuel s. induction k as [|k IH]; intros fuel s Hk Hf Hlt;
    (destruct fuel as [|fuel]; [lia|]); cbn in Hk |- *.
  - inversion Hk; subst. now rewrite Hf.
  - destruct (fire rid s) as [[κ1 s1]|]; [|discriminate].
    cbn. apply IH; [assumption..|lia].
Qed.

Lemma run_timers_length (fuel m rid : nat) (s sm : App num) :
  after_timers m rid s = Some sm -> fire rid sm = None -> m <= fuel ->
  length (run_timers fuel rid s) = m.
Proof.
  revert fuel s. induction m as [|m IH]; intros fuel s Hm Hf Hle; cbn in Hm.
  - inversion Hm; subst. destruct fuel; cbn; [reflexivity|]. now rewrite Hf.
  - destruct fuel as [|fuel]; [lia|]. cbn.
    destruct (fire rid s) as [[κ1 s1]|]; [|discriminate].
    cbn. f_equal. apply IH; [assumption..|lia].
Qed.

End Equations.

(** ** The download naming rule *)

Lemma split_head (c : ascii) (s : string) :
  split c s !! 0 = Some (upToFirst c s).
Proof.
  induction s as [|a rest IH]; simpl; [reflexivity|].
  destruct (Ascii.eqb a c); [reflexivity|].
  destruct (split c rest) as [|hd tl]; simpl in *; [discriminate|].
  now inversion IH.
Qed.

Lemma upToFirst_free (c : ascii) (s : string) :
  ~ In c (list_ascii_of_string (upToFirst c s)).
Proof.
  induction s as [|a rest IH]; simpl; [tauto|].
  destruct (Ascii.eqb_spec a c) as [->|Hne]; simpl; [tauto|].
  intros [->|Hin]; [now apply Hne | now apply IH].
Qed.

Lemma upToFirst_prefix (c : ascii) (s : string) :
  exists rest, s = (upToFirst c s ++ rest)%string /\
               (rest = EmptyString \/ exists r, rest = String c r).
Proof.
  induction s as [|a s' IH]; simpl.
  - exists EmptyString. split; [reflexivity | now left].
  - destruct (Ascii.eqb_spec a c) as [->|Hne].
    + exists (String c s'). split; [reflexivity | right; now exists s'].
    + destruct IH as (rest & Heq & Hrest).
      exists rest. split; [simpl; now rewrite <- Heq | exact Hrest].
Qed.

Section Download.
Context {num : Type} `{JSNumber num}.

(** C10: the file name handed to the download link is the uploaded asset's
    name cut before its first '.', followed by "_VR180.mp4"; the part kept
    holds no '.', and what is cut off is empty or starts with '.'. *)
Theorem download_name_rule (s : App num) (f : VideoFile.t) :
  let stem := upToFirst "." (VideoFile.name f) in
  downloadName (Some f) = (stem ++ "_VR180.mp4")%string /\
  downloads (downloadVideo (handleVideoUpload f s))
    = (downloads s ++ [(stem ++ "_VR180.mp4")%string])%list /\
  ~ In "."%char (list_ascii_of_string stem) /\
  exists rest, VideoFile.name f = (stem ++ rest)%string /\
               (rest = EmptyString \/ exists r, rest = String "." r).
Proof.
  intros stem.
  assert (Hn : downloadName (Some f) = (stem ++ "_VR180.mp4")%string).
  { unfold downloadName; simpl. now rewrite split_head. }
  split; [exact Hn|]. split.
  - unfold downloadVideo, handleVideoUpload; simpl. now rewrite Hn.
  - split; [apply upToFirst_free | apply upToFirst_prefix].
Qed.

End Download.

Example download_name_clip :
  downloadName (Some clip) = "holiday_VR180.mp4".
Proof. reflexivity. Qed.

Example download_name_hidden :
  downloadName (Some (VideoFile.mk "blob:h" ".env" "1 KB")) = "_VR180.mp4".
Proof. reflexivity. Qed.

(** ** The playback controller *)

Section Playback.
Context {num : Type} `{JSNumber num}.

Lemma commit_isPlaying (s : App num) : isPlaying (commit s) = isPlaying s.
Proof. unfold commit. now destruct (previewRendered s). Qed.

Lemma commit_rendered (s : App num) :
  previewRendered (commit s) = previewRendered s.
Proof. unfold commit. now destruct (previewRendered s) eqn:E. Qed.

(** After a render the refs are filled exactly when the preview is shown. *)
Lemma commit_refs (s : App num) :
  previewRendered s = true ->
  is_Some (leftVideoRef (commit s)) /\ is_Some (rightVideoRef (commit s)).
Proof. intros Hr. unfold commit. rewrite Hr. cbn. split; eexists; reflexivity. Qed.

Lemma reachable_refs (s : App num) :
  reachable s -> previewRendered s = true ->
  is_Some (leftVideoRef s) /\ is_Some (rightVideoRef s).
Proof.
  intros [|s0 s1 e _ Hd]; [discriminate|].
  unfold dispatch in Hd. destruct (handle e s0) as [x|]; [|discriminate].
  injection Hd as <-. rewrite commit_rendered. apply commit_refs.
Qed.

(** C7: with both views attached, one call of togglePlayback sends the same
    command to the left and to the right view and nothing else, and leaves
    both views and the controller in the same play state, the opposite of
    the controller's state before; in any state, two calls in succession
    give back the original isPlaying.  Wherever the wizard shows the
    play/pause button both views are attached, so every click on it leaves
    the three in the same play state. *)
Theorem toggle_keeps_views_in_step (s : App num) :
  (is_Some (leftVideoRef s) -> is_Some (rightVideoRef s) ->
     in_step (togglePlayback s) /\
     isPlaying (togglePlayback s) = negb (isPlaying s) /\
     exists c, sent_by_toggle s = [(LeftEye, c); (RightEye, c)]) /\
  isPlaying (togglePlayback (togglePlayback s)) = isPlaying s /\
  (forall s', reachable s -> dispatch ClickToggle s = Some s' ->
     in_step s' /\ isPlaying s' = negb (isPlaying s)).
Proof.
  assert (Hattached : is_Some (leftVideoRef s) -> is_Some (rightVideoRef s) ->
     in_step (togglePlayback s) /\
     isPlaying (togglePlayback s) = negb (isPlaying s) /\
     exists c, sent_by_toggle s = [(LeftEye, c); (RightEye, c)]).
  { unfold in_step, sent_by_toggle, togglePlayback.
    intros [l Hl] [r Hr]. rewrite Hl, Hr.
    destruct (isPlaying s) eqn:E; simpl;
      rewrite drop_app_length; repeat split; eauto. }
  split; [exact Hattached|]. split.
  - unfold togglePlayback.
    destruct (leftVideoRef s) as [l|] eqn:Hl; [|now rewrite Hl].
    destruct (rightVideoRef s) as [r|] eqn:Hr; [|now rewrite Hl, Hr].
    destruct (isPlaying s) eqn:E; reflexivity.
  - intros s' Hreach Hd. unfold dispatch in Hd. cbn [handle] in Hd.
    destruct (previewRendered s) eqn:Hshown; [|discriminate].
    injection Hd as <-.
    destruct (reachable_refs s Hreach Hshown) as (Hl & Hr).
    destruct (Hattached Hl Hr) as ((Hleft & Hright) & Hflip & _).
    assert (Hkeep : previewRendered (togglePlayback s) = true).
    { unfold previewRendered, togglePlayback in *.
      destruct (leftVideoRef s), (rightVideoRef s), (isPlaying s);
        exact Hshown. }
    unfold in_step, commit. rewrite Hkeep. cbn.
    destruct (leftVideoRef (togglePlayback s)); [|discriminate].
    destruct (rightVideoRef (togglePlayback s)); [|discriminate].
    cbn in *. now repeat split.
Qed.

(** C8: while either view handle is missing, togglePlayback changes
    nothing: no command is sent, isPlaying keeps its value, and the call
    returns normally; the handles are missing whenever the preview view is
    not rendered. *)
Theorem toggle_without_views_is_noop (s : App num) :
  (leftVideoRef s = None \/ rightVideoRef s = None ->
     togglePlayback s = s /\ sent_by_toggle s = []) /\
  (previewRendered s = false -> togglePlayback (commit s) = commit s).
Proof.
  split.
  - intros Hmiss.
    assert (Hsame : togglePlayback s = s).
    { unfold togglePlayback. destruct Hmiss as [-> | Hr]; [reflexivity|].
      rewrite Hr. now destruct (leftVideoRef s). }
    split; [exact Hsame|].
    unfold sent_by_toggle. rewrite Hsame. apply drop_all.
  - intros Hnot. unfold commit. now rewrite Hnot.
Qed.

(** C9: when either video reports that it ended, the handler sets the
    shared isPlaying to false, whichever view it was and whatever the state
    before; both videos of the rendered preview route that event to the
    handler. *)
Theorem ended_stops_playing (v : View) (s : App num) :
  isPlaying (handleVideoEnd (reach_end v s)) = false /\
  (previewRendered s = true ->
     exists s', dispatch (Ended v) s = Some s' /\ isPlaying s' = false).
Proof.
  split; [reflexivity|].
  intros Hr. unfold dispatch, handle.
  rewrite Hr. simpl. eexists. split; [reflexivity|].
  now rewrite commit_isPlaying.
Qed.

End Playback.

(** ** [resetProcess] and [startProcessing] on any state *)

Section AnyState.
Context {num : Type} `{JSNumber num}.

Lemma reset_displayed (s : App num) :
  displayed (resetProcess s) = cleared <$> displayed s.
Proof.
  unfold displayed, resetProcess. fields.
  rewrite length_fmap. apply list_eq. intros k.
  rewrite !list_lookup_fmap.
  destruct (processingSteps s !! k) as [l|] eqn:Hl.
  - pose proof (lookup_lt_Some _ _ _ Hl) as Hlt.
    rewrite lookup_seq_lt by exact Hlt. cbn. f_equal.
    unfold deref at 1. rewrite lookup_app_r by lia.
    replace (length (heap s) + k - length (heap s)) with k by lia.
    now rewrite list_lookup_fmap, Hl.
  - pose proof (lookup_ge_None_1 _ _ Hl) as Hge.
    now rewrite (lookup_ge_None_2 (seq _ _)) by (rewrite length_seq; lia).
Qed.

Lemma fire_none_iff (rid : nat) (s s' : App num) :
  runs s' = runs s -> (fire rid s' = None <-> fire rid s = None).
Proof.
  intros Hr. unfold fire. rewrite Hr.
  destruct (runs s !! rid) as [r|]; [|tauto].
  destruct (timer r); split; intros Hx; try discriminate; reflexivity.
Qed.

Lemma quiet_silent (rid : nat) (s : App num) : quiet s -> fire rid s = None.
Proof.
  intros Hq. unfold fire.
  destruct (runs s !! rid) as [r|] eqn:Hl; [|reflexivity].
  now rewrite (Hq r (list_elem_of_lookup_2 _ _ _ Hl)).
Qed.

(** The reset writes to no object: the new stage objects are appended
    to the store, and the state array is the list of their addresses. *)
Lemma reset_heap (s : App num) :
  heap (resetProcess s) = heap s ++ (cleared <$> displayed s).
Proof.
  unfold resetProcess, displayed. fields. now rewrite <- list_fmap_compose.
Qed.

Lemma reset_addresses (s : App num) :
  processingSteps (resetProcess s)
  = seq (length (heap s)) (length (processingSteps s)).
Proof. unfold resetProcess. fields. now rewrite length_fmap. Qed.

Lemma deref_alter_app (f : ProcessingStep num -> ProcessingStep num)
    (l a : nat) (h h' : list (ProcessingStep num)) :
  a < length h -> deref (alter f l (h ++ h')) a = deref (alter f l h) a.
Proof.
  intros Ha. unfold deref. destruct (Nat.eq_dec l a) as [->|Hne].
  - now rewrite !list_lookup_alter_eq, lookup_app_l.
  - now rewrite !list_lookup_alter_ne, lookup_app_l.
Qed.

(** A tick that was pending at the reset writes to the object it has
    captured and puts the array it has captured back on display: it shows
    what it would have shown without the reset. *)
Lemma tick_after_reset (rid : nat) (r : Run num) (l : nat) (p : num)
    (s : App num) :
  runs s !! rid = Some r -> timer r = stepInterval l p ->
  Forall (fun a => a < length (heap s)) (steps r) ->
  exists s1 s2,
    fire rid (resetProcess s) = Some (Tick, s1) /\
    fire rid s = Some (Tick, s2) /\
    displayed s1 = displayed s2 /\
    overallProgress s1 = overallProgress s2 /\
    currentStep s1 = upload.
Proof.
  intros Hr Ht Hin.
  rewrite (fire_lookup rid r (resetProcess s)) by exact Hr.
  rewrite (fire_lookup rid r s Hr), Ht.
  eexists _, _. split; [reflexivity|]. split; [reflexivity|].
  assert (Hold : forall f,
    deref (alter f l (heap (resetProcess s))) <$> steps r
    = deref (alter f l (heap s)) <$> steps r).
  { intros f. rewrite reset_heap. apply Forall_fmap_ext.
    eapply Forall_impl; [exact Hin|]. cbn. intros a Ha.
    now apply deref_alter_app. }
  unfold intervalCallback.
  destruct (ngeb (nadd p progressIncrement) (lit 100)).
  - split; [|now split]. unfold displayed. fields.
    rewrite !list_alter_alter_eq. apply Hold.
  - split; [|now split]. unfold displayed. fields. apply Hold.
Qed.

End AnyState.

(** ** The progress engine over exact rationals, for any number of stages *)

Module Exact.

Local Open Scope Q_scope.

Local Abbreviation lit := (@lit Q Q_JSNumber).
Local Abbreviation State := (App Q).

(** *** Arithmetic of the counters *)

Lemma lit_add (a b : nat) : lit (a + b) == lit a + lit b.
Proof. unfold lit; simpl. now rewrite Nat2Z.inj_add, inject_Z_plus. Qed.

Lemma lit_mul (a b : nat) : lit (a * b) == lit a * lit b.
Proof. unfold lit; simpl. now rewrite Nat2Z.inj_mul, inject_Z_mult. Qed.

Lemma lit_le (a b : nat) : (a <= b)%nat <-> lit a <= lit b.
Proof. unfold lit; simpl. rewrite <- Zle_Qle. lia. Qed.

Lemma lit_inj (a b : nat) : lit a == lit b <-> a = b.
Proof. unfold lit; simpl. rewrite inject_Z_injective. lia. Qed.

Lemma lit_pos (n : nat) : (0 < n)%nat -> ~ lit n == 0.
Proof. intros Hn Hz. change 0 with (lit 0%nat) in Hz. apply lit_inj in Hz. lia. Qed.

Lemma progressIncrement_two : progressIncrement (num:=Q) == lit 2%nat.
Proof. reflexivity. Qed.

(** The test [stepProgress >= 100] after the [j+1]-th tick of a stage. *)
Lemma threshold (p : Q) (j : nat) :
  p == lit (2 * j)%nat ->
  nadd p progressIncrement == lit (2 * (j + 1))%nat /\
  ngeb (nadd p progressIncrement) (lit 100%nat) = (50 <=? j + 1)%nat.
Proof.
  intros Hp.
  assert (Hs : p + progressIncrement == lit (2 * (j + 1))%nat).
  { rewrite Hp, progressIncrement_two, <- lit_add. apply lit_inj. lia. }
  split; [exact Hs|].
  change (Qle_bool (lit 100%nat) (p + progressIncrement) = (50 <=? j + 1)%nat).
  destruct (Nat.leb_spec 50 (j + 1)) as [Hge|Hlt].
  - apply Qle_bool_iff. rewrite Hs. apply lit_le. lia.
  - apply not_true_is_false. rewrite Qle_bool_iff, Hs, <- lit_le. lia.
Qed.

(** *** One step of a run *)

Section OneRun.
Variable s0 : State.

Local Abbreviation ls := (processingSteps s0).
Local Abbreviation n := (length (processingSteps s0)).
Local Abbreviation rid := (length (runs s0)).

Lemma start_at :
  ready s0 -> (0 < n)%nat -> At s0 0 0 (startProcessing s0).
Proof.
  intros (Hnd & (Hov & Hidle) & Hq) Hn.
  destruct (lookup_lt_is_Some_2 ls 0 Hn) as [l0 Hl0].
  rewrite startProcessing_unfold, (processStep_stage _ _ _ l0) by exact Hl0.
  assert (Hn0 : (0 =? n)%nat = false) by (apply Nat.eqb_neq; lia).
  split; fields; rewrite ?Hn0; try reflexivity.
  - eexists. split; [apply update_last_run|].
    split; [reflexivity|]. rewrite Hn0. cbn [ticksPerStage Nat.eqb].
    split; [reflexivity|]. exists l0, (lit 0%nat). now repeat split.
  - rewrite Hov. unfold Qdiv. now rewrite Qmult_0_l.
  - intros m l Hm.
    destruct (Hidle l) as (o & Ho & Hp & Hc).
    { apply list_elem_of_lookup. eauto. }
    exists o. split; [exact Ho|]. unfold stage_pct.
    destruct (Nat.ltb_spec m 0); [lia|].
    destruct (Nat.eqb_spec m 0); cbn; now split.
  - now repeat split.
Qed.

Hypothesis Hready : ready s0.
Hypothesis Hn : (0 < n)%nat.

Lemma own_run (s : State) (r : Run Q) :
  runs s = runs s0 ++ [r] -> runs s !! rid = Some r.
Proof. intros ->. now apply list_lookup_middle. Qed.

Lemma stage_unique (m i : nat) (l : loc) :
  ls !! m = Some l -> ls !! i = Some l -> m = i.
Proof.
  destruct Hready as (Hnd & _). intros Hm Hi.
  exact (NoDup_lookup ls m i l Hnd Hm Hi).
Qed.

(** A write to the object of the current stage. *)
Lemma heap_at_write (i j j' : nat) (h : list (ProcessingStep Q)) (l : loc)
    (f : ProcessingStep Q -> ProcessingStep Q) :
  heap_at s0 i j h -> ls !! i = Some l ->
  (forall o, h !! l = Some o ->
             progress (f o) == lit (2 * j')%nat /\
             completed (f o) = (2 * j' =? 100)%nat) ->
  heap_at s0 i j' (alter f l h).
Proof.
  intros Hh Hl Hf m l' Hm.
  destruct (Hh m l' Hm) as (o & Ho & Hp & Hc).
  destruct (decide (l' = l)) as [->|Hne].
  - assert (m = i) as -> by (eapply stage_unique; eassumption).
    exists (f o). split; [now rewrite list_lookup_alter_eq, Ho|].
    unfold stage_pct. rewrite Nat.ltb_irrefl, Nat.eqb_refl. now apply Hf.
  - assert (m <> i) by (intros ->; congruence).
    exists o. rewrite list_lookup_alter_ne by congruence.
    split; [exact Ho|]. unfold stage_pct in *.
    destruct (m <? i)%nat; [now split|].
    destruct (Nat.eqb_spec m i); [contradiction | now split].
Qed.

(** The pause after stage [i] changes nothing in the store. *)
Lemma heap_at_next (i : nat) (h : list (ProcessingStep Q)) :
  heap_at s0 i ticksPerStage h -> heap_at s0 (i + 1) 0 h.
Proof.
  intros Hh m l Hm. destruct (Hh m l Hm) as (o & Ho & Hp & Hc).
  exists o. split; [exact Ho|].
  replace (stage_pct (i + 1) 0 m) with (stage_pct i ticksPerStage m);
    [now split|].
  unfold stage_pct, ticksPerStage.
  destruct (Nat.ltb_spec m i), (Nat.ltb_spec m (i + 1)),
           (Nat.eqb_spec m i), (Nat.eqb_spec m (i + 1)); lia.
Qed.

(** The value [setOverallProgress] receives on an ordinary tick. *)
Lemma overall_value (i t : nat) (q : Q) :
  q == lit t ->
  lit i / lit n * lit 100%nat + q / lit n == lit (100 * i + t)%nat / lit n.
Proof.
  intros ->. rewrite lit_add, lit_mul.
  field. now apply lit_pos.
Qed.

(** The value [setOverallProgress] receives when stage [i] completes. *)
Lemma boundary_value (i : nat) :
  lit (i + 1)%nat / lit n * lit 100%nat
    == lit (100 * i + 2 * ticksPerStage)%nat / lit n.
Proof.
  replace (100 * i + 2 * ticksPerStage)%nat with (100 * (i + 1))%nat
    by (unfold ticksPerStage; lia).
  rewrite lit_mul. field. now apply lit_pos.
Qed.

(** A tick that leaves the stage below 100. *)
Lemma tick_advances (i j : nat) (s : State) :
  (i < n)%nat -> (j + 1 < ticksPerStage)%nat -> At s0 i j s ->
  exists s', fire rid s = Some (Tick, s') /\ At s0 i (j + 1) s'.
Proof.
  unfold ticksPerStage.
  intros Hi Hj [(r & Hr & Hst & Hcl) Hps Hov Hcs Hip Hh Hrest].
  assert (Hin : (i =? n)%nat = false) by (apply Nat.eqb_neq; lia).
  assert (Hj50 : (j =? ticksPerStage)%nat = false)
    by (apply Nat.eqb_neq; unfold ticksPerStage; lia).
  rewrite Hin in Hcs, Hip.
  rewrite Hin, Hj50 in Hcl. destruct Hcl as (Hidx & l & p & Hl & Ht & Hp).
  destruct (threshold p j Hp) as (Hs & Hb).
  assert (Hlt : (50 <=? j + 1)%nat = false) by (apply Nat.leb_gt; lia).
  rewrite Hlt in Hb.
  rewrite (fire_lookup rid r s (own_run s r Hr)), Ht.
  rewrite intervalCallback_advances by exact Hb.
  eexists. split; [reflexivity|].
  rewrite Hst, Hidx.
  split; fields; rewrite ?Hin; try assumption; try reflexivity.
  - eexists. split; [rewrite Hr; apply update_last_run|].
    split; [reflexivity|]. rewrite Hin.
    replace (j + 1 =? ticksPerStage)%nat with false
      by (symmetry; apply Nat.eqb_neq; unfold ticksPerStage; lia).
    split; [reflexivity|]. exists l, (p + progressIncrement). now repeat split.
  - exact (overall_value i (2 * (j + 1)) _ Hs).
  - apply (heap_at_write i j (j + 1) _ l); [exact Hh | exact Hl |].
    intros o Ho. cbn [assign_progress progress completed]. split; [exact Hs|].
    destruct (Hh i l Hl) as (o' & Ho' & _ & Hc').
    assert (o' = o) as -> by congruence.
    rewrite Hc'. unfold stage_pct. rewrite Nat.ltb_irrefl, Nat.eqb_refl.
    transitivity false; [|symmetry]; apply Nat.eqb_neq; lia.
Qed.

(** The tick that takes the stage to 100. *)
Lemma tick_completes (i : nat) (s : State) :
  (i < n)%nat -> At s0 i (ticksPerStage - 1) s ->
  exists s', fire rid s = Some (Tick, s') /\ At s0 i ticksPerStage s'.
Proof.
  unfold ticksPerStage. cbn [Nat.sub].
  intros Hi [(r & Hr & Hst & Hcl) Hps Hov Hcs Hip Hh Hrest].
  assert (Hin : (i =? n)%nat = false) by (apply Nat.eqb_neq; lia).
  rewrite Hin in Hcs, Hip.
  rewrite Hin in Hcl. cbn [ticksPerStage Nat.eqb] in Hcl.
  destruct Hcl as (Hidx & l & p & Hl & Ht & Hp).
  destruct (threshold p 49 Hp) as (Hs & Hb).
  cbn [Nat.add Nat.leb] in Hb.
  rewrite (fire_lookup rid r s (own_run s r Hr)), Ht.
  rewrite intervalCallback_completes by exact Hb.
  eexists. split; [reflexivity|].
  rewrite Hst, Hidx.
  split; fields; rewrite ?Hin; try assumption; try reflexivity.
  - eexists. split; [rewrite Hr; apply update_last_run|].
    split; [reflexivity|]. rewrite Hin. now cbn [ticksPerStage Nat.eqb].
  - exact (boundary_value i).
  - rewrite list_alter_alter_eq.
    apply (heap_at_write i 49 50 _ l); [exact Hh | exact Hl |].
    intros o _. now split.
Qed.

(** The pause after a stage that is not the last: [processStep] sets up
    the interval of the next stage and reports nothing. *)
Lemma pause_starts_next (i : nat) (s : State) :
  (i + 1 < n)%nat -> At s0 i ticksPerStage s ->
  exists s', fire rid s = Some (PauseEnd, s') /\ At s0 (i + 1) 0 s'.
Proof.
  intros Hi [(r & Hr & Hst & Hcl) Hps Hov Hcs Hip Hh Hrest].
  assert (Hin : (i =? n)%nat = false) by (apply Nat.eqb_neq; lia).
  assert (Hin' : (i + 1 =? n)%nat = false) by (apply Nat.eqb_neq; lia).
  rewrite Hin in Hcs, Hip.
  rewrite Hin, Nat.eqb_refl in Hcl. destruct Hcl as (Hidx & Ht).
  destruct (lookup_lt_is_Some_2 ls (i + 1) Hi) as [l Hl].
  rewrite (fire_lookup rid r s (own_run s r Hr)), Ht.
  rewrite (processStep_stage _ _ _ l) by (now rewrite Hst, Hidx).
  eexists. split; [reflexivity|].
  rewrite Hst, Hidx.
  split; fields; rewrite ?Hin'; try assumption; try reflexivity.
  - eexists. split; [rewrite Hr; apply update_last_run|].
    split; [reflexivity|]. rewrite Hin'. cbn [ticksPerStage Nat.eqb].
    split; [reflexivity|]. exists l, (lit 0%nat). now repeat split.
  - rewrite Hov.
    replace (100 * (i + 1) + 2 * 0)%nat with (100 * i + 2 * ticksPerStage)%nat
      by (unfold ticksPerStage; lia).
    reflexivity.
  - now apply heap_at_next.
Qed.

(** The pause after the last stage: [processStep] finds no stage left and
    signals completion. *)
Lemma pause_finishes (i : nat) (s : State) :
  (i + 1 = n)%nat -> At s0 i ticksPerStage s ->
  exists s', fire rid s = Some (PauseEnd, s') /\ At s0 n 0 s'.
Proof.
  intros Hi [(r & Hr & Hst & Hcl) Hps Hov Hcs Hip Hh Hrest].
  assert (Hin : (i =? n)%nat = false) by (apply Nat.eqb_neq; lia).
  rewrite Hin in Hcs, Hip.
  rewrite Hin, Nat.eqb_refl in Hcl. destruct Hcl as (Hidx & Ht).
  rewrite (fire_lookup rid r s (own_run s r Hr)), Ht.
  rewrite processStep_finish by (rewrite Hst, Hidx; lia).
  eexists. split; [reflexivity|].
  rewrite Hst, Hidx, Hi.
  split; fields; rewrite ?Nat.eqb_refl; try assumption; try reflexivity.
  - eexists. split; [rewrite Hr; apply update_last_run|].
    split; [reflexivity|]. now rewrite Nat.eqb_refl.
  - rewrite Nat.add_0_r, lit_mul. field. now apply lit_pos.
  - rewrite <- Hi. now apply heap_at_next.
Qed.

(** Once the run has signalled completion it has no timer left, and if no
    other run was in flight when it started, nothing at all is scheduled. *)
Lemma finished_is_silent (s : State) (rid' : nat) :
  At s0 n 0 s -> fire rid' s = None.
Proof.
  intros [(r & Hr & Hst & Hcl) _ _ _ _ _ _].
  rewrite Nat.eqb_refl in Hcl. destruct Hcl as (_ & Ht).
  destruct Hready as (_ & _ & Hq).
  unfold fire. rewrite Hr.
  destruct ((runs s0 ++ [r]) !! rid') as [r'|] eqn:Hl; [|reflexivity].
  apply list_elem_of_lookup_2, elem_of_app in Hl as [Hin|Hin].
  - now rewrite (Hq r' Hin).
  - apply list_elem_of_singleton in Hin as ->. now rewrite Ht.
Qed.

(** *** The whole run *)

Lemma step_at (k : nat) (s : State) :
  (k < period * n)%nat -> At s0 (k / period) (k mod period) s ->
  exists s', fire rid s = Some (kind_at (k mod period), s') /\
             At s0 ((k + 1) / period) ((k + 1) mod period) s'.
Proof.
  unfold period, ticksPerStage; cbn [Nat.add]. intros Hk Hat.
  pose proof (Nat.div_mod_eq k 51%nat) as Hdm.
  pose proof (Nat.mod_upper_bound k 51%nat ltac:(lia)) as Hub.
  set (i := (k / 51)%nat) in *. set (j := (k mod 51)%nat) in *.
  assert (Hi : (i < n)%nat) by lia.
  destruct (Nat.lt_ge_cases (j + 1) 50%nat) as [Hj|Hj].
  - assert ((k + 1) / 51 = i /\ (k + 1) mod 51 = j + 1)%nat as [-> ->].
    { split; symmetry;
        [apply (Nat.div_unique _ _ _ (j + 1)%nat) | apply (Nat.mod_unique _ _ i)];
        lia. }
    unfold kind_at, ticksPerStage.
    destruct (Nat.ltb_spec j 50); [|lia].
    now apply tick_advances.
  - destruct (Nat.eq_dec j 49%nat) as [Hj49|Hj49].
    + assert ((k + 1) / 51 = i /\ (k + 1) mod 51 = 50)%nat as [-> ->].
      { split; symmetry;
          [apply (Nat.div_unique _ _ _ 50%nat) | apply (Nat.mod_unique _ _ i)];
          lia. }
      unfold kind_at, ticksPerStage.
      destruct (Nat.ltb_spec j 50); [|lia].
      rewrite Hj49 in Hat. now apply tick_completes.
    + assert (Hj50 : j = 50%nat) by lia.
      assert ((k + 1) / 51 = i + 1 /\ (k + 1) mod 51 = 0)%nat as [-> ->].
      { split; symmetry;
          [apply (Nat.div_unique _ _ _ 0%nat) | apply (Nat.mod_unique _ _ (i + 1)%nat)];
          lia. }
      unfold kind_at, ticksPerStage.
      destruct (Nat.ltb_spec j 50); [lia|].
      rewrite Hj50 in Hat.
      destruct (Nat.eq_dec (i + 1)%nat n) as [Hlast|Hmore].
      * rewrite Hlast. now apply (pause_finishes i).
      * apply pause_starts_next; [lia | assumption].
Qed.

(** The state after [k] timers of the run. *)
Lemma run_at (k : nat) :
  (k <= period * n)%nat ->
  exists s, after_timers k rid (startProcessing s0) = Some s /\
            At s0 (k / period) (k mod period) s.
Proof.
  induction k as [|k IH]; intros Hk.
  - exists (startProcessing s0). split; [reflexivity|].
    change (At s0 0 0 (startProcessing s0)). now apply start_at.
  - destruct IH as (s & Hs & Hat); [lia|].
    destruct (step_at k s ltac:(lia) Hat) as (s' & Hf & Hat').
    exists s'. split.
    + rewrite after_timers_succ, Hs. cbn. now rewrite Hf.
    + now rewrite <- Nat.add_1_r.
Qed.

(** Everything the timers of the run do, given fuel for all of them: the
    run fires [period * n] timers and then stops by itself. *)
Lemma timeline (fuel : nat) :
  (period * n <= fuel)%nat ->
  let tr := run_timers fuel rid (startProcessing s0) in
  length tr = (period * n)%nat /\
  forall k, (k < period * n)%nat ->
    exists s', tr !! k = Some (kind_at (k mod period), s') /\
               At s0 ((k + 1) / period) ((k + 1) mod period) s'.
Proof.
  intros Hfuel tr. split.
  - destruct (run_at (period * n) ltac:(lia)) as (s & Hs & Hat).
    rewrite Nat.mul_comm, Nat.div_mul, Nat.Div0.mod_mul in Hat
      by (unfold period, ticksPerStage; lia).
    rewrite Nat.mul_comm in Hs.
    apply (run_timers_length _ _ _ _ s); [| now apply finished_is_silent | lia].
    now rewrite Nat.mul_comm.
  - intros k Hk.
    destruct (run_at k ltac:(lia)) as (s & Hs & Hat).
    destruct (step_at k s Hk Hat) as (s' & Hf & Hat').
    exists s'. split; [|exact Hat'].
    apply (run_timers_lookup _ _ _ _ s); [assumption..|lia].
Qed.

End OneRun.

(** *** What the snapshots of a run show *)

Section Observed.
Variable s0 : State.
Variable fuel : nat.

Local Abbreviation n := (length (processingSteps s0)).

Hypothesis Hready : ready s0.
Hypothesis Hn : (0 < n)%nat.
Hypothesis Hfuel : (period * n <= fuel)%nat.

(** The [k]-th snapshot is the state at position [k] of the run. *)
Lemma snapshot_at (k : nat) (s : State) :
  snapshots fuel s0 !! k = Some s ->
  (k <= period * n)%nat /\ At s0 (k / period) (k mod period) s.
Proof.
  destruct (timeline s0 Hready Hn fuel Hfuel) as (Hlen & Hall).
  unfold snapshots. destruct k as [|k]; intros Hk.
  - injection Hk as <-. split; [lia|]. now apply start_at.
  - change ((run_timers fuel (length (runs s0)) (startProcessing s0)).*2 !! k
            = Some s) in Hk.
    rewrite list_lookup_fmap in Hk.
    destruct (run_timers fuel (length (runs s0)) (startProcessing s0) !! k)
      as [[κ s']|] eqn:Hl; [|discriminate].
    injection Hk as <-.
    pose proof (lookup_lt_Some _ _ _ Hl) as Hlt. rewrite Hlen in Hlt.
    destruct (Hall k Hlt) as (s'' & Hl' & Hat).
    rewrite Hl in Hl'. injection Hl' as _ <-.
    split; [lia|]. now rewrite <- Nat.add_1_r.
Qed.

Lemma snapshots_length : length (snapshots fuel s0) = S (period * n).
Proof.
  destruct (timeline s0 Hready Hn fuel Hfuel) as (Hlen & _).
  unfold snapshots. cbn [length]. now rewrite length_fmap, Hlen.
Qed.

Lemma displayed_at (i j m : nat) (s : State) (o : ProcessingStep Q) :
  At s0 i j s -> displayed s !! m = Some o ->
  (m < n)%nat /\
  progress o == lit (stage_pct i j m) /\
  completed o = (stage_pct i j m =? 100)%nat.
Proof.
  intros [_ Hps _ _ _ Hh _]. unfold displayed.
  rewrite list_lookup_fmap, Hps. intros Hm.
  destruct (processingSteps s0 !! m) as [l|] eqn:Hl; [|discriminate].
  injection Hm as <-.
  destruct (Hh m l Hl) as (o & Ho & Hp & Hc).
  split; [exact (lookup_lt_Some _ _ _ Hl)|].
  unfold deref. rewrite Ho. now split.
Qed.

Lemma displayed_length (i j : nat) (s : State) :
  At s0 i j s -> length (displayed s) = n.
Proof.
  intros [_ Hps _ _ _ _ _]. unfold displayed. now rewrite length_fmap, Hps.
Qed.

End Observed.

Lemma pct_mono (a b : nat) : (a <= b)%nat -> (pct a <= pct b)%nat.
Proof.
  unfold pct, period, ticksPerStage; cbn [Nat.add]. intros Hab.
  pose proof (Nat.div_mod_eq a 51%nat). pose proof (Nat.div_mod_eq b 51%nat).
  pose proof (Nat.mod_upper_bound a 51%nat ltac:(lia)).
  pose proof (Nat.mod_upper_bound b 51%nat ltac:(lia)).
  lia.
Qed.

Lemma share_le (a b n : nat) :
  (0 < n)%nat -> (a <= b)%nat -> lit a / lit n <= lit b / lit n.
Proof.
  intros Hn Hab. unfold Qdiv. apply Qmult_le_compat_r.
  - now apply lit_le.
  - apply Qinv_le_0_compat. change 0 with (lit 0%nat). apply lit_le. lia.
Qed.

Lemma share_full (a n : nat) :
  (0 < n)%nat -> lit a / lit n == lit 100%nat -> a = (100 * n)%nat.
Proof.
  intros Hn Hq. apply lit_inj. rewrite lit_mul.
  rewrite <- Hq. field. now apply lit_pos.
Qed.

(** Names the stage and the tick count of position [k] and records how
    they relate to [k]. *)
Ltac position k i j :=
  let Hdm := fresh "Hdm" in
  let Hub := fresh "Hub" in
  pose proof (Nat.div_mod_eq k 51%nat) as Hdm;
  pose proof (Nat.mod_upper_bound k 51%nat ltac:(lia)) as Hub;
  set (i := (k / 51)%nat) in *; set (j := (k mod 51)%nat) in *.

Ltac stage_cases :=
  unfold stage_pct in *;
  repeat match goal with
  | H : context [(?a <? ?b)%nat] |- _ => destruct (Nat.ltb_spec a b)
  | |- context [(?a <? ?b)%nat] => destruct (Nat.ltb_spec a b)
  | H : context [(?a =? ?b)%nat] |- _ => destruct (Nat.eqb_spec a b)
  | |- context [(?a =? ?b)%nat] => destruct (Nat.eqb_spec a b)
  end.

(** A list whose entries are known by index is a map over the indices. *)
Lemma tabulated {A} (f : nat -> A) (l : list A) (m : nat) :
  length l = m -> (forall k, (k < m)%nat -> l !! k = Some (f k)) ->
  l = f <$> seq 0 m.
Proof.
  intros Hlen Hall. apply list_eq. intros k.
  rewrite list_lookup_fmap.
  destruct (Nat.lt_ge_cases k m) as [Hlt|Hge].
  - now rewrite Hall, lookup_seq_lt.
  - rewrite (lookup_ge_None_2 l) by lia.
    now rewrite (lookup_ge_None_2 (seq 0 m)) by (rewrite length_seq; lia).
Qed.

Lemma kinds_by_stage (n : nat) :
  (fun k => kind_at (k mod period)) <$> seq 0 (period * n)
    = concat (replicate n stage_timers).
Proof.
  induction n as [|n IH]; [now rewrite Nat.mul_0_r|].
  replace (period * S n)%nat with (period * n + period)%nat by lia.
  rewrite seq_app, fmap_app, IH, replicate_S_end, concat_app.
  f_equal. cbn [concat Nat.add]. rewrite app_nil_r.
  rewrite <- (Nat.add_0_r (period * n)), <- fmap_add_seq, <- list_fmap_compose.
  assert (Hblock : (fun k => kind_at (k mod period)) <$> seq 0 period
                   = stage_timers) by reflexivity.
  rewrite <- Hblock. apply list_fmap_ext. intros _ t _. cbn [compose].
  now rewrite Nat.add_comm, Nat.mul_comm, Nat.Div0.mod_add.
Qed.

(** Nominal duration of [n] stages, in milliseconds. *)
Lemma duration_by_stage (n : nat) :
  list_sum (delay <$> concat (replicate n stage_timers))
    = (n * (ticksPerStage * tickMs + pauseMs))%nat.
Proof.
  induction n as [|n IH]; [reflexivity|].
  cbn [replicate concat]. rewrite fmap_app, list_sum_app, IH.
  change (list_sum (delay <$> stage_timers))
    with (ticksPerStage * tickMs + pauseMs)%nat.
  lia.
Qed.

Section Properties.
Variable s0 : State.
Variable fuel : nat.

Local Abbreviation n := (length (processingSteps s0)).

Hypothesis Hready : ready s0.
Hypothesis Hn : (0 < n)%nat.
Hypothesis Hfuel : (period * n <= fuel)%nat.

Local Abbreviation snaps := (snapshots fuel s0).

(** Overall progress never goes down from one snapshot to a later one. *)
Lemma overall_nondecreasing (a b : nat) (sa sb : State) :
  (a <= b)%nat -> snaps !! a = Some sa -> snaps !! b = Some sb ->
  overallProgress sa <= overallProgress sb.
Proof.
  intros Hab Ha Hb.
  destruct (snapshot_at s0 fuel Hready Hn Hfuel a sa Ha) as (_ & [_ _ Hoa _ _ _ _]).
  destruct (snapshot_at s0 fuel Hready Hn Hfuel b sb Hb) as (_ & [_ _ Hob _ _ _ _]).
  rewrite Hoa, Hob. apply share_le; [exact Hn|]. exact (pct_mono a b Hab).
Qed.

(** Overall progress is 100 only when every stage is completed. *)
Lemma overall_full_all_completed (k : nat) (s : State) (o : ProcessingStep Q) :
  snaps !! k = Some s -> overallProgress s == lit 100%nat ->
  o ∈ displayed s -> completed o = true.
Proof.
  intros Hk Hfull Ho.
  destruct (snapshot_at s0 fuel Hready Hn Hfuel k s Hk) as (Hle & Hat).
  apply list_elem_of_lookup in Ho as (m & Hm).
  destruct (displayed_at s0 _ _ m s o Hat Hm) as (Hmn & _ & ->).
  destruct Hat as [_ _ Hov _ _ _ _]. rewrite Hov in Hfull.
  apply share_full in Hfull; [|exact Hn].
  unfold period, ticksPerStage in *. cbn [Nat.add] in *.
  position k i j. apply Nat.eqb_eq. stage_cases; lia.
Qed.

(** The last snapshot shows 100. *)
Lemma overall_reaches_full :
  exists s, snaps !! (period * n)%nat = Some s /\
            overallProgress s == lit 100%nat /\
            isProcessing s = false /\ currentStep s = preview.
Proof.
  pose proof (snapshots_length s0 fuel Hready Hn Hfuel) as Hlen.
  destruct (lookup_lt_is_Some_2 snaps (period * n)%nat) as [s Hs].
  { lia. }
  destruct (snapshot_at s0 fuel Hready Hn Hfuel _ s Hs) as (_ & Hat).
  rewrite Nat.mul_comm, Nat.div_mul, Nat.Div0.mod_mul in Hat
    by (unfold period, ticksPerStage; lia).
  destruct Hat as [_ _ Hov Hcs Hip _ _].
  rewrite Nat.eqb_refl in Hcs, Hip.
  exists s. repeat split; try assumption.
  rewrite Hov, Nat.add_0_r, lit_mul. field. now apply lit_pos.
Qed.

(** On every displayed stage of every snapshot, [completed] holds exactly
    when [progress] is 100. *)
Lemma completed_iff_full (k : nat) (s : State) (o : ProcessingStep Q) :
  snaps !! k = Some s -> o ∈ displayed s ->
  (completed o = true <-> progress o == lit 100%nat).
Proof.
  intros Hk Ho.
  destruct (snapshot_at s0 fuel Hready Hn Hfuel k s Hk) as (_ & Hat).
  apply list_elem_of_lookup in Ho as (m & Hm).
  destruct (displayed_at s0 _ _ m s o Hat Hm) as (_ & -> & ->).
  now rewrite lit_inj, Nat.eqb_eq.
Qed.

(** A stage completed in one snapshot is completed in every later one. *)
Lemma completed_stays (a b i : nat) (sa sb : State) (oa ob : ProcessingStep Q) :
  (a <= b)%nat -> snaps !! a = Some sa -> snaps !! b = Some sb ->
  displayed sa !! i = Some oa -> displayed sb !! i = Some ob ->
  completed oa = true -> completed ob = true.
Proof.
  intros Hab Ha Hb Hia Hib.
  destruct (snapshot_at s0 fuel Hready Hn Hfuel a sa Ha) as (_ & Hata).
  destruct (snapshot_at s0 fuel Hready Hn Hfuel b sb Hb) as (_ & Hatb).
  destruct (displayed_at s0 _ _ i sa oa Hata Hia) as (_ & _ & ->).
  destruct (displayed_at s0 _ _ i sb ob Hatb Hib) as (_ & _ & ->).
  rewrite !Nat.eqb_eq.
  unfold period, ticksPerStage in *. cbn [Nat.add] in *.
  position a ia ja. position b ib jb. stage_cases; lia.
Qed.

(** When the progress of a stage becomes 100, that snapshot shows the
    stage completed and the overall progress at the stage boundary, and
    the timer that produced it is the 50th tick of the stage. *)
Lemma stage_reaches_full (k i : nat) (sp s : State) (op o : ProcessingStep Q) :
  snaps !! k = Some sp -> snaps !! S k = Some s ->
  displayed sp !! i = Some op -> displayed s !! i = Some o ->
  ~ progress op == lit 100%nat -> progress o == lit 100%nat ->
  completed o = true /\
  overallProgress s == lit 100%nat * lit (i + 1)%nat / lit n /\
  k = (period * i + (ticksPerStage - 1))%nat.
Proof.
  intros Hk Hk' Hi Hi' Hbefore Hafter.
  destruct (snapshot_at s0 fuel Hready Hn Hfuel k sp Hk) as (_ & Hat).
  destruct (snapshot_at s0 fuel Hready Hn Hfuel (S k) s Hk') as (_ & Hat').
  destruct (displayed_at s0 _ _ i sp op Hat Hi) as (_ & Hp & _).
  destruct (displayed_at s0 _ _ i s o Hat' Hi') as (_ & Hp' & Hc').
  rewrite Hp, lit_inj in Hbefore. rewrite Hp', lit_inj in Hafter.
  destruct Hat' as [_ _ Hov _ _ _ _].
  assert (Hpos : (S k / period = i /\ S k mod period = ticksPerStage)%nat).
  { clear Hp Hp' Hc' Hov. unfold period, ticksPerStage in *. cbn [Nat.add] in *.
    position k ik jk. position (S k) ik' jk'. stage_cases; lia. }
  destruct Hpos as (Hdiv & Hmod).
  split; [|split].
  - rewrite Hc'. now apply Nat.eqb_eq.
  - rewrite Hov, Hdiv, Hmod.
    replace (100 * i + 2 * ticksPerStage)%nat with (100 * (i + 1))%nat
      by (unfold ticksPerStage; lia).
    now rewrite lit_mul.
  - unfold period, ticksPerStage in *. cbn [Nat.add Nat.sub] in *.
    pose proof (Nat.div_mod_eq (S k) 51%nat). lia.
Qed.

(** Every stage does reach 100: stage [i] on the 50th tick of its turn. *)
Lemma stage_boundary (i : nat) :
  (i < n)%nat ->
  exists sp s op o,
    snaps !! (period * i + (ticksPerStage - 1))%nat = Some sp /\
    snaps !! S (period * i + (ticksPerStage - 1))%nat = Some s /\
    displayed sp !! i = Some op /\ displayed s !! i = Some o /\
    completed op = false /\ ~ progress op == lit 100%nat /\
    completed o = true /\ progress o == lit 100%nat /\
    overallProgress s == lit 100%nat * lit (i + 1)%nat / lit n.
Proof.
  intros Hi.
  pose proof (snapshots_length s0 fuel Hready Hn Hfuel) as Hlen.
  set (k := (period * i + (ticksPerStage - 1))%nat).
  assert (Hk : (S k <= period * n)%nat)
    by (unfold k, period, ticksPerStage; cbn [Nat.add Nat.sub]; lia).
  destruct (lookup_lt_is_Some_2 snaps k ltac:(lia)) as [sp Hsp].
  destruct (lookup_lt_is_Some_2 snaps (S k) ltac:(lia)) as [s Hs].
  destruct (snapshot_at s0 fuel Hready Hn Hfuel k sp Hsp) as (_ & Hat).
  destruct (snapshot_at s0 fuel Hready Hn Hfuel (S k) s Hs) as (_ & Hat').
  destruct (lookup_lt_is_Some_2 (displayed sp) i) as [op Hop].
  { rewrite (displayed_length s0 _ _ sp Hat). exact Hi. }
  destruct (lookup_lt_is_Some_2 (displayed s) i) as [o Ho].
  { rewrite (displayed_length s0 _ _ s Hat'). exact Hi. }
  destruct (displayed_at s0 _ _ i sp op Hat Hop) as (_ & Hp & Hc).
  destruct (displayed_at s0 _ _ i s o Hat' Ho) as (_ & Hp' & Hc').
  assert (Hpos : (k / period = i /\ k mod period = ticksPerStage - 1)%nat).
  { unfold k, period, ticksPerStage. cbn [Nat.add Nat.sub].
    split; symmetry;
      [apply (Nat.div_unique _ _ _ 49%nat) | apply (Nat.mod_unique _ _ i)]; lia. }
  assert (Hpos' : (S k / period = i /\ S k mod period = ticksPerStage)%nat).
  { unfold k, period, ticksPerStage. cbn [Nat.add Nat.sub].
    split; symmetry;
      [apply (Nat.div_unique _ _ _ 50%nat) | apply (Nat.mod_unique _ _ i)]; lia. }
  destruct Hpos as (Hd & Hm). destruct Hpos' as (Hd' & Hm').
  rewrite Hd, Hm in Hp, Hc. rewrite Hd', Hm' in Hp', Hc'.
  unfold stage_pct in Hp, Hc, Hp', Hc'.
  rewrite Nat.ltb_irrefl, Nat.eqb_refl in Hp, Hc, Hp', Hc'.
  assert (Hfull : progress o == lit 100%nat) by exact Hp'.
  exists sp, s, op, o. repeat split; try assumption.
  - rewrite Hp, lit_inj. unfold ticksPerStage. cbn. lia.
  - exact (proj1 (proj2 (stage_reaches_full k i sp s op o Hsp Hs Hop Ho
             ltac:(rewrite Hp, lit_inj; unfold ticksPerStage; cbn; lia) Hfull))).
Qed.

(** The timers of the run, in the order they fire: for each stage its 50
    ticks and then the pause, the last stage included. *)
Lemma timers_by_stage :
  (run_timers fuel (length (runs s0)) (startProcessing s0)).*1
    = concat (replicate n stage_timers).
Proof.
  destruct (timeline s0 Hready Hn fuel Hfuel) as (Hlen & Hall).
  rewrite <- kinds_by_stage.
  apply tabulated; [now rewrite length_fmap|].
  intros k Hk. destruct (Hall k Hk) as (s' & Hl & _).
  now rewrite list_lookup_fmap, Hl.
Qed.

(** Completion is signalled by the last timer and by no other. *)
Lemma signal_once (k : nat) (s : State) :
  snaps !! k = Some s ->
  (isProcessing s = false <-> k = (period * n)%nat) /\
  (currentStep s = preview <-> k = (period * n)%nat).
Proof.
  intros Hk.
  destruct (snapshot_at s0 fuel Hready Hn Hfuel k s Hk)
    as (Hle & [_ _ _ Hcs Hip _ _]).
  rewrite Hcs, Hip.
  assert (Hiff : (k / period = n <-> k = period * n)%nat).
  { unfold period, ticksPerStage in *. cbn [Nat.add] in *.
    position k i j. lia. }
  destruct (Nat.eqb_spec (k / period) n) as [He|Hne]; cbn; split; split;
    intros Hx; try reflexivity; try discriminate; tauto.
Qed.

(** Stage [i] shows completed from its 50th tick on, and not before. *)
Lemma completed_from (k i : nat) (s : State) (o : ProcessingStep Q) :
  snaps !! k = Some s -> displayed s !! i = Some o ->
  (completed o = true <-> (period * i + ticksPerStage <= k)%nat).
Proof.
  intros Hk Hi.
  destruct (snapshot_at s0 fuel Hready Hn Hfuel k s Hk) as (_ & Hat).
  destruct (displayed_at s0 _ _ i s o Hat Hi) as (_ & _ & ->).
  rewrite Nat.eqb_eq.
  unfold period, ticksPerStage in *. cbn [Nat.add] in *.
  position k ik jk. stage_cases; lia.
Qed.

(** After the completion signal nothing is scheduled any more. *)
Lemma silent_after (s : State) (rid' : nat) :
  snaps !! (period * n)%nat = Some s -> fire rid' s = None.
Proof.
  intros Hs.
  destruct (snapshot_at s0 fuel Hready Hn Hfuel _ s Hs) as (_ & Hat).
  rewrite Nat.mul_comm, Nat.div_mul, Nat.Div0.mod_mul in Hat
    by (unfold period, ticksPerStage; lia).
  now apply (finished_is_silent s0 Hready).
Qed.

End Properties.

(** *** The wizard as a whole *)

(** One timer of a run in flight. *)
Lemma in_flight_step (s0 s : State) (i j : nat) :
  ready s0 -> (i < length (processingSteps s0))%nat ->
  (j <= ticksPerStage)%nat -> At s0 i j s ->
  exists κ s' i' j',
    fire (length (runs s0)) s = Some (κ, s') /\ At s0 i' j' s' /\
    ((i' < length (processingSteps s0))%nat /\ (j' <= ticksPerStage)%nat \/
     i' = length (processingSteps s0) /\ j' = 0%nat).
Proof.
  unfold ticksPerStage. intros Hready Hi Hj Hat.
  assert (Hn : (0 < length (processingSteps s0))%nat) by lia.
  destruct (Nat.lt_ge_cases (j + 1) 50%nat) as [Hlt|Hge].
  - destruct (tick_advances s0 Hready Hn i j s Hi Hlt Hat) as (s' & Hf & Hat').
    exists Tick, s', i, (j + 1)%nat. split; [exact Hf|]. split; [exact Hat'|]. left. lia.
  - destruct (Nat.eq_dec j 49%nat) as [->|Hne].
    + destruct (tick_completes s0 Hready Hn i s Hi Hat) as (s' & Hf & Hat').
      exists Tick, s', i, ticksPerStage. split; [exact Hf|]. split; [exact Hat'|].
      left. unfold ticksPerStage. lia.
    + assert (j = ticksPerStage) as -> by (unfold ticksPerStage; lia).
      destruct (Nat.eq_dec (i + 1)%nat (length (processingSteps s0)))
        as [Hlast|Hmore].
      * destruct (pause_finishes s0 Hn i s Hlast Hat) as (s' & Hf & Hat').
        exists PauseEnd, s', (length (processingSteps s0)), 0%nat.
        split; [exact Hf|]. split; [exact Hat'|]. now right.
      * destruct (pause_starts_next s0 Hn i s ltac:(lia) Hat)
          as (s' & Hf & Hat').
        exists PauseEnd, s', (i + 1)%nat, 0%nat.
        split; [exact Hf|]. split; [exact Hat'|]. left. lia.
Qed.

(** While a run is in flight no other run has a timer. *)
Lemma in_flight_others (s0 s : State) (i j rid : nat) :
  ready s0 -> At s0 i j s -> rid <> length (runs s0) -> fire rid s = None.
Proof.
  intros (_ & _ & Hq) [(r & Hr & _) _ _ _ _ _ _] Hne.
  unfold fire. rewrite Hr.
  destruct (Nat.lt_ge_cases rid (length (runs s0))) as [Hlt|Hge].
  - rewrite lookup_app_l by exact Hlt.
    destruct (runs s0 !! rid) as [r'|] eqn:Hl; [|reflexivity].
    now rewrite (Hq r' (list_elem_of_lookup_2 _ _ _ Hl)).
  - rewrite lookup_ge_None_2; [reflexivity|].
    rewrite length_app. cbn. lia.
Qed.

(** The finished run leaves a finished conversion. *)
Lemma finished_at (s0 s : State) :
  ready s0 -> At s0 (length (processingSteps s0)) 0 s -> finished s.
Proof.
  intros (Hnd & _ & Hq) [(r & Hr & _ & Hcl) Hps _ _ _ Hh _].
  rewrite Nat.eqb_refl in Hcl. destruct Hcl as (_ & Ht).
  split; [|split].
  - intros r' Hin. rewrite Hr in Hin.
    apply elem_of_app in Hin as [Hin|Hin]; [now apply Hq|].
    apply list_elem_of_singleton in Hin as ->. exact Ht.
  - now rewrite Hps.
  - intros l Hl. rewrite Hps in Hl.
    apply list_elem_of_lookup in Hl as (m & Hm).
    pose proof (lookup_lt_Some _ _ _ Hm) as Hlt.
    destruct (Hh m l Hm) as (o & Ho & Hp & Hc).
    exists o. split; [exact Ho|].
    unfold stage_pct in Hp, Hc.
    destruct (Nat.ltb_spec m (length (processingSteps s0))); [|lia].
    now split.
Qed.

Lemma fresh_ready : ready freshQ.
Proof.
  split; [apply NoDup_seq|]. split; [split; [reflexivity|]|].
  - intros l Hl. apply elem_of_seq in Hl. cbn in Hl.
    assert (l = 0 \/ l = 1 \/ l = 2 \/ l = 3)%nat as [-> | [-> | [-> | ->]]] by lia;
      (eexists; split; [reflexivity | split; reflexivity]).
  - intros r Hr. cbn in Hr. now apply elem_of_nil in Hr.
Qed.

(** The predicates of the wizard read nothing but the fields named here. *)
Lemma ready_same (s s' : State) :
  processingSteps s' = processingSteps s -> heap s' = heap s ->
  overallProgress s' = overallProgress s -> runs s' = runs s ->
  ready s -> ready s'.
Proof.
  unfold ready, idle, quiet. intros -> -> -> ->. tauto.
Qed.

Lemma finished_same (s s' : State) :
  processingSteps s' = processingSteps s -> heap s' = heap s ->
  runs s' = runs s -> finished s -> finished s'.
Proof.
  unfold finished, quiet. intros -> -> ->. tauto.
Qed.

Lemma in_flight_videos (s : State) (a b : option HTMLVideoElement) :
  in_flight s -> in_flight (with_videos a b s).
Proof.
  intros (s0 & i & j & Hready & Hi & Hj & [Hr Hps Hov Hcs Hip Hh Hrest]).
  exists s0, i, j. repeat (split; [assumption|]). now split.
Qed.

(** A reset of a wizard with nothing scheduled leaves it ready to start. *)
Lemma reset_ready (s : State) : quiet s -> ready (resetProcess s).
Proof.
  intros Hq. unfold ready, idle, resetProcess. fields.
  rewrite length_fmap.
  split; [apply NoDup_seq|]. split; [split; [reflexivity|]|exact Hq].
  intros l Hl. apply elem_of_seq in Hl as (Hge & Hlt).
  destruct (lookup_lt_is_Some_2 (processingSteps s) (l - length (heap s))%nat)
    as [l' Hl']; [lia|].
  exists (cleared (deref (heap s) l')).
  split; [|split; reflexivity].
  rewrite lookup_app_r by lia. now rewrite list_lookup_fmap, Hl'.
Qed.

Lemma wizard_inv_initial : wizard_inv freshQ.
Proof. split; [reflexivity | exact fresh_ready]. Qed.

Lemma wizard_inv_videos (s : State) (a b : option HTMLVideoElement) :
  wizard_inv s -> wizard_inv (with_videos a b s).
Proof.
  intros (Hlen & Hinv). split; [exact Hlen|]. fields.
  destruct (currentStep s).
  - now apply (ready_same s).
  - destruct Hinv as (Hup & Hfl). split; [exact Hup | now apply in_flight_videos].
  - destruct Hinv as (Hup & Hfin). split; [exact Hup | now apply (finished_same s)].
  - destruct Hinv as (Hup & Hfin). split; [exact Hup | now apply (finished_same s)].
Qed.

Lemma wizard_inv_commit (s : State) : wizard_inv s -> wizard_inv (commit s).
Proof.
  intros Hinv. unfold commit.
  destruct (previewRendered s); now apply wizard_inv_videos.
Qed.

(** Playback touches neither the stages nor the timers. *)
Lemma toggle_same (s : State) :
  currentStep (togglePlayback s) = currentStep s /\
  uploadedVideo (togglePlayback s) = uploadedVideo s /\
  processingSteps (togglePlayback s) = processingSteps s /\
  heap (togglePlayback s) = heap s /\
  runs (togglePlayback s) = runs s.
Proof.
  unfold togglePlayback.
  destruct (leftVideoRef s), (rightVideoRef s), (isPlaying s); now repeat split.
Qed.

Lemma wizard_inv_timer (s s' : State) (rid : nat) (κ : TimerKind) :
  wizard_inv s -> fire rid s = Some (κ, s') -> wizard_inv s'.
Proof.
  intros (Hlen & Hinv) Hf.
  destruct (currentStep s) eqn:Hcs.
  - (* upload *)
    destruct Hinv as (_ & _ & Hq). now rewrite (quiet_silent rid s Hq) in Hf.
  - (* processing *)
    destruct Hinv as (Hup & s0 & i & j & Hready & Hi & Hj & Hat).
    destruct (Nat.eq_dec rid (length (runs s0))) as [->|Hne];
      [|now rewrite (in_flight_others s0 s i j rid Hready Hat Hne) in Hf].
    destruct (in_flight_step s0 s i j Hready Hi Hj Hat)
      as (κ' & s'' & i' & j' & Hf' & Hat' & Hpos).
    rewrite Hf in Hf'. injection Hf' as _ <-.
    pose proof Hat' as [_ Hps _ Hcs' _ _ (Hup' & _)].
    pose proof Hat as [_ Hps0 _ _ _ _ (Hup0 & _)].
    split; [now rewrite Hps, <- Hps0|].
    rewrite Hcs'. destruct Hpos as [(Hi' & Hj')|(-> & ->)].
    + replace (i' =? length (processingSteps s0))%nat with false
        by (symmetry; apply Nat.eqb_neq; lia).
      split; [now rewrite Hup', <- Hup0|]. now exists s0, i', j'.
    + rewrite Nat.eqb_refl.
      split; [now rewrite Hup', <- Hup0|]. now apply (finished_at s0).
  - (* preview *)
    destruct Hinv as (_ & Hq & _). now rewrite (quiet_silent rid s Hq) in Hf.
  - (* download *)
    destruct Hinv as (_ & Hq & _). now rewrite (quiet_silent rid s Hq) in Hf.
Qed.

Lemma wizard_inv_handle (s s' : State) (e : Event) :
  wizard_inv s -> handle e s = Some s' -> wizard_inv s'.
Proof.
  intros Hinv He. pose proof Hinv as (Hlen & Hstep).
  destruct e as [f| | | | | |v|rid]; cbn [handle] in He.
  - (* a file is chosen *)
    destruct (currentStep s) eqn:Hcs; try discriminate.
    destruct (uploadedVideo s); [discriminate|]. injection He as <-.
    split; [exact Hlen|]. unfold handleVideoUpload. fields. rewrite Hcs.
    now apply (ready_same s).
  - (* the file is dropped again *)
    destruct (currentStep s) eqn:Hcs; try discriminate.
    destruct (uploadedVideo s); [|discriminate]. injection He as <-.
    split; [exact Hlen|]. fields. rewrite Hcs. now apply (ready_same s).
  - (* start *)
    destruct (currentStep s) eqn:Hcs; try discriminate.
    destruct (uploadedVideo s) as [f|] eqn:Hup; [|discriminate].
    injection He as <-.
    assert (Hn : (0 < length (processingSteps s))%nat) by lia.
    pose proof (start_at s Hstep Hn) as Hat.
    pose proof Hat as [_ Hps _ Hcs' _ _ (Hup' & _)].
    split; [now rewrite Hps|]. rewrite Hcs'.
    replace (0 =? length (processingSteps s))%nat with false
      by (symmetry; apply Nat.eqb_neq; lia).
    split; [now rewrite Hup', Hup|].
    exists s, 0%nat, 0%nat. repeat (split; [first [assumption | lia]|]).
    exact Hat.
  - (* play or pause *)
    unfold previewRendered in He.
    destruct (currentStep s) eqn:Hcs; try discriminate.
    destruct (uploadedVideo s) as [f|] eqn:Hup; [|discriminate].
    injection He as <-.
    destruct (toggle_same s) as (Hc & Hu & Hp & Hh & Hr).
    split; [now rewrite Hp|]. rewrite Hc, Hcs, Hu.
    destruct Hstep as (Hsome & Hfin).
    split; [now rewrite Hup | now apply (finished_same s)].
  - (* download *)
    unfold previewRendered in He.
    destruct (currentStep s) eqn:Hcs; try discriminate.
    destruct (uploadedVideo s) as [f|] eqn:Hup; [|discriminate].
    injection He as <-.
    split; [exact Hlen|]. unfold downloadVideo. fields.
    destruct Hstep as (Hsome & Hfin).
    split; [now rewrite Hup | now apply (finished_same s)].
  - (* convert another video *)
    assert (Hq : quiet s).
    { destruct (currentStep s); try discriminate; now destruct Hstep as (_ & Hq & _). }
    assert (s' = resetProcess s) as ->.
    { unfold previewRendered in He.
      destruct (currentStep s); try discriminate;
        [destruct (uploadedVideo s); [|discriminate]|]; now injection He. }
    split.
    + unfold resetProcess. fields. now rewrite length_seq, length_fmap.
    + change (currentStep (resetProcess s)) with upload. now apply reset_ready.
  - (* a video has ended *)
    unfold previewRendered in He.
    destruct (currentStep s) eqn:Hcs; try discriminate.
    destruct (uploadedVideo s) as [f|] eqn:Hup; [|discriminate].
    injection He as <-.
    destruct Hstep as (Hsome & Hfin).
    split; [now destruct v|].
    replace (currentStep (handleVideoEnd (reach_end v s))) with preview
      by (now destruct v).
    split; [destruct v; cbn; now rewrite Hup|].
    apply (finished_same s); now destruct v.
  - (* a timer *)
    destruct (fire rid s) as [[κ s'']|] eqn:Hf; [|discriminate].
    injection He as <-. exact (wizard_inv_timer s s'' rid κ Hinv Hf).
Qed.

(** What holds of the wizard holds in every state it can get into. *)
Lemma reachable_inv (s : State) : reachable s -> wizard_inv s.
Proof.
  induction 1 as [|s s' e _ IH Hd]; [exact wizard_inv_initial|].
  unfold dispatch in Hd.
  destruct (handle e s) as [s''|] eqn:He; [|discriminate].
  injection Hd as <-. apply wizard_inv_commit.
  exact (wizard_inv_handle s s'' e IH He).
Qed.

(** The wizard never has more or fewer than its four stages. *)
Lemma always_four_stages (s : State) :
  reachable s -> length (processingSteps s) = 4%nat.
Proof. intros Hreach. exact (proj1 (reachable_inv s Hreach)). Qed.

(** The wizard offers "Convert Another Video" only when nothing is
    scheduled, so nothing fires after the reset. *)
Lemma reset_offered_when_quiet (s s' : State) :
  reachable s -> handle ClickReset s = Some s' ->
  quiet s /\ s' = resetProcess s /\ forall rid, fire rid s' = None.
Proof.
  intros Hreach He. destruct (reachable_inv s Hreach) as (_ & Hstep).
  cbn [handle] in He. unfold previewRendered in He.
  assert (quiet s /\ s' = resetProcess s) as (Hq & ->).
  { destruct (currentStep s); try discriminate;
      [destruct (uploadedVideo s); [|discriminate]|];
      destruct Hstep as (_ & Hq & _); (split; [exact Hq | now injection He]). }
  split; [exact Hq|]. split; [reflexivity|].
  intros rid. apply quiet_silent. exact Hq.
Qed.

(** The wizard offers "Start 3D VR Conversion" only on four idle stages
    with no run in flight. *)
Lemma start_offered_when_ready (s s' : State) :
  reachable s -> handle ClickStart s = Some s' ->
  ready s /\ length (processingSteps s) = 4%nat /\ s' = startProcessing s.
Proof.
  intros Hreach He. destruct (reachable_inv s Hreach) as (Hlen & Hstep).
  cbn [handle] in He.
  destruct (currentStep s); try discriminate.
  destruct (uploadedVideo s); [|discriminate].
  split; [exact Hstep|]. split; [exact Hlen | now injection He].
Qed.

(** In every state the wizard can get into, a displayed stage is completed
    exactly when its progress is 100. *)
Lemma reachable_flags (s : State) (o : ProcessingStep Q) :
  reachable s -> o ∈ displayed s ->
  (completed o = true <-> progress o == lit 100%nat).
Proof.
  intros Hreach Ho. destruct (reachable_inv s Hreach) as (_ & Hstep).
  pose proof Ho as Ho'. apply list_elem_of_lookup in Ho' as (m & Hm).
  assert (Hsettled : forall v : nat,
    (forall l, l ∈ processingSteps s ->
       exists o', heap s !! l = Some o' /\ progress o' == lit v /\
                  completed o' = (v =? 100)%nat) ->
    completed o = true <-> progress o == lit 100%nat).
  { intros v Hall. unfold displayed in Hm. rewrite list_lookup_fmap in Hm.
    destruct (processingSteps s !! m) as [l|] eqn:Hl; [|discriminate].
    injection Hm as <-.
    destruct (Hall l (list_elem_of_lookup_2 _ _ _ Hl)) as (o' & Ho' & Hp & Hc).
    unfold deref. rewrite Ho'. cbn. now rewrite Hp, Hc, lit_inj, Nat.eqb_eq. }
  destruct (currentStep s).
  - destruct Hstep as (_ & (_ & Hidle) & _). apply (Hsettled 0%nat).
    intros l Hl. destruct (Hidle l Hl) as (o' & Ho' & Hp & Hc). now exists o'.
  - destruct Hstep as (_ & s0 & i & j & _ & _ & _ & Hat).
    destruct (displayed_at s0 i j m s o Hat Hm) as (_ & -> & ->).
    now rewrite lit_inj, Nat.eqb_eq.
  - destruct Hstep as (_ & _ & _ & Hfull). apply (Hsettled 100%nat).
    intros l Hl. destruct (Hfull l Hl) as (o' & Ho' & Hp & Hc). now exists o'.
  - destruct Hstep as (_ & _ & _ & Hfull). apply (Hsettled 100%nat).
    intros l Hl. destruct (Hfull l Hl) as (o' & Ho' & Hp & Hc). now exists o'.
Qed.

End Exact.

(** ** The default pipeline on binary64 numbers *)

Module Binary64.

Lemma default_timers : timers64 = concat (replicate 4 stage_timers).
Proof. vm_compute. reflexivity. Qed.

Lemma default_counts :
  count_kind Tick timers64 = 200 /\
  count_kind PauseEnd timers64 = 4 /\
  list_sum (delay <$> timers64) = 200 * tickMs + 4 * pauseMs.
Proof. vm_compute. repeat split. Qed.

Lemma default_boundaries :
  boundaries snapshots64 = [25%float; 50%float; 75%float; 100%float].
Proof. vm_compute. reflexivity. Qed.

Lemma default_nondecreasing :
  nondecreasing (overallProgress <$> snapshots64) = true.
Proof. vm_compute. reflexivity. Qed.

Lemma default_full_only_completed :
  forallb (fun s => implb (neqb (overallProgress s) (lit 100)) (all_completed s))
          snapshots64 = true.
Proof. vm_compute. reflexivity. Qed.

Lemma default_flags :
  forallb flags_agree snapshots64 = true /\
  chain keeps_completed snapshots64 = true.
Proof. vm_compute. split; reflexivity. Qed.

Lemma default_signal :
  (isProcessing <$> snapshots64) = replicate 204 true ++ [false] /\
  (currentStep <$> snapshots64) = replicate 204 processing ++ [preview].
Proof. vm_compute. split; reflexivity. Qed.

(** Where binary64 and the rationals part: with three stages the first two
    boundaries are [(i+1) / 3 * 100] as binary64 computes it, one unit in
    the last place below the binary64 value of [100 * (i+1) / 3]; the
    order of the snapshots is not affected.  With the four stages of the
    component every value is a multiple of 1/2 and nothing is rounded. *)
Lemma thirds_are_rounded :
  boundaries (snapshots 1000 threeStages64)
    = [0x1.0aaaaaaaaaaaap+5%float; 0x1.0aaaaaaaaaaaap+6%float; 100%float] /\
  (100 * 1 / 3 = 0x1.0aaaaaaaaaaabp+5)%float /\
  (100 * 2 / 3 = 0x1.0aaaaaaaaaaabp+6)%float /\
  nondecreasing (overallProgress <$> snapshots 1000 threeStages64) = true.
Proof.
  do 3 (split; [vm_compute; reflexivity|]). vm_compute; reflexivity.
Qed.

End Binary64.

(** ** The progress engine on numbers with an exact stage counter *)

Module Counted.

Section OneRun.
Context {num : Type} `{JSNumber num}.
Hypothesis Hexact : exact_counter (num:=num).
Variable s0 : App num.

Local Abbreviation ls := (processingSteps s0).
Local Abbreviation n := (length (processingSteps s0)).
Local Abbreviation rid := (length (runs s0)).

Hypothesis Hidle : counted_idle s0.
Hypothesis Hn : 0 < n.

Lemma count_next (j : nat) :
  j < 50 ->
  nadd (lit (2 * j)) progressIncrement = lit (2 * (j + 1)) /\
  ngeb (nadd (lit (2 * j)) progressIncrement) (lit 100) = (50 <=? j + 1).
Proof.
  intros Hj.
  destruct (Hexact j ltac:(unfold ticksPerStage; lia)) as (_ & Hnext).
  destruct (Hnext ltac:(unfold ticksPerStage; lia)) as (Hs & Hb).
  split; [exact Hs|]. now rewrite Hs.
Qed.

Lemma full_test (i j m : nat) :
  j <= 50 ->
  neqb (lit (stage_pct i j m)) (lit 100) = (stage_pct i j m =? 100).
Proof.
  intros Hj. unfold stage_pct.
  destruct (m <? i).
  - exact (proj1 (Hexact 50 ltac:(unfold ticksPerStage; lia))).
  - destruct (m =? i).
    + rewrite (proj1 (Hexact j ltac:(unfold ticksPerStage; lia))).
      unfold ticksPerStage.
      destruct (Nat.eqb_spec j 50), (Nat.eqb_spec (2 * j) 100); lia || reflexivity.
    + exact (proj1 (Hexact 0 ltac:(unfold ticksPerStage; lia))).
Qed.

Lemma counted_own_run (s : App num) (r : Run num) :
  runs s = runs s0 ++ [r] -> runs s !! rid = Some r.
Proof. intros ->. now apply list_lookup_middle. Qed.

Lemma counted_stage_unique (m i : nat) (l : nat) :
  ls !! m = Some l -> ls !! i = Some l -> m = i.
Proof.
  destruct Hidle as (Hnd & _). intros Hm Hi.
  exact (NoDup_lookup ls m i l Hnd Hm Hi).
Qed.

Lemma counted_heap_write (i j j' : nat) (h : list (ProcessingStep num))
    (l : nat) (f : ProcessingStep num -> ProcessingStep num) :
  counted_heap s0 i j h -> ls !! i = Some l ->
  (forall o, h !! l = Some o ->
             progress (f o) = lit (2 * j') /\
             completed (f o) = (2 * j' =? 100)) ->
  counted_heap s0 i j' (alter f l h).
Proof.
  intros Hh Hl Hf m l' Hm.
  destruct (Hh m l' Hm) as (o & Ho & Hp & Hc).
  destruct (decide (l' = l)) as [->|Hne].
  - assert (m = i) as -> by (eapply counted_stage_unique; eassumption).
    exists (f o). split; [now rewrite list_lookup_alter_eq, Ho|].
    unfold stage_pct. rewrite Nat.ltb_irrefl, Nat.eqb_refl. now apply Hf.
  - assert (m <> i) by (intros ->; congruence).
    exists o. rewrite list_lookup_alter_ne by congruence.
    split; [exact Ho|]. unfold stage_pct in *.
    destruct (m <? i); [now split|].
    destruct (Nat.eqb_spec m i); [contradiction | now split].
Qed.

Lemma counted_heap_next (i : nat) (h : list (ProcessingStep num)) :
  counted_heap s0 i ticksPerStage h -> counted_heap s0 (i + 1) 0 h.
Proof.
  intros Hh m l Hm. destruct (Hh m l Hm) as (o & Ho & Hp & Hc).
  exists o. split; [exact Ho|].
  replace (stage_pct (i + 1) 0 m) with (stage_pct i ticksPerStage m);
    [now split|].
  unfold stage_pct, ticksPerStage.
  destruct (Nat.ltb_spec m i), (Nat.ltb_spec m (i + 1)),
           (Nat.eqb_spec m i), (Nat.eqb_spec m (i + 1)); lia.
Qed.

Lemma counted_start : CountedAt s0 0 0 (startProcessing s0).
Proof.
  destruct Hidle as (Hnd & Hobj & Hq).
  destruct (lookup_lt_is_Some_2 ls 0 Hn) as [l0 Hl0].
  rewrite startProcessing_unfold, (processStep_stage _ _ _ l0) by exact Hl0.
  assert (Hn0 : (0 =? n) = false) by (apply Nat.eqb_neq; lia).
  split; fields; rewrite ?Hn0; try reflexivity.
  - eexists. split; [apply update_last_run|].
    split; [reflexivity|]. rewrite Hn0. cbn [ticksPerStage Nat.eqb].
    split; [reflexivity|]. now exists l0.
  - unfold overall_shown. now rewrite Hn0.
  - intros m l Hm.
    destruct (Hobj l) as (o & Ho & Hp & Hc).
    { apply list_elem_of_lookup. eauto. }
    exists o. split; [exact Ho|]. unfold stage_pct.
    destruct (Nat.ltb_spec m 0); [lia|].
    destruct (Nat.eqb_spec m 0); cbn; now split.
Qed.

Lemma counted_tick (i j : nat) (s : App num) :
  i < n -> j + 1 < ticksPerStage -> CountedAt s0 i j s ->
  exists s', fire rid s = Some (Tick, s') /\ CountedAt s0 i (j + 1) s'.
Proof.
  unfold ticksPerStage.
  intros Hi Hj [(r & Hr & Hst & Hcl) Hps Hov Hcs Hip Hh].
  assert (Hin : (i =? n) = false) by (apply Nat.eqb_neq; lia).
  assert (Hj50 : (j =? ticksPerStage) = false)
    by (apply Nat.eqb_neq; unfold ticksPerStage; lia).
  assert (Hj50' : (j + 1 =? ticksPerStage) = false)
    by (apply Nat.eqb_neq; unfold ticksPerStage; lia).
  assert (Hj0' : (j + 1 =? 0) = false) by (apply Nat.eqb_neq; lia).
  rewrite Hin in Hcs, Hip.
  rewrite Hin, Hj50 in Hcl. destruct Hcl as (Hidx & l & Hl & Ht).
  destruct (count_next j ltac:(lia)) as (Hs & Hb).
  assert (Hlt : (50 <=? j + 1) = false) by (apply Nat.leb_gt; lia).
  rewrite Hlt in Hb.
  rewrite (fire_lookup rid r s (counted_own_run s r Hr)), Ht.
  rewrite intervalCallback_advances by exact Hb.
  eexists. split; [reflexivity|].
  rewrite Hst, Hidx, Hs.
  split; fields; rewrite ?Hin; try assumption; try reflexivity.
  - eexists. split; [rewrite Hr; apply update_last_run|].
    split; [reflexivity|]. rewrite Hin, Hj50'.
    split; [reflexivity|]. now exists l.
  - unfold overall_shown. now rewrite Hin, Hj50', Hj0'.
  - apply (counted_heap_write i j (j + 1) _ l); [exact Hh | exact Hl |].
    intros o Ho. cbn [assign_progress progress completed].
    split; [reflexivity|].
    destruct (Hh i l Hl) as (o' & Ho' & _ & Hc').
    assert (o' = o) as -> by congruence.
    rewrite Hc'. unfold stage_pct. rewrite Nat.ltb_irrefl, Nat.eqb_refl.
    transitivity false; [|symmetry]; apply Nat.eqb_neq; lia.
Qed.

Lemma counted_tick_completes (i : nat) (s : App num) :
  i < n -> CountedAt s0 i (ticksPerStage - 1) s ->
  exists s', fire rid s = Some (Tick, s') /\ CountedAt s0 i ticksPerStage s'.
Proof.
  unfold ticksPerStage. cbn [Nat.sub].
  intros Hi [(r & Hr & Hst & Hcl) Hps Hov Hcs Hip Hh].
  assert (Hin : (i =? n) = false) by (apply Nat.eqb_neq; lia).
  rewrite Hin in Hcs, Hip.
  rewrite Hin in Hcl. cbn [ticksPerStage Nat.eqb] in Hcl.
  destruct Hcl as (Hidx & l & Hl & Ht).
  destruct (count_next 49 ltac:(lia)) as (Hs & Hb).
  cbn [Nat.add Nat.leb] in Hb.
  rewrite (fire_lookup rid r s (counted_own_run s r Hr)), Ht.
  rewrite intervalCallback_completes by exact Hb.
  eexists. split; [reflexivity|].
  rewrite Hst, Hidx.
  split; fields; rewrite ?Hin; try assumption; try reflexivity.
  - eexists. split; [rewrite Hr; apply update_last_run|].
    split; [reflexivity|]. rewrite Hin. now cbn [ticksPerStage Nat.eqb].
  - unfold overall_shown. now rewrite Hin.
  - rewrite list_alter_alter_eq.
    apply (counted_heap_write i 49 50 _ l); [exact Hh | exact Hl |].
    intros o _. now split.
Qed.

Lemma counted_pause_next (i : nat) (s : App num) :
  i + 1 < n -> CountedAt s0 i ticksPerStage s ->
  exists s', fire rid s = Some (PauseEnd, s') /\ CountedAt s0 (i + 1) 0 s'.
Proof.
  intros Hi [(r & Hr & Hst & Hcl) Hps Hov Hcs Hip Hh].
  assert (Hin : (i =? n) = false) by (apply Nat.eqb_neq; lia).
  assert (Hin' : (i + 1 =? n) = false) by (apply Nat.eqb_neq; lia).
  rewrite Hin in Hcs, Hip.
  rewrite Hin, Nat.eqb_refl in Hcl. destruct Hcl as (Hidx & Ht).
  destruct (lookup_lt_is_Some_2 ls (i + 1) Hi) as [l Hl].
  rewrite (fire_lookup rid r s (counted_own_run s r Hr)), Ht.
  rewrite (processStep_stage _ _ _ l) by (now rewrite Hst, Hidx).
  eexists. split; [reflexivity|].
  rewrite Hst, Hidx.
  split; fields; rewrite ?Hin'; try assumption; try reflexivity.
  - eexists. split; [rewrite Hr; apply update_last_run|].
    split; [reflexivity|]. rewrite Hin'. cbn [ticksPerStage Nat.eqb].
    split; [reflexivity|]. now exists l.
  - rewrite Hov. unfold overall_shown.
    rewrite Hin, Hin', Nat.eqb_refl. cbn [ticksPerStage Nat.eqb].
    rewrite Nat.add_1_r. cbn iota. now rewrite Nat.add_1_r.
  - now apply counted_heap_next.
Qed.

Lemma counted_pause_finishes (i : nat) (s : App num) :
  i + 1 = n -> CountedAt s0 i ticksPerStage s ->
  exists s', fire rid s = Some (PauseEnd, s') /\ CountedAt s0 n 0 s'.
Proof.
  intros Hi [(r & Hr & Hst & Hcl) Hps Hov Hcs Hip Hh].
  assert (Hin : (i =? n) = false) by (apply Nat.eqb_neq; lia).
  rewrite Hin in Hcs, Hip.
  rewrite Hin, Nat.eqb_refl in Hcl. destruct Hcl as (Hidx & Ht).
  rewrite (fire_lookup rid r s (counted_own_run s r Hr)), Ht.
  rewrite processStep_finish by (rewrite Hst, Hidx; lia).
  eexists. split; [reflexivity|].
  rewrite Hst, Hidx, Hi.
  split; fields; rewrite ?Nat.eqb_refl; try assumption; try reflexivity.
  - eexists. split; [rewrite Hr; apply update_last_run|].
    split; [reflexivity|]. now rewrite Nat.eqb_refl.
  - unfold overall_shown. now rewrite Nat.eqb_refl.
  - rewrite <- Hi. now apply counted_heap_next.
Qed.

Lemma counted_silent (s : App num) (rid' : nat) :
  CountedAt s0 n 0 s -> fire rid' s = None.
Proof.
  intros [(r & Hr & Hst & Hcl) _ _ _ _ _].
  rewrite Nat.eqb_refl in Hcl. destruct Hcl as (_ & Ht).
  destruct Hidle as (_ & _ & Hq).
  unfold fire. rewrite Hr.
  destruct ((runs s0 ++ [r]) !! rid') as [r'|] eqn:Hl; [|reflexivity].
  apply list_elem_of_lookup_2, elem_of_app in Hl as [Hin|Hin].
  - now rewrite (Hq r' Hin).
  - apply list_elem_of_singleton in Hin as ->. now rewrite Ht.
Qed.

Lemma counted_step (k : nat) (s : App num) :
  k < period * n -> CountedAt s0 (k / period) (k mod period) s ->
  exists s', fire rid s = Some (kind_at (k mod period), s') /\
             CountedAt s0 ((k + 1) / period) ((k + 1) mod period) s'.
Proof.
  unfold period, ticksPerStage; cbn [Nat.add]. intros Hk Hat.
  pose proof (Nat.div_mod_eq k 51) as Hdm.
  pose proof (Nat.mod_upper_bound k 51 ltac:(lia)) as Hub.
  set (i := k / 51) in *. set (j := k mod 51) in *.
  assert (Hi : i < n) by lia.
  destruct (Nat.lt_ge_cases (j + 1) 50) as [Hj|Hj].
  - assert ((k + 1) / 51 = i /\ (k + 1) mod 51 = j + 1) as [-> ->].
    { split; symmetry;
        [apply (Nat.div_unique _ _ _ (j + 1)) | apply (Nat.mod_unique _ _ i)];
        lia. }
    unfold kind_at, ticksPerStage.
    destruct (Nat.ltb_spec j 50); [|lia].
    now apply counted_tick.
  - destruct (Nat.eq_dec j 49) as [Hj49|Hj49].
    + assert ((k + 1) / 51 = i /\ (k + 1) mod 51 = 50) as [-> ->].
      { split; symmetry;
          [apply (Nat.div_unique _ _ _ 50) | apply (Nat.mod_unique _ _ i)];
          lia. }
      unfold kind_at, ticksPerStage.
      destruct (Nat.ltb_spec j 50); [|lia].
      rewrite Hj49 in Hat. now apply counted_tick_completes.
    + assert (Hj50 : j = 50) by lia.
      assert ((k + 1) / 51 = i + 1 /\ (k + 1) mod 51 = 0) as [-> ->].
      { split; symmetry;
          [apply (Nat.div_unique _ _ _ 0) | apply (Nat.mod_unique _ _ (i + 1))];
          lia. }
      unfold kind_at, ticksPerStage.
      destruct (Nat.ltb_spec j 50); [lia|].
      rewrite Hj50 in Hat.
      destruct (Nat.eq_dec (i + 1) n) as [Hlast|Hmore].
      * rewrite Hlast. now apply (counted_pause_finishes i).
      * apply counted_pause_next; [lia | assumption].
Qed.

Lemma counted_run (k : nat) :
  k <= period * n ->
  exists s, after_timers k rid (startProcessing s0) = Some s /\
            CountedAt s0 (k / period) (k mod period) s.
Proof.
  induction k as [|k IH]; intros Hk.
  - exists (startProcessing s0). split; [reflexivity|].
    change (CountedAt s0 0 0 (startProcessing s0)). apply counted_start.
  - destruct IH as (s & Hs & Hat); [lia|].
    destruct (counted_step k s ltac:(lia) Hat) as (s' & Hf & Hat').
    exists s'. split.
    + rewrite after_timers_succ, Hs. cbn. now rewrite Hf.
    + now rewrite <- Nat.add_1_r.
Qed.

Lemma counted_timeline (fuel : nat) :
  period * n <= fuel ->
  let tr := run_timers fuel rid (startProcessing s0) in
  length tr = period * n /\
  forall k, k < period * n ->
    exists s', tr !! k = Some (kind_at (k mod period), s') /\
               CountedAt s0 ((k + 1) / period) ((k + 1) mod period) s'.
Proof.
  intros Hfuel tr. split.
  - destruct (counted_run (period * n) ltac:(lia)) as (s & Hs & Hat).
    rewrite Nat.mul_comm, Nat.div_mul, Nat.Div0.mod_mul in Hat
      by (unfold period, ticksPerStage; lia).
    rewrite Nat.mul_comm in Hs.
    apply (run_timers_length _ _ _ _ s); [| now apply counted_silent | lia].
    now rewrite Nat.mul_comm.
  - intros k Hk.
    destruct (counted_run k ltac:(lia)) as (s & Hs & Hat).
    destruct (counted_step k s Hk Hat) as (s' & Hf & Hat').
    exists s'. split; [|exact Hat'].
    apply (run_timers_lookup _ _ _ _ s); [assumption..|lia].
Qed.

Variable fuel : nat.
Hypothesis Hfuel : period * n <= fuel.

Lemma counted_snapshot (k : nat) (s : App num) :
  snapshots fuel s0 !! k = Some s ->
  k <= period * n /\ CountedAt s0 (k / period) (k mod period) s.
Proof.
  destruct (counted_timeline fuel Hfuel) as (Hlen & Hall).
  unfold snapshots. destruct k as [|k]; intros Hk.
  - injection Hk as <-. split; [lia|]. apply counted_start.
  - change ((run_timers fuel (length (runs s0)) (startProcessing s0)).*2 !! k
            = Some s) in Hk.
    rewrite list_lookup_fmap in Hk.
    destruct (run_timers fuel (length (runs s0)) (startProcessing s0) !! k)
      as [[κ s']|] eqn:Hl; [|discriminate].
    injection Hk as <-.
    pose proof (lookup_lt_Some _ _ _ Hl) as Hlt. rewrite Hlen in Hlt.
    destruct (Hall k Hlt) as (s'' & Hl' & Hat).
    rewrite Hl in Hl'. injection Hl' as _ <-.
    split; [lia|]. now rewrite <- Nat.add_1_r.
Qed.

Lemma counted_snapshots_length :
  length (snapshots fuel s0) = S (period * n).
Proof.
  destruct (counted_timeline fuel Hfuel) as (Hlen & _).
  unfold snapshots. cbn [length]. now rewrite length_fmap, Hlen.
Qed.

Lemma counted_displayed (i j m : nat) (s : App num) (o : ProcessingStep num) :
  CountedAt s0 i j s -> displayed s !! m = Some o ->
  m < n /\
  progress o = lit (stage_pct i j m) /\
  completed o = (stage_pct i j m =? 100).
Proof.
  intros [_ Hps _ _ _ Hh]. unfold displayed.
  rewrite list_lookup_fmap, Hps. intros Hm.
  destruct (processingSteps s0 !! m) as [l|] eqn:Hl; [|discriminate].
  injection Hm as <-.
  destruct (Hh m l Hl) as (o & Ho & Hp & Hc).
  split; [exact (lookup_lt_Some _ _ _ Hl)|].
  unfold deref. rewrite Ho. now split.
Qed.

Lemma counted_displayed_length (i j : nat) (s : App num) :
  CountedAt s0 i j s -> length (displayed s) = n.
Proof.
  intros [_ Hps _ _ _ _]. unfold displayed. now rewrite length_fmap, Hps.
Qed.

(** When the progress of a stage becomes 100, that snapshot shows the
    stage completed and, as overall progress, what the source computes for
    the stage boundary; the timer that produced it is the 50th tick of the
    stage. *)
Lemma counted_reaches_full (k i : nat) (sp s : App num)
    (op o : ProcessingStep num) :
  snapshots fuel s0 !! k = Some sp -> snapshots fuel s0 !! S k = Some s ->
  displayed sp !! i = Some op -> displayed s !! i = Some o ->
  neqb (progress op) (lit 100) = false ->
  neqb (progress o) (lit 100) = true ->
  completed o = true /\
  overallProgress s = nmul (ndiv (lit (i + 1)) (lit n)) (lit 100) /\
  k = period * i + (ticksPerStage - 1).
Proof.
  intros Hk Hk' Hi Hi' Hbefore Hafter.
  destruct (counted_snapshot k sp Hk) as (_ & Hat).
  destruct (counted_snapshot (S k) s Hk') as (_ & Hat').
  destruct (counted_displayed _ _ i sp op Hat Hi) as (_ & Hp & _).
  destruct (counted_displayed _ _ i s o Hat' Hi') as (Hlt & Hp' & Hc').
  assert (Hub : k mod period <= 50 /\ S k mod period <= 50).
  { unfold period, ticksPerStage. cbn [Nat.add].
    pose proof (Nat.mod_upper_bound k 51 ltac:(lia)).
    pose proof (Nat.mod_upper_bound (S k) 51 ltac:(lia)). lia. }
  rewrite Hp, full_test in Hbefore by apply Hub.
  rewrite Hp', full_test in Hafter by apply Hub.
  apply Nat.eqb_neq in Hbefore. apply Nat.eqb_eq in Hafter.
  destruct Hat' as [_ _ Hov _ _ _].
  assert (Hpos : S k / period = i /\ S k mod period = ticksPerStage).
  { clear Hp Hp' Hc' Hov Hub. unfold period, ticksPerStage in *.
    cbn [Nat.add] in *.
    Exact.position k ik jk. Exact.position (S k) ik' jk'.
    Exact.stage_cases; lia. }
  destruct Hpos as (Hdiv & Hmod).
  split; [|split].
  - rewrite Hc'. now apply Nat.eqb_eq.
  - rewrite Hov, Hdiv, Hmod. unfold overall_shown.
    replace (i =? n) with false by (symmetry; apply Nat.eqb_neq; lia).
    now rewrite Nat.eqb_refl.
  - unfold period, ticksPerStage in *. cbn [Nat.add Nat.sub] in *.
    pose proof (Nat.div_mod_eq (S k) 51). lia.
Qed.

(** Every stage does reach 100: stage [i] on the 50th tick of its turn. *)
Lemma counted_boundary (i : nat) :
  i < n ->
  exists sp s op o,
    snapshots fuel s0 !! (period * i + (ticksPerStage - 1)) = Some sp /\
    snapshots fuel s0 !! S (period * i + (ticksPerStage - 1)) = Some s /\
    displayed sp !! i = Some op /\ displayed s !! i = Some o /\
    completed op = false /\ neqb (progress op) (lit 100) = false /\
    completed o = true /\ progress o = lit 100 /\
    overallProgress s = nmul (ndiv (lit (i + 1)) (lit n)) (lit 100).
Proof.
  intros Hi.
  pose proof counted_snapshots_length as Hlen.
  set (k := period * i + (ticksPerStage - 1)).
  assert (Hk : S k <= period * n)
    by (unfold k, period, ticksPerStage; cbn [Nat.add Nat.sub]; lia).
  destruct (lookup_lt_is_Some_2 (snapshots fuel s0) k ltac:(lia)) as [sp Hsp].
  destruct (lookup_lt_is_Some_2 (snapshots fuel s0) (S k) ltac:(lia))
    as [s Hs].
  destruct (counted_snapshot k sp Hsp) as (_ & Hat).
  destruct (counted_snapshot (S k) s Hs) as (_ & Hat').
  destruct (lookup_lt_is_Some_2 (displayed sp) i) as [op Hop].
  { rewrite (counted_displayed_length _ _ sp Hat). exact Hi. }
  destruct (lookup_lt_is_Some_2 (displayed s) i) as [o Ho].
  { rewrite (counted_displayed_length _ _ s Hat'). exact Hi. }
  destruct (counted_displayed _ _ i sp op Hat Hop) as (_ & Hp & Hc).
  destruct (counted_displayed _ _ i s o Hat' Ho) as (_ & Hp' & Hc').
  assert (Hpos : k / period = i /\ k mod period = ticksPerStage - 1).
  { unfold k, period, ticksPerStage. cbn [Nat.add Nat.sub].
    split; symmetry;
      [apply (Nat.div_unique _ _ _ 49) | apply (Nat.mod_unique _ _ i)]; lia. }
  assert (Hpos' : S k / period = i /\ S k mod period = ticksPerStage).
  { unfold k, period, ticksPerStage. cbn [Nat.add Nat.sub].
    split; symmetry;
      [apply (Nat.div_unique _ _ _ 50) | apply (Nat.mod_unique _ _ i)]; lia. }
  destruct Hpos as (Hd & Hm). destruct Hpos' as (Hd' & Hm').
  rewrite Hd, Hm in Hp, Hc. rewrite Hd', Hm' in Hp', Hc'.
  unfold stage_pct in Hp, Hc, Hp', Hc'.
  rewrite Nat.ltb_irrefl, Nat.eqb_refl in Hp, Hc, Hp', Hc'.
  assert (Hnot : neqb (progress op) (lit 100) = false).
  { rewrite Hp. exact (proj1 (Hexact 49 ltac:(unfold ticksPerStage; lia))). }
  assert (Hfull : neqb (progress o) (lit 100) = true).
  { rewrite Hp'. exact (proj1 (Hexact 50 ltac:(unfold ticksPerStage; lia))). }
  exists sp, s, op, o. repeat split; try assumption.
  exact (proj1 (proj2 (counted_reaches_full k i sp s op o Hsp Hs Hop Ho
                         Hnot Hfull))).
Qed.

End OneRun.

(** Binary64 has an exact stage counter: the even numbers up to 100 and
    the increment [100 / 50 = 2] are represented exactly. *)
Lemma counter_exact64 : exact_counter (num:=float).
Proof.
  intros j Hj. unfold ticksPerStage in *.
  do 51 (destruct j as [|j];
         [split; [vm_compute; reflexivity
                 |intros Hlt; first [lia | split; vm_compute; reflexivity]]|]).
  lia.
Qed.

Lemma stages64_idle (n : nat) : counted_idle (stages64 n).
Proof.
  split; [apply NoDup_seq|]. split.
  - intros l Hl. apply elem_of_seq in Hl.
    exists (mkStep "stage" "" (lit 0) false).
    split; [|now split]. apply lookup_replicate_2. cbn in Hl. lia.
  - intros r Hr. cbn in Hr. now apply elem_of_nil in Hr.
Qed.

Lemma threeStages64_idle : counted_idle threeStages64.
Proof.
  split; [exact (NoDup_seq 0 3)|]. split.
  - intros l Hl. apply (elem_of_seq 0 3) in Hl.
    assert (l = 0 \/ l = 1 \/ l = 2) as [-> | [-> | ->]] by lia;
      (eexists; split; [reflexivity | split; reflexivity]).
  - intros r Hr. cbn in Hr. now apply elem_of_nil in Hr.
Qed.

End Counted.

Lemma counts_by_stage (n : nat) :
  count_kind Tick (concat (replicate n stage_timers)) = ticksPerStage * n /\
  count_kind PauseEnd (concat (replicate n stage_timers)) = n.
Proof.
  unfold count_kind. induction n as [|n [IHt IHp]]; [split; reflexivity|].
  cbn [replicate concat]. rewrite !List.filter_app, !length_app, IHt, IHp.
  change (length (List.filter (same_kind Tick) stage_timers)) with ticksPerStage.
  change (length (List.filter (same_kind PauseEnd) stage_timers)) with 1.
  lia.
Qed.

(** ** The claims *)

(** *** C1 *)

(** C1, as stated, fails: the run is reset while the second stage is at
    88 percent (overall progress 47); the state shown is idle, yet the
    interval of the run is still scheduled, and its next tick shows the
    stages of the abandoned run again, at overall progress 47.5. *)
Lemma reset_leaves_timer_running :
  overallProgress midrun64 = 47%float /\
  isProcessing midrun64 = true /\
  overallProgress (resetProcess midrun64) = 0%float /\
  progress <$> displayed (resetProcess midrun64)
    = [0%float; 0%float; 0%float; 0%float] /\
  completed <$> displayed (resetProcess midrun64)
    = [false; false; false; false] /\
  exists s', fire 0 (resetProcess midrun64) = Some (Tick, s') /\
             overallProgress s' = 47.5%float /\
             progress <$> displayed s' = [100%float; 90%float; 0%float; 0%float] /\
             completed <$> displayed s' = [true; false; false; false].
Proof.
  do 5 (split; [vm_compute; reflexivity|]).
  eexists. split; [vm_compute; reflexivity|].
  do 2 (split; [vm_compute; reflexivity|]). vm_compute; reflexivity.
Qed.

(** C1 (amended): in any state, resetProcess leaves the wizard showing the
    idle snapshot: the upload step, overall progress 0, not processing, and
    for every stage a new object with the same name at progress 0 and not
    completed.  The new objects are appended to the store, at addresses no
    array and no closure from before the call holds, and every object from
    before the call is left as it was.  The reset cancels nothing: the runs
    and the timer each of them has scheduled are exactly those from before
    the call, so a timer fires after the reset if and only if it would have
    fired without it, and a pending tick of a run shows, after the reset,
    the stages and the overall progress it would have shown without it,
    with the wizard in the upload step; nothing fires after a reset made
    while no run had a timer scheduled.  That is the only reset the wizard
    offers: in every state it can get into, the reset button is there only
    when nothing is scheduled. *)
Theorem reset_shows_idle_keeps_timers :
  (forall (num : Type) (N : JSNumber num) (s : App num),
     currentStep (resetProcess s) = upload /\
     isProcessing (resetProcess s) = false /\
     overallProgress (resetProcess s) = lit 0 /\
     displayed (resetProcess s) = cleared <$> displayed s /\
     (forall o, o ∈ displayed (resetProcess s) ->
                progress o = lit 0 /\ completed o = false) /\
     runs (resetProcess s) = runs s /\
     (forall rid, fire rid (resetProcess s) = None <-> fire rid s = None) /\
     (quiet s -> forall rid, fire rid (resetProcess s) = None) /\
     heap (resetProcess s) = heap s ++ (cleared <$> displayed s) /\
     processingSteps (resetProcess s)
       = seq (length (heap s)) (length (processingSteps s)) /\
     (forall l o, heap s !! l = Some o ->
                  heap (resetProcess s) !! l = Some o) /\
     (forall l, l ∈ processingSteps (resetProcess s) ->
                length (heap s) <= l) /\
     (forall rid r l p,
        runs s !! rid = Some r -> timer r = stepInterval l p ->
        Forall (fun a => a < length (heap s)) (steps r) ->
        exists s1 s2,
          fire rid (resetProcess s) = Some (Tick, s1) /\
          fire rid s = Some (Tick, s2) /\
          displayed s1 = displayed s2 /\
          overallProgress s1 = overallProgress s2 /\
          currentStep s1 = upload)) /\
  (forall s s' : App Q,
     reachable s -> handle ClickReset s = Some s' ->
     quiet s /\ s' = resetProcess s /\ forall rid, fire rid s' = None).
Proof.
  split; [|exact Exact.reset_offered_when_quiet].
  intros num N s.
  assert (Hruns : runs (resetProcess s) = runs s) by reflexivity.
  pose proof (reset_displayed s) as Hshown.
  do 3 (split; [reflexivity|]). split; [exact Hshown|].
  split.
  { intros o Ho. rewrite Hshown in Ho.
    apply list_elem_of_fmap in Ho as (o' & -> & _). now split. }
  split; [exact Hruns|]. split.
  { intros rid. now apply fire_none_iff. }
  split.
  { intros Hq rid. apply (fire_none_iff rid s _ Hruns). now apply quiet_silent. }
  split; [apply reset_heap|]. split; [apply reset_addresses|]. split.
  { intros l o Ho. rewrite reset_heap.
    rewrite lookup_app_l by exact (lookup_lt_Some _ _ _ Ho). exact Ho. }
  split.
  { intros l Hl. rewrite reset_addresses in Hl.
    apply elem_of_seq in Hl. lia. }
  intros rid r l p. apply tick_after_reset.
Qed.

(** The reset at the end of a finished conversion: nothing fires after
    it.  The reset in the middle of the second stage: the pending tick
    shows what it would have shown without the reset. *)
Lemma reset_shows_idle_keeps_timers_witness :
  quiet previewing64 /\
  (forall rid, fire rid (resetProcess previewing64) = None) /\
  exists s1 s2,
    fire 0 (resetProcess midrun64) = Some (Tick, s1) /\
    fire 0 midrun64 = Some (Tick, s2) /\
    displayed s1 = displayed s2 /\
    overallProgress s1 = overallProgress s2 /\
    currentStep s1 = upload.
Proof.
  assert (Hq : quiet previewing64).
  { intros r Hr. vm_compute in Hr.
    apply list_elem_of_singleton in Hr. now subst r. }
  split; [exact Hq|]. split.
  - apply (proj1 reset_shows_idle_keeps_timers float _ previewing64). exact Hq.
  - destruct (proj1 reset_shows_idle_keeps_timers float _ midrun64)
      as (_ & _ & _ & _ & _ & _ & _ & _ & _ & _ & _ & _ & Htick).
    assert (Hh : length (heap midrun64) = 4) by (vm_compute; reflexivity).
    apply (Htick 0 (mkRun [0; 1; 2; 3] 1 (stepInterval 1 88%float))
                 1 88%float);
      [vm_compute; reflexivity | reflexivity |].
    rewrite Hh. cbn [steps]. repeat (constructor; [lia|]). constructor.
Defined.

(** *** C2 *)

(** C2, as stated, fails: after 200 ticks and 3 pauses of the default run
    every stage is completed and overall progress is 100, but the run has
    not signalled completion: it is still processing and a 500 ms timeout
    is scheduled; the signal comes when that fourth pause ends. *)
Lemma pause_follows_last_stage :
  after_timers 203 0 started64 = Some lastPause64 /\
  count_kind Tick (take 203 timers64) = 200 /\
  count_kind PauseEnd (take 203 timers64) = 3 /\
  all_completed lastPause64 = true /\
  overallProgress lastPause64 = 100%float /\
  isProcessing lastPause64 = true /\
  currentStep lastPause64 = processing /\
  timer <$> runs lastPause64 !! 0 = Some pauseTimeout /\
  exists s', fire 0 lastPause64 = Some (PauseEnd, s') /\
             isProcessing s' = false /\ currentStep s' = preview.
Proof.
  do 8 (split; [vm_compute; reflexivity|]).
  eexists. split; [vm_compute; reflexivity|].
  split; vm_compute; reflexivity.
Qed.

(** C2 (amended): a run started on n >= 1 idle stages fires, for each
    stage in turn, 50 ticks and then the 500 ms pause, the last stage
    included: 50 n ticks and n pauses, after which nothing is scheduled.
    Stage i shows completed from the 50th tick of its turn on and not
    before, so each of the n stage completions is followed by a pause; the
    pause after the last stage is the one timer that signals completion
    (processing ends, the preview step is entered), and no snapshot before
    it does.  On binary64 numbers the default four stages take 200 ticks
    and 4 pauses, nominally 200 * 80 + 4 * 500 ms. *)
Theorem run_signals_completion_once :
  (forall (s0 : App Q) (fuel : nat),
     ready s0 ->
     0 < length (processingSteps s0) ->
     period * length (processingSteps s0) <= fuel ->
     let n := length (processingSteps s0) in
     let fired := (run_timers fuel (length (runs s0)) (startProcessing s0)).*1 in
     let snaps := snapshots fuel s0 in
     fired = concat (replicate n stage_timers) /\
     count_kind Tick fired = ticksPerStage * n /\
     count_kind PauseEnd fired = n /\
     list_sum (delay <$> fired) = n * (ticksPerStage * tickMs + pauseMs) /\
     length snaps = S (period * n) /\
     (forall k i s o, snaps !! k = Some s -> displayed s !! i = Some o ->
        (completed o = true <-> period * i + ticksPerStage <= k)) /\
     (forall k s, snaps !! k = Some s ->
        (isProcessing s = false <-> k = period * n) /\
        (currentStep s = preview <-> k = period * n)) /\
     (forall s rid, snaps !! (period * n) = Some s -> fire rid s = None)) /\
  (timers64 = concat (replicate 4 stage_timers) /\
   count_kind Tick timers64 = 200 /\
   count_kind PauseEnd timers64 = 4 /\
   list_sum (delay <$> timers64) = 200 * 80 + 4 * 500 /\
   isProcessing <$> snapshots64 = replicate 204 true ++ [false] /\
   currentStep <$> snapshots64 = replicate 204 processing ++ [preview]).
Proof.
  split.
  - intros s0 fuel Hready Hn Hfuel n fired snaps.
    pose proof (Exact.timers_by_stage s0 fuel Hready Hn Hfuel) as Hfired.
    fold n in Hfired. fold fired in Hfired.
    destruct (counts_by_stage n) as (Hticks & Hpauses).
    split; [exact Hfired|]. rewrite Hfired.
    split; [exact Hticks|]. split; [exact Hpauses|].
    split; [apply Exact.duration_by_stage|].
    split; [exact (Exact.snapshots_length s0 fuel Hready Hn Hfuel)|].
    split; [|split].
    + intros k i s o. apply (Exact.completed_from s0 fuel Hready Hn Hfuel).
    + intros k s. apply (Exact.signal_once s0 fuel Hready Hn Hfuel).
    + intros s rid. apply (Exact.silent_after s0 fuel Hready Hn Hfuel).
  - destruct Binary64.default_counts as (Ht & Hp & Hd).
    destruct Binary64.default_signal as (Hi & Hc).
    split; [exact Binary64.default_timers|]. now repeat split.
Qed.

(** The four idle stages of the first render, in exact arithmetic. *)
Lemma run_signals_completion_once_witness :
  ready freshQ /\
  (run_timers 300 0 (startProcessing freshQ)).*1
    = concat (replicate 4 stage_timers) /\
  forall s rid, snapshots 300 freshQ !! 204 = Some s -> fire rid s = None.
Proof.
  split; [exact Exact.fresh_ready|].
  pose proof (proj1 run_signals_completion_once freshQ 300 Exact.fresh_ready
                ltac:(cbn; lia) ltac:(cbn; lia)) as Hrun.
  cbv zeta in Hrun.
  split; [exact (proj1 Hrun)|].
  exact (proj2 (proj2 (proj2 (proj2 (proj2 (proj2 (proj2 Hrun))))))).
Defined.

(** *** C3 *)

(** C3, as stated, fails: with no stage at all startProcessing goes
    straight to the preview step at overall progress 100; called again
    while the first run is ticking it schedules a second interval over the
    same stage objects, and both intervals fire. *)
Lemma start_is_not_rejected :
  currentStep stageless64 = preview /\
  isProcessing stageless64 = false /\
  overallProgress stageless64 = 100%float /\
  isProcessing started64 = true /\
  timer <$> runs doubled64
    = [stepInterval 0 0%float; stepInterval 0 0%float] /\
  exists a b, fire 0 doubled64 = Some (Tick, a) /\
              fire 1 doubled64 = Some (Tick, b).
Proof.
  do 5 (split; [vm_compute; reflexivity|]).
  do 2 eexists. split; vm_compute; reflexivity.
Qed.

(** C3 (amended): startProcessing checks nothing.  With no stage it
    signals completion at once: preview step, overall progress 100, not
    processing, and no timer for the new run.  With at least one stage it
    enters the processing step and schedules the interval of the first
    stage for a new run, whatever the runs before have scheduled: their
    closures and timers stay as they were, so a run still ticking is joined
    by a second one over the same stage objects.  The wizard itself never
    makes such a call: in every state it can get into, the start button is
    there only on four idle stages with no run in flight. *)
Theorem start_has_no_guard :
  (forall (num : Type) (N : JSNumber num) (s : App num),
     (processingSteps s = [] ->
        currentStep (startProcessing s) = preview /\
        isProcessing (startProcessing s) = false /\
        overallProgress (startProcessing s) = lit 100 /\
        runs (startProcessing s) = runs s ++ [mkRun [] 0 noTimer]) /\
     (forall l rest, processingSteps s = l :: rest ->
        currentStep (startProcessing s) = processing /\
        isProcessing (startProcessing s) = true /\
        overallProgress (startProcessing s) = overallProgress s /\
        heap (startProcessing s) = heap s /\
        runs (startProcessing s)
          = runs s ++ [mkRun (l :: rest) 0 (stepInterval l (lit 0))])) /\
  (forall s s' : App Q,
     reachable s -> handle ClickStart s = Some s' ->
     ready s /\ length (processingSteps s) = 4 /\ s' = startProcessing s).
Proof.
  split; [|exact Exact.start_offered_when_ready].
  intros num N s. split.
  - intros Hnone. rewrite startProcessing_unfold, Hnone.
    rewrite processStep_finish by (cbn; lia). fields.
    do 3 (split; [reflexivity|]). apply update_last_run.
  - intros l rest Hsome. rewrite startProcessing_unfold, Hsome.
    rewrite (processStep_stage _ _ _ l) by reflexivity. fields.
    do 4 (split; [reflexivity|]). apply update_last_run.
Qed.

(** A second start while the default run is ticking. *)
Lemma start_has_no_guard_witness :
  processingSteps started64 = [0; 1; 2; 3] /\
  runs (startProcessing started64)
    = runs started64 ++ [mkRun [0; 1; 2; 3] 0 (stepInterval 0 (lit 0))].
Proof.
  split; [reflexivity|].
  apply (proj2 (proj1 start_has_no_guard float _ started64) 0 [1; 2; 3] eq_refl).
Defined.

(** *** C4 *)

(** C4, as stated, fails on the numbers the program computes with: in a
    run over three idle stages the first stage reaches 100 and is marked
    completed in snapshot 50, and overall progress there is (1 / 3) * 100
    as binary64 computes it, 33.33333333333333: a number below 100 / 3,
    and not the binary64 number nearest to 100 / 3 either, which is the one
    that 100 * 1 / 3 gives. *)
Lemma third_boundary_is_rounded :
  counted_idle threeStages64 /\
  exists sp s op o,
    snapshots 1000 threeStages64 !! 49 = Some sp /\
    snapshots 1000 threeStages64 !! 50 = Some s /\
    displayed sp !! 0 = Some op /\ displayed s !! 0 = Some o /\
    neqb (progress op) (lit 100) = false /\
    progress o = 100%float /\ completed o = true /\
    overallProgress s = 0x1.0aaaaaaaaaaaap+5%float /\
    (100 * 1 / 3)%float = 0x1.0aaaaaaaaaaabp+5%float /\
    exists q, exactQ (overallProgress s) = Some q /\
              (q < 100 # 3)%Q /\ ~ (q == 100 # 3)%Q.
Proof.
  split; [exact Counted.threeStages64_idle|].
  do 4 eexists.
  do 4 (split; [vm_compute; reflexivity|]).
  do 5 (split; [vm_compute; reflexivity|]).
  eexists. split; [vm_compute; reflexivity|].
  split; [reflexivity|]. intros Heq. discriminate Heq.
Qed.

(** C4 (amended): in a run over n >= 1 idle stages, whenever a snapshot
    shows the progress of stage i at 100 and the snapshot before did not,
    that snapshot shows the stage completed, it is the one left by the 50th
    tick of the stage, and its overall progress is ((i + 1) / n) * 100 as
    the arithmetic of the program computes it; every stage i < n has such a
    snapshot.  In exact arithmetic that value is the boundary 100 (i + 1) /
    n, for every n.  On binary64 numbers it is the quotient rounded and
    then the product rounded, for every n; for the four stages of the
    default pipeline nothing is rounded, and the four stage completions
    show overall progress 25, 50, 75 and 100. *)
Theorem stage_completion_boundary :
  (forall (s0 : App Q) (fuel : nat),
     ready s0 ->
     0 < length (processingSteps s0) ->
     period * length (processingSteps s0) <= fuel ->
     let n := length (processingSteps s0) in
     let snaps := snapshots fuel s0 in
     (forall k i sp s op o,
        snaps !! k = Some sp -> snaps !! S k = Some s ->
        displayed sp !! i = Some op -> displayed s !! i = Some o ->
        ~ (progress op == lit 100)%Q -> (progress o == lit 100)%Q ->
        completed o = true /\
        (overallProgress s == lit 100 * lit (i + 1) / lit n)%Q /\
        k = period * i + (ticksPerStage - 1)) /\
     (forall i, i < n ->
        exists sp s op o,
          snaps !! (period * i + (ticksPerStage - 1)) = Some sp /\
          snaps !! S (period * i + (ticksPerStage - 1)) = Some s /\
          displayed sp !! i = Some op /\ displayed s !! i = Some o /\
          completed op = false /\ ~ (progress op == lit 100)%Q /\
          completed o = true /\ (progress o == lit 100)%Q /\
          (overallProgress s == lit 100 * lit (i + 1) / lit n)%Q)) /\
  boundaries snapshots64
    = [25%float; 50%float; 75%float; 100%float] /\
  (forall (s0 : App float) (fuel : nat),
     counted_idle s0 ->
     0 < length (processingSteps s0) ->
     period * length (processingSteps s0) <= fuel ->
     let n := length (processingSteps s0) in
     let snaps := snapshots fuel s0 in
     (forall k i sp s op o,
        snaps !! k = Some sp -> snaps !! S k = Some s ->
        displayed sp !! i = Some op -> displayed s !! i = Some o ->
        neqb (progress op) (lit 100) = false ->
        neqb (progress o) (lit 100) = true ->
        completed o = true /\
        overallProgress s = nmul (ndiv (lit (i + 1)) (lit n)) (lit 100) /\
        k = period * i + (ticksPerStage - 1)) /\
     (forall i, i < n ->
        exists sp s op o,
          snaps !! (period * i + (ticksPerStage - 1)) = Some sp /\
          snaps !! S (period * i + (ticksPerStage - 1)) = Some s /\
          displayed sp !! i = Some op /\ displayed s !! i = Some o /\
          completed op = false /\ neqb (progress op) (lit 100) = false /\
          completed o = true /\ progress o = lit 100 /\
          overallProgress s = nmul (ndiv (lit (i + 1)) (lit n)) (lit 100))).
Proof.
  split; [|split; [exact Binary64.default_boundaries|]].
  - intros s0 fuel Hready Hn Hfuel n snaps. split.
    + intros k i sp s op o.
      apply (Exact.stage_reaches_full s0 fuel Hready Hn Hfuel).
    + intros i. apply (Exact.stage_boundary s0 fuel Hready Hn Hfuel).
  - intros s0 fuel Hidle Hn Hfuel n snaps. split.
    + intros k i sp s op o.
      apply (Counted.counted_reaches_full Counted.counter_exact64 s0 Hidle Hn
               fuel Hfuel).
    + intros i.
      apply (Counted.counted_boundary Counted.counter_exact64 s0 Hidle Hn
               fuel Hfuel).
Qed.

(** The third of the four default stages, in exact arithmetic: completed
    at overall progress 100 * 3 / 4; and the third of seven stages, on
    binary64 numbers: completed at overall progress (3 / 7) * 100. *)
Lemma stage_completion_boundary_witness :
  (ready freshQ /\
   exists sp s op o,
     snapshots 204 freshQ !! (period * 2 + (ticksPerStage - 1)) = Some sp /\
     snapshots 204 freshQ !! S (period * 2 + (ticksPerStage - 1)) = Some s /\
     displayed sp !! 2 = Some op /\ displayed s !! 2 = Some o /\
     completed op = false /\ ~ (progress op == lit 100)%Q /\
     completed o = true /\ (progress o == lit 100)%Q /\
     (overallProgress s == lit 100 * lit (2 + 1) / lit 4)%Q) /\
  (counted_idle (stages64 7) /\
   exists sp s op o,
     snapshots 1000 (stages64 7) !! (period * 2 + (ticksPerStage - 1))
       = Some sp /\
     snapshots 1000 (stages64 7) !! S (period * 2 + (ticksPerStage - 1))
       = Some s /\
     displayed sp !! 2 = Some op /\ displayed s !! 2 = Some o /\
     completed op = false /\ neqb (progress op) (lit 100) = false /\
     completed o = true /\ progress o = lit 100 /\
     overallProgress s = (3 / 7 * 100)%float).
Proof.
  split.
  - split; [exact Exact.fresh_ready|].
    apply (proj2 (proj1 stage_completion_boundary freshQ 204 Exact.fresh_ready
                    ltac:(cbn; lia) ltac:(cbn; lia)) 2).
    cbn; lia.
  - split; [exact (Counted.stages64_idle 7)|].
    apply (proj2 (proj2 (proj2 stage_completion_boundary) (stages64 7) 1000
                    (Counted.stages64_idle 7)
                    ltac:(cbn; lia) ltac:(cbn; lia)) 2).
    cbn; lia.
Defined.

(** *** C5 *)

(** C5: over the snapshots of a run on n >= 1 idle stages, from the one
    startProcessing leaves to the one that signals completion, overall
    progress never decreases; a snapshot shows overall progress 100 only if
    every stage it displays is completed; and the last snapshot does show
    100.  The same holds, with the comparisons of binary64, for the default
    pipeline. *)
Theorem overall_progress_monotone :
  (forall (s0 : App Q) (fuel : nat),
     ready s0 ->
     0 < length (processingSteps s0) ->
     period * length (processingSteps s0) <= fuel ->
     let n := length (processingSteps s0) in
     let snaps := snapshots fuel s0 in
     (forall a b sa sb,
        a <= b -> snaps !! a = Some sa -> snaps !! b = Some sb ->
        (overallProgress sa <= overallProgress sb)%Q) /\
     (forall k s o,
        snaps !! k = Some s -> (overallProgress s == lit 100)%Q ->
        o ∈ displayed s -> completed o = true) /\
     (exists s, snaps !! (period * n) = Some s /\
                (overallProgress s == lit 100)%Q /\
                isProcessing s = false /\ currentStep s = preview)) /\
  (nondecreasing (overallProgress <$> snapshots64) = true /\
   forallb (fun s => implb (neqb (overallProgress s) (lit 100)) (all_completed s))
           snapshots64 = true).
Proof.
  split.
  - intros s0 fuel Hready Hn Hfuel n snaps. split; [|split].
    + intros a b sa sb.
      apply (Exact.overall_nondecreasing s0 fuel Hready Hn Hfuel).
    + intros k s o.
      apply (Exact.overall_full_all_completed s0 fuel Hready Hn Hfuel).
    + apply (Exact.overall_reaches_full s0 fuel Hready Hn Hfuel).
  - split; [exact Binary64.default_nondecreasing
           | exact Binary64.default_full_only_completed].
Qed.

(** The four default stages in exact arithmetic: the run ends at 100. *)
Lemma overall_progress_monotone_witness :
  ready freshQ /\
  exists s, snapshots 204 freshQ !! (period * 4) = Some s /\
            (overallProgress s == lit 100)%Q /\
            isProcessing s = false /\ currentStep s = preview.
Proof.
  split; [exact Exact.fresh_ready|].
  apply (proj1 overall_progress_monotone freshQ 204 Exact.fresh_ready
           ltac:(cbn; lia) ltac:(cbn; lia)).
Defined.

(** *** C6 *)

(** C6: in every snapshot of a run on n >= 1 idle stages, each displayed
    stage is completed exactly when its progress is 100, and a stage that
    a snapshot shows completed is shown completed by every later snapshot
    of the run.  The first part holds in every state the wizard can get
    into, between runs as well.  Both hold, with the comparisons of
    binary64, for the default pipeline. *)
Theorem completed_iff_progress_full :
  (forall (s0 : App Q) (fuel : nat),
     ready s0 ->
     0 < length (processingSteps s0) ->
     period * length (processingSteps s0) <= fuel ->
     let snaps := snapshots fuel s0 in
     (forall k s o,
        snaps !! k = Some s -> o ∈ displayed s ->
        (completed o = true <-> (progress o == lit 100)%Q)) /\
     (forall a b i sa sb oa ob,
        a <= b -> snaps !! a = Some sa -> snaps !! b = Some sb ->
        displayed sa !! i = Some oa -> displayed sb !! i = Some ob ->
        completed oa = true -> completed ob = true)) /\
  (forall (s : App Q) o,
     reachable s -> o ∈ displayed s ->
     (completed o = true <-> (progress o == lit 100)%Q)) /\
  (forallb flags_agree snapshots64 = true /\
   chain keeps_completed snapshots64 = true).
Proof.
  split; [|split; [exact Exact.reachable_flags | exact Binary64.default_flags]].
  intros s0 fuel Hready Hn Hfuel snaps. split.
  - intros k s o. apply (Exact.completed_iff_full s0 fuel Hready Hn Hfuel).
  - intros a b i sa sb oa ob.
    apply (Exact.completed_stays s0 fuel Hready Hn Hfuel).
Qed.

(** The snapshot startProcessing leaves on the four default stages, in
    exact arithmetic: no stage is completed and none is at 100. *)
Lemma completed_iff_progress_full_witness :
  ready freshQ /\
  forall o, o ∈ displayed (startProcessing freshQ) ->
            (completed o = true <-> (progress o == lit 100)%Q).
Proof.
  split; [exact Exact.fresh_ready|].
  intros o.
  apply (proj1 (proj1 completed_iff_progress_full freshQ 204 Exact.fresh_ready
                  ltac:(cbn; lia) ltac:(cbn; lia)) 0 (startProcessing freshQ) o).
  reflexivity.
Defined.

(** *** C7, C8, C9: the playback controller in the rendered preview *)

Lemma toggle_keeps_views_in_step_witness :
  is_Some (leftVideoRef previewing64) /\
  is_Some (rightVideoRef previewing64) /\
  in_step (togglePlayback previewing64) /\
  isPlaying (togglePlayback previewing64) = negb (isPlaying previewing64) /\
  exists c, sent_by_toggle previewing64 = [(LeftEye, c); (RightEye, c)].
Proof.
  assert (Hl : is_Some (leftVideoRef previewing64))
    by (exists (mkVideo true); vm_compute; reflexivity).
  assert (Hr : is_Some (rightVideoRef previewing64))
    by (exists (mkVideo true); vm_compute; reflexivity).
  split; [exact Hl|]. split; [exact Hr|].
  exact (proj1 (toggle_keeps_views_in_step previewing64) Hl Hr).
Defined.

Lemma toggle_without_views_is_noop_witness :
  leftVideoRef started64 = None /\
  togglePlayback started64 = started64 /\ sent_by_toggle started64 = [].
Proof.
  split; [reflexivity|].
  apply (proj1 (toggle_without_views_is_noop started64)).
  left. reflexivity.
Defined.

Lemma ended_stops_playing_witness :
  previewRendered (togglePlayback previewing64) = true /\
  isPlaying (togglePlayback previewing64) = true /\
  exists s', dispatch (Ended RightEye) (togglePlayback previewing64) = Some s' /\
             isPlaying s' = false.
Proof.
  split; [vm_compute; reflexivity|]. split; [vm_compute; reflexivity|].
  apply (proj2 (ended_stops_playing RightEye (togglePlayback previewing64))).
  vm_compute; reflexivity.
Defined.

(** ** Further properties: the component as a whole *)

Section Whole.
Context {num : Type} `{JSNumber num}.

Lemma processStep_outside (rid : nat) (r : Run num) (s : App num) :
  same_outside_engine s (processStep rid r s).
Proof.
  unfold processStep.
  destruct (length (steps r) <=? currentStepIndex r);
    [|destruct (steps r !! currentStepIndex r)]; now repeat split.
Qed.

Lemma intervalCallback_outside (rid : nat) (r : Run num) (l : loc) (p : num)
    (s : App num) :
  same_outside_engine s (intervalCallback rid r l p s).
Proof.
  unfold intervalCallback.
  destruct (ngeb (nadd p progressIncrement) (lit 100)); now repeat split.
Qed.

Lemma fire_outside (rid : nat) (s s' : App num) (κ : TimerKind) :
  fire rid s = Some (κ, s') -> same_outside_engine s s'.
Proof.
  unfold fire. destruct (runs s !! rid) as [r|]; [|discriminate].
  destruct (timer r) as [l p| |]; intros [= _ <-];
    [apply intervalCallback_outside | apply processStep_outside].
Qed.

Lemma startProcessing_outside (s : App num) :
  same_outside_engine s (startProcessing s).
Proof.
  rewrite startProcessing_unfold.
  exact (processStep_outside _ _
           (with_runs _ (setIsProcessing true (setCurrentStep processing s)))).
Qed.

Lemma reachable_dispatch_all (es : list Event) (s s' : App num) :
  reachable s -> dispatch_all es s = Some s' -> reachable s'.
Proof.
  revert s. induction es as [|e es IH]; intros s Hreach Hd; cbn in Hd.
  - now injection Hd as <-.
  - destruct (dispatch e s) as [s1|] eqn:He; [|discriminate].
    exact (IH s1 (reachable_dispatch s s1 e Hreach He) Hd).
Qed.

Lemma dispatch_all_app (es es' : list Event) (s : App num) :
  dispatch_all (es ++ es') s = dispatch_all es s ≫= dispatch_all es'.
Proof.
  revert s. induction es as [|e es IH]; intros s; cbn; [reflexivity|].
  destruct (dispatch e s) as [s1|]; [apply IH | reflexivity].
Qed.

End Whole.

(** ** Further properties: what holds of every state, on any numbers *)

Section History.
Context {num : Type} `{JSNumber num}.

(** *** The stage list *)

Lemma well_labelled_alter (f : ProcessingStep num -> ProcessingStep num)
    (l : nat) (h : list (ProcessingStep num)) (ls : list nat) :
  (forall o, label (f o) = label o) ->
  well_labelled h ls -> well_labelled (alter f l h) ls.
Proof.
  intros Hf (Hin & Hl). split; [now rewrite length_alter|].
  rewrite <- Hl. unfold labels_at. apply list_fmap_ext. intros _ l' _.
  unfold deref. destruct (Nat.eq_dec l l') as [<-|Hne].
  - rewrite list_lookup_alter_eq. destruct (h !! l); cbn; [apply Hf | reflexivity].
  - now rewrite list_lookup_alter_ne.
Qed.

Lemma well_labelled_app (h h' : list (ProcessingStep num)) (ls : list nat) :
  well_labelled h ls -> well_labelled (h ++ h') ls.
Proof.
  intros (Hin & Hl). split.
  - eapply Forall_impl; [exact Hin|]. cbn. intros l Hlt. rewrite length_app. lia.
  - rewrite <- Hl. unfold labels_at. apply Forall_fmap_ext.
    eapply Forall_impl; [exact Hin|]. cbn. intros l Hlt.
    unfold deref. now rewrite lookup_app_l.
Qed.

Lemma well_labelled_fresh (h : list (ProcessingStep num)) (ls : list nat) :
  well_labelled h ls ->
  well_labelled (h ++ ((fun l => cleared (deref h l)) <$> ls))
                (seq (length h) (length ((fun l => cleared (deref h l)) <$> ls))).
Proof.
  intros (_ & Hl). rewrite length_fmap. split.
  - apply Forall_forall. intros l Hl'. apply elem_of_seq in Hl'.
    rewrite length_app, length_fmap. lia.
  - rewrite <- Hl. unfold labels_at. apply list_eq. intros m.
    rewrite !list_lookup_fmap.
    destruct (ls !! m) as [l|] eqn:Hm.
    + rewrite (lookup_seq_lt _ _ _ (lookup_lt_Some _ _ _ Hm)). cbn.
      unfold deref at 1. rewrite lookup_app_r by lia.
      replace (length h + m - length h) with m by lia.
      now rewrite list_lookup_fmap, Hm.
    + rewrite lookup_seq_ge; [reflexivity|].
      now apply lookup_ge_None.
Qed.

Lemma stages_kept_same (s s' : App num) :
  heap s' = heap s -> processingSteps s' = processingSteps s ->
  runs s' = runs s -> stages_kept s -> stages_kept s'.
Proof. unfold stages_kept. intros -> -> ->. tauto. Qed.

Lemma stages_kept_update (rid : nat) (r r' : Run num) (s : App num) :
  runs s !! rid = Some r -> steps r' = steps r ->
  stages_kept s -> stages_kept (update_run rid r' s).
Proof.
  intros Hr Hst (Hshown & Hruns). split; [exact Hshown|].
  intros r0 Hr0. cbn in Hr0.
  apply list_elem_of_lookup in Hr0 as (k & Hk).
  destruct (Nat.eq_dec rid k) as [<-|Hne].
  - rewrite list_lookup_insert_eq in Hk by exact (lookup_lt_Some _ _ _ Hr).
    injection Hk as <-. cbn. rewrite Hst.
    exact (Hruns r (list_elem_of_lookup_2 _ _ _ Hr)).
  - rewrite list_lookup_insert_ne in Hk by exact Hne.
    exact (Hruns r0 (list_elem_of_lookup_2 _ _ _ Hk)).
Qed.

Lemma stages_kept_write (l : nat) (f : ProcessingStep num -> ProcessingStep num)
    (s : App num) :
  (forall o, label (f o) = label o) ->
  stages_kept s -> stages_kept (write l f s).
Proof.
  intros Hf (Hshown & Hruns). split; cbn.
  - now apply well_labelled_alter.
  - intros r Hr. apply well_labelled_alter; [exact Hf | now apply Hruns].
Qed.

Lemma stages_kept_steps (r : Run num) (s : App num) :
  r ∈ runs s -> stages_kept s -> stages_kept (setProcessingSteps (steps r) s).
Proof. intros Hr (_ & Hruns). split; [exact (Hruns r Hr) | exact Hruns]. Qed.

Lemma stages_kept_interval (rid : nat) (r : Run num) (l : nat) (p : num)
    (s : App num) :
  runs s !! rid = Some r ->
  stages_kept s -> stages_kept (intervalCallback rid r l p s).
Proof.
  intros Hr Hkept. unfold intervalCallback.
  pose proof (list_elem_of_lookup_2 _ _ _ Hr) as Hin.
  destruct (ngeb (nadd p progressIncrement) (lit 100)).
  - apply (stages_kept_update rid r); [exact Hr | reflexivity|].
    apply (stages_kept_same
             (setProcessingSteps (steps r)
                (write l (assign_completed true)
                   (write l (assign_progress (lit 100)) s))));
      try reflexivity.
    apply stages_kept_steps; [exact Hin|].
    apply stages_kept_write; [reflexivity|].
    now apply stages_kept_write.
  - apply (stages_kept_update rid r); [exact Hr | reflexivity|].
    apply (stages_kept_same
             (setProcessingSteps (steps r)
                (write l (assign_progress (nadd p progressIncrement)) s)));
      try reflexivity.
    apply stages_kept_steps; [exact Hin|].
    now apply stages_kept_write.
Qed.

Lemma stages_kept_processStep (rid : nat) (r : Run num) (s : App num) :
  runs s !! rid = Some r ->
  stages_kept s -> stages_kept (processStep rid r s).
Proof.
  intros Hr Hkept. unfold processStep.
  destruct (length (steps r) <=? currentStepIndex r).
  - apply (stages_kept_update rid r); [exact Hr | reflexivity|].
    now apply (stages_kept_same s).
  - destruct (steps r !! currentStepIndex r); [|exact Hkept].
    now apply (stages_kept_update rid r).
Qed.

Lemma stages_kept_fire (rid : nat) (s s' : App num) (κ : TimerKind) :
  fire rid s = Some (κ, s') -> stages_kept s -> stages_kept s'.
Proof.
  unfold fire. destruct (runs s !! rid) as [r|] eqn:Hr; [|discriminate].
  destruct (timer r) as [l p| |]; intros [= _ <-] Hkept;
    [now apply stages_kept_interval | now apply stages_kept_processStep].
Qed.

Lemma stages_kept_start (s : App num) :
  stages_kept s -> stages_kept (startProcessing s).
Proof.
  intros (Hshown & Hruns). rewrite startProcessing_unfold.
  apply stages_kept_processStep.
  - cbn. now apply list_lookup_middle.
  - split; [exact Hshown|]. cbn. intros r Hr.
    apply elem_of_app in Hr as [Hr|Hr]; [now apply Hruns|].
    apply list_elem_of_singleton in Hr as ->. exact Hshown.
Qed.

Lemma stages_kept_reset (s : App num) :
  stages_kept s -> stages_kept (resetProcess s).
Proof.
  intros (Hshown & Hruns). split.
  - exact (well_labelled_fresh (heap s) (processingSteps s) Hshown).
  - intros r Hr. apply well_labelled_app. now apply Hruns.
Qed.

Lemma stages_kept_toggle (s : App num) :
  stages_kept s -> stages_kept (togglePlayback s).
Proof.
  unfold togglePlayback.
  destruct (leftVideoRef s), (rightVideoRef s), (isPlaying s);
    intros Hkept; exact Hkept.
Qed.

Lemma stages_kept_handle (e : Event) (s s' : App num) :
  handle e s = Some s' -> stages_kept s -> stages_kept s'.
Proof.
  intros He Hkept. destruct e as [f| | | | | |v|rid]; cbn [handle] in He.
  - destruct (currentStep s), (uploadedVideo s); try discriminate.
    injection He as <-. exact Hkept.
  - destruct (currentStep s), (uploadedVideo s); try discriminate.
    injection He as <-. exact Hkept.
  - destruct (currentStep s), (uploadedVideo s); try discriminate.
    injection He as <-. now apply stages_kept_start.
  - destruct (previewRendered s); [|discriminate].
    injection He as <-. now apply stages_kept_toggle.
  - destruct (previewRendered s); [|discriminate].
    injection He as <-. exact Hkept.
  - assert (s' = resetProcess s) as ->
      by (destruct (currentStep s), (previewRendered s);
          try discriminate; now injection He).
    now apply stages_kept_reset.
  - destruct (previewRendered s); [|discriminate].
    injection He as <-. now destruct v.
  - destruct (fire rid s) as [[κ s'']|] eqn:Hf; [|discriminate].
    injection He as <-. exact (stages_kept_fire rid s s'' κ Hf Hkept).
Qed.

Lemma reachable_stages_kept (s : App num) : reachable s -> stages_kept s.
Proof.
  induction 1 as [|s s' e _ IH Hd].
  - split.
    + split; [|reflexivity].
      apply Forall_forall. intros l Hl. apply elem_of_seq in Hl. cbn in *. lia.
    + intros r Hr. cbn in Hr. now apply elem_of_nil in Hr.
  - unfold dispatch in Hd.
    destruct (handle e s) as [s''|] eqn:He; [|discriminate].
    injection Hd as <-.
    apply (stages_kept_same s''); try (unfold commit;
      now destruct (previewRendered s'')).
    exact (stages_kept_handle e s s'' He IH).
Qed.

(** *** What the handlers leave alone *)

Lemma toggle_issued (s : App num) :
  issued (togglePlayback s) = issued s \/
  exists c, issued (togglePlayback s) = issued s ++ [(LeftEye, c); (RightEye, c)].
Proof.
  unfold togglePlayback.
  destruct (leftVideoRef s), (rightVideoRef s); try (now left).
  destruct (isPlaying s); right; eexists; reflexivity.
Qed.

Lemma handle_issued (e : Event) (s s' : App num) :
  handle e s = Some s' ->
  issued s' = issued s \/
  exists c, issued s' = issued s ++ [(LeftEye, c); (RightEye, c)].
Proof.
  intros He. destruct e as [f| | | | | |v|rid]; cbn [handle] in He.
  - destruct (currentStep s), (uploadedVideo s); try discriminate.
    injection He as <-. now left.
  - destruct (currentStep s), (uploadedVideo s); try discriminate.
    injection He as <-. now left.
  - destruct (currentStep s), (uploadedVideo s); try discriminate.
    injection He as <-. left.
    exact (proj1 (proj2 (proj2 (proj2 (proj2 (startProcessing_outside s)))))).
  - destruct (previewRendered s); [|discriminate].
    injection He as <-. apply toggle_issued.
  - destruct (previewRendered s); [|discriminate].
    injection He as <-. now left.
  - assert (s' = resetProcess s) as ->
      by (destruct (currentStep s), (previewRendered s);
          try discriminate; now injection He).
    now left.
  - destruct (previewRendered s); [|discriminate].
    injection He as <-. left. now destruct v.
  - destruct (fire rid s) as [[κ s'']|] eqn:Hf; [|discriminate].
    injection He as <-. left.
    exact (proj1 (proj2 (proj2 (proj2 (proj2 (fire_outside rid s s'' κ Hf)))))).
Qed.


Lemma commit_history (s : App num) :
  issued (commit s) = issued s /\ downloads (commit s) = downloads s.
Proof. unfold commit. now destruct (previewRendered s). Qed.

Lemma toBothViews_snoc (cs : list MediaCommand) (c : MediaCommand) :
  toBothViews (cs ++ [c]) = toBothViews cs ++ [(LeftEye, c); (RightEye, c)].
Proof. unfold toBothViews. now rewrite flat_map_app. Qed.

End History.

(** ** Further properties: the wizard on exact rationals *)

Module Wizard.

Import Exact.

Local Open Scope Q_scope.

Local Abbreviation lit := (@lit Q Q_JSNumber).
Local Abbreviation State := (App Q).

(** *** Where a reachable state stands *)

Lemma At_videos (s0 s : State) (i j : nat) (a b : option HTMLVideoElement) :
  At s0 i j s -> At s0 i j (with_videos a b s).
Proof. intros [Hr Hps Hov Hcs Hip Hh Hrest]. now split. Qed.

Lemma At_commit (s0 s : State) (i j : nat) :
  At s0 i j s -> At s0 i j (commit s).
Proof. unfold commit. destruct (previewRendered s); apply At_videos. Qed.

Lemma At_shows (s0 s : State) (i j : nat) :
  At s0 i j s -> shows (length (processingSteps s0)) i j s.
Proof.
  intros Hat. split; [exact (displayed_length s0 i j s Hat)|].
  split; [exact (at_overall _ _ _ _ Hat)|].
  intros m o Hm. exact (proj2 (displayed_at s0 i j m s o Hat Hm)).
Qed.

(** A timer that fires in a state of the wizard is the timer of the run in
    flight, and moves it one position on. *)
Lemma timer_position (s s' : State) (rid : nat) (κ : TimerKind) :
  wizard_inv s -> fire rid s = Some (κ, s') ->
  currentStep s = processing /\
  exists s0 i j i' j',
    ready s0 /\ length (processingSteps s0) = 4%nat /\
    rid = length (runs s0) /\
    (i < 4)%nat /\ (j <= ticksPerStage)%nat /\ At s0 i j s /\
    At s0 i' j' s' /\ on_timeline 4 i' j'.
Proof.
  intros (Hlen & Hinv) Hf.
  destruct (currentStep s) eqn:Hcs.
  - destruct Hinv as (_ & _ & Hq). now rewrite (quiet_silent rid s Hq) in Hf.
  - split; [reflexivity|].
    destruct Hinv as (Hup & s0 & i & j & Hready & Hi & Hj & Hat).
    destruct (Nat.eq_dec rid (length (runs s0))) as [->|Hne];
      [|now rewrite (in_flight_others s0 s i j rid Hready Hat Hne) in Hf].
    destruct (in_flight_step s0 s i j Hready Hi Hj Hat)
      as (κ' & s'' & i' & j' & Hf' & Hat' & Hpos).
    rewrite Hf in Hf'. injection Hf' as _ <-.
    assert (Hfour : length (processingSteps s0) = 4%nat)
      by (now rewrite <- (at_steps _ _ _ _ Hat)).
    exists s0, i, j, i', j'. rewrite Hfour in Hi, Hpos.
    repeat (split; [first [assumption | reflexivity]|]). exact Hpos.
  - destruct Hinv as (_ & Hq & _). now rewrite (quiet_silent rid s Hq) in Hf.
  - destruct Hinv as (_ & Hq & _). now rewrite (quiet_silent rid s Hq) in Hf.
Qed.


Lemma settled_handle (s s' : State) (e : Event) :
  wizard_inv s -> settled s -> handle e s = Some s' -> settled s'.
Proof.
  intros Hinv Hset He. unfold settled in *.
  destruct e as [f| | | | | |v|rid]; cbn [handle] in He.
  - destruct (currentStep s) eqn:Hcs; try discriminate.
    destruct (uploadedVideo s); [discriminate|]. injection He as <-.
    unfold handleVideoUpload. fields. now rewrite Hcs.
  - destruct (currentStep s) eqn:Hcs; try discriminate.
    destruct (uploadedVideo s); [|discriminate]. injection He as <-.
    fields. now rewrite Hcs.
  - destruct (currentStep s) eqn:Hcs; try discriminate.
    destruct (uploadedVideo s); [|discriminate]. injection He as <-.
    destruct Hinv as (Hlen & Hready). rewrite Hcs in Hready.
    rewrite (at_step _ _ _ _ (start_at s Hready ltac:(lia))), Hlen. exact I.
  - unfold previewRendered in He.
    destruct (currentStep s) eqn:Hcs; try discriminate.
    destruct (uploadedVideo s); [|discriminate]. injection He as <-.
    destruct (toggle_same s) as (Hc & _). rewrite Hc, Hcs.
    unfold togglePlayback.
    destruct (leftVideoRef s), (rightVideoRef s), (isPlaying s); exact Hset.
  - unfold previewRendered in He.
    destruct (currentStep s) eqn:Hcs; try discriminate.
    destruct (uploadedVideo s); [|discriminate]. injection He as <-.
    exact Hset.
  - assert (s' = resetProcess s) as ->.
    { unfold previewRendered in He.
      destruct (currentStep s); try discriminate;
        [destruct (uploadedVideo s); [|discriminate]|]; now injection He. }
    reflexivity.
  - unfold previewRendered in He.
    destruct (currentStep s) eqn:Hcs; try discriminate.
    destruct (uploadedVideo s); [|discriminate]. injection He as <-.
    destruct v; cbn; rewrite Hcs; exact Hset.
  - destruct (fire rid s) as [[κ s'']|] eqn:Hf; [|discriminate].
    injection He as <-.
    destruct (timer_position s s'' rid κ Hinv Hf)
      as (_ & s0 & i & j & i' & j' & _ & Hfour & _ & _ & _ & _ & Hat' & Hpos).
    rewrite (at_step _ _ _ _ Hat'), Hfour.
    destruct Hpos as [(Hi' & _)|(-> & ->)].
    + now replace (i' =? 4)%nat with false by (symmetry; apply Nat.eqb_neq; lia).
    + cbn [Nat.eqb]. split.
      * now rewrite (at_processing _ _ _ _ Hat'), Hfour.
      * rewrite (at_overall _ _ _ _ Hat'), Hfour. reflexivity.
Qed.

Lemma settled_commit (s : State) : settled s -> settled (commit s).
Proof. unfold settled, commit. now destruct (previewRendered s). Qed.

Lemma reachable_settled (s : State) : reachable s -> settled s.
Proof.
  induction 1 as [|s s' e Hreach IH Hd]; [reflexivity|].
  unfold dispatch in Hd.
  destruct (handle e s) as [s''|] eqn:He; [|discriminate].
  injection Hd as <-. apply settled_commit.
  exact (settled_handle s s'' e (reachable_inv s Hreach) IH He).
Qed.

(** Every state the wizard can get into shows a position of the timeline
    of its four stages: the start in the upload step, a position before the
    end while processing, the end from the preview on. *)
Lemma reachable_position (s : State) :
  reachable s ->
  exists i j,
    on_timeline 4 i j /\ shows 4 i j s /\
    match currentStep s with
    | upload => i = 0%nat /\ j = 0%nat
    | processing => (i < 4)%nat
    | preview | download => i = 4%nat
    end.
Proof.
  intros Hreach.
  pose proof (reachable_settled s Hreach) as Hset.
  destruct (reachable_inv s Hreach) as (Hlen & Hstep).
  unfold settled in Hset.
  assert (Hdl : length (displayed s) = 4%nat)
    by (unfold displayed; now rewrite length_fmap).
  assert (Hrows : forall (v : nat) m o,
    (forall l, l ∈ processingSteps s ->
       exists o', heap s !! l = Some o' /\ progress o' == lit v /\
                  completed o' = (v =? 100)%nat) ->
    displayed s !! m = Some o ->
    (m < 4)%nat /\ progress o == lit v /\ completed o = (v =? 100)%nat).
  { intros v m o Hall Hm.
    split; [rewrite <- Hdl; exact (lookup_lt_Some _ _ _ Hm)|].
    unfold displayed in Hm. rewrite list_lookup_fmap in Hm.
    destruct (processingSteps s !! m) as [l|] eqn:Hl; [|discriminate].
    injection Hm as <-.
    destruct (Hall l (list_elem_of_lookup_2 _ _ _ Hl)) as (o' & Ho' & Hp & Hc).
    unfold deref. rewrite Ho'. now split. }
  destruct (currentStep s).
  - exists 0%nat, 0%nat. split; [left; unfold ticksPerStage; lia|].
    split; [|now split].
    destruct Hstep as (_ & (Hov & Hidle) & _).
    split; [exact Hdl|]. split; [now rewrite Hov|].
    intros m o Hm.
    destruct (Hrows 0%nat m o) as (_ & Hp & Hc); [|exact Hm|].
    { intros l Hl. destruct (Hidle l Hl) as (o' & Ho' & Hp & Hc). now exists o'. }
    unfold stage_pct. destruct (Nat.ltb_spec m 0); [lia|].
    destruct (Nat.eqb_spec m 0); now split.
  - destruct Hstep as (_ & s0 & i & j & _ & Hi & Hj & Hat).
    pose proof (At_shows s0 s i j Hat) as Hsh.
    assert (Hfour : length (processingSteps s0) = 4%nat)
      by (now rewrite <- (at_steps _ _ _ _ Hat)).
    rewrite Hfour in Hsh, Hi.
    exists i, j. split; [now left|]. now split.
  - exists 4%nat, 0%nat. split; [now right|]. split; [|reflexivity].
    destruct Hstep as (_ & _ & _ & Hfull). destruct Hset as (_ & Hov).
    split; [exact Hdl|]. split; [now rewrite Hov|].
    intros m o Hm.
    destruct (Hrows 100%nat m o) as (Hlt & Hp & Hc); [|exact Hm|].
    { intros l Hl. destruct (Hfull l Hl) as (o' & Ho' & Hp & Hc). now exists o'. }
    unfold stage_pct. destruct (Nat.ltb_spec m 4); [now split | lia].
  - exists 4%nat, 0%nat. split; [now right|]. split; [|reflexivity].
    destruct Hstep as (_ & _ & _ & Hfull). destruct Hset as (_ & Hov).
    split; [exact Hdl|]. split; [now rewrite Hov|].
    intros m o Hm.
    destruct (Hrows 100%nat m o) as (Hlt & Hp & Hc); [|exact Hm|].
    { intros l Hl. destruct (Hfull l Hl) as (o' & Ho' & Hp & Hc). now exists o'. }
    unfold stage_pct. destruct (Nat.ltb_spec m 4); [now split | lia].
Qed.

(** The snapshots of a run on any number of stages stand on its timeline. *)
Lemma snapshot_shows (s0 : State) (fuel k : nat) (s : State) :
  ready s0 -> (0 < length (processingSteps s0))%nat ->
  (period * length (processingSteps s0) <= fuel)%nat ->
  snapshots fuel s0 !! k = Some s ->
  on_timeline (length (processingSteps s0)) (k / period) (k mod period) /\
  shows (length (processingSteps s0)) (k / period) (k mod period) s.
Proof.
  intros Hready Hn Hfuel Hk.
  destruct (snapshot_at s0 fuel Hready Hn Hfuel k s Hk) as (Hle & Hat).
  split; [|exact (At_shows s0 s _ _ Hat)].
  unfold on_timeline, ticksPerStage. change period with 51%nat in *.
  pose proof (Nat.div_mod_eq k 51) as Hdm.
  pose proof (Nat.mod_upper_bound k 51 ltac:(lia)) as Hm.
  lia.
Qed.

(** *** What a position shows *)

Lemma shows_frontier (n i j : nat) (s : State) : shows n i j s -> frontier i s.
Proof.
  intros (_ & _ & Hrows) m o Hm. destruct (Hrows m o Hm) as (Hp & Hc).
  unfold stage_pct in Hp, Hc. split; intros Hlt.
  - destruct (Nat.ltb_spec m i); [now split | lia].
  - destruct (Nat.ltb_spec m i); [lia|].
    destruct (Nat.eqb_spec m i); [lia | now split].
Qed.

Lemma stage_pct_le (n i j m : nat) :
  on_timeline n i j -> (stage_pct i j m <= 100)%nat.
Proof.
  unfold on_timeline, ticksPerStage, stage_pct. intros Hpos.
  destruct (m <? i)%nat; [lia|]. destruct (m =? i)%nat; lia.
Qed.

Lemma lit_gt_0 (n : nat) : (0 < n)%nat -> 0 < lit n.
Proof.
  intros Hn. unfold lit; simpl. change 0 with (inject_Z 0).
  rewrite <- Zlt_Qlt. lia.
Qed.

Lemma share_of_whole (a n : nat) :
  (0 < n)%nat -> (a <= 100 * n)%nat ->
  lit 0%nat <= lit a / lit n /\ lit a / lit n <= lit 100%nat.
Proof.
  intros Hn Ha.
  assert (Hpos : 0 < lit n) by (apply lit_gt_0; exact Hn).
  split.
  - apply Qle_shift_div_l; [exact Hpos|].
    change (lit 0%nat) with 0. rewrite Qmult_0_l.
    change 0 with (lit 0%nat). apply lit_le. lia.
  - apply Qle_shift_div_r; [exact Hpos|].
    rewrite <- lit_mul. apply lit_le. exact Ha.
Qed.

Lemma shows_bounds (n i j : nat) (s : State) :
  (0 < n)%nat -> on_timeline n i j -> shows n i j s ->
  (lit 0%nat <= overallProgress s /\ overallProgress s <= lit 100%nat) /\
  forall o, o ∈ displayed s ->
    lit 0%nat <= progress o /\ progress o <= lit 100%nat.
Proof.
  intros Hn Hpos (_ & Hov & Hrows). split.
  - rewrite Hov. apply share_of_whole; [exact Hn|].
    unfold on_timeline, ticksPerStage in Hpos. lia.
  - intros o Ho. apply list_elem_of_lookup in Ho as (m & Hm).
    destruct (Hrows m o Hm) as (Hp & _). rewrite Hp.
    split; apply lit_le; [lia | exact (stage_pct_le n i j m Hpos)].
Qed.

(** The stage progresses add up to what the position says. *)
Lemma total_rows (f : nat -> nat) (l : list (ProcessingStep Q)) (off : nat) :
  (forall m o, l !! m = Some o -> progress o == lit (f (off + m)%nat)) ->
  total (progress <$> l) == lit (sum_from f off (length l)).
Proof.
  revert off. induction l as [|o l IH]; intros off Hrows; [reflexivity|].
  rewrite fmap_cons. cbn [total foldr length sum_from].
  rewrite lit_add, (Hrows 0%nat o eq_refl), Nat.add_0_r.
  apply Qplus_comp; [reflexivity|]. apply IH.
  intros m o' Hm. rewrite (Hrows (S m) o' Hm).
  now replace (off + S m)%nat with (S off + m)%nat by lia.
Qed.

Lemma sum_stage_pct (i j off len : nat) :
  sum_from (stage_pct i j) off len
  = (100 * (Nat.min i (off + len) - Nat.min i off)
     + if (off <=? i)%nat && (i <? off + len)%nat then 2 * j else 0)%nat.
Proof.
  revert off. induction len as [|len IH]; intros off; cbn [sum_from].
  - destruct (Nat.leb_spec off i), (Nat.ltb_spec i (off + 0)); cbn; lia.
  - rewrite IH. unfold stage_pct.
    destruct (Nat.ltb_spec off i); destruct (Nat.eqb_spec off i); try lia;
      destruct (Nat.leb_spec (S off) i); try lia;
      destruct (Nat.leb_spec off i); try lia;
      destruct (Nat.ltb_spec i (S off + len)); try lia;
      destruct (Nat.ltb_spec i (off + S len)); cbn; lia.
Qed.

Lemma shows_mean (n i j : nat) (s : State) :
  (0 < n)%nat -> on_timeline n i j -> shows n i j s ->
  overallProgress s * lit n == total (progress <$> displayed s).
Proof.
  intros Hn Hpos (Hlen & Hov & Hrows).
  rewrite (total_rows (stage_pct i j) (displayed s) 0), Hlen, sum_stage_pct.
  - rewrite Hov.
    replace (100 * (Nat.min i (0 + n) - Nat.min i 0)
             + (if (0 <=? i)%nat && (i <? 0 + n)%nat then 2 * j else 0))%nat
      with (100 * i + 2 * j)%nat.
    + field. apply lit_pos. exact Hn.
    + unfold on_timeline in Hpos.
      destruct (Nat.leb_spec 0 i), (Nat.ltb_spec i (0 + n)); cbn; lia.
  - intros m o Hm. exact (proj1 (Hrows m o Hm)).
Qed.

(** The icons of the stage rows. *)
Lemma dots_after (i j off : nat) (l : list (ProcessingStep Q)) :
  (i < off)%nat ->
  (forall m o, l !! m = Some o ->
     progress o == lit (stage_pct i j (off + m)) /\
     completed o = (stage_pct i j (off + m) =? 100)%nat) ->
  forallb (fun x => match x with DotIcon => true | _ => false end)
          (stageIcon <$> l) = true.
Proof.
  intros Hlt Hrows. apply forallb_forall. intros x Hx.
  apply list_elem_of_In, list_elem_of_fmap in Hx as (o & -> & Ho).
  apply list_elem_of_lookup in Ho as (m & Hm).
  destruct (Hrows m o Hm) as (Hp & Hc). unfold stage_pct in Hp, Hc.
  destruct (Nat.ltb_spec (off + m) i); [lia|].
  destruct (Nat.eqb_spec (off + m) i); [lia|].
  unfold stageIcon. rewrite Hc. cbn [Nat.eqb].
  replace (ngtb (progress o) (lit 0%nat)) with false; [reflexivity|].
  symmetry. apply negb_false_iff, Qle_bool_iff. rewrite Hp. apply Qle_refl.
Qed.

Lemma icons_rows (i j off : nat) (l : list (ProcessingStep Q)) :
  (forall m o, l !! m = Some o ->
     progress o == lit (stage_pct i j (off + m)) /\
     completed o = (stage_pct i j (off + m) =? 100)%nat) ->
  iconsInOrder (stageIcon <$> l) = true.
Proof.
  revert off. induction l as [|o l IH]; intros off Hrows; [reflexivity|].
  assert (Hrest : forall m o', l !! m = Some o' ->
     progress o' == lit (stage_pct i j (S off + m)) /\
     completed o' = (stage_pct i j (S off + m) =? 100)%nat).
  { intros m o' Hm.
    replace (S off + m)%nat with (off + S m)%nat by lia. now apply Hrows. }
  rewrite fmap_cons. destruct (Hrows 0%nat o eq_refl) as (_ & Hc).
  rewrite Nat.add_0_r in Hc.
  assert (Hdots : completed o = false ->
    forallb (fun x => match x with DotIcon => true | _ => false end)
            (stageIcon <$> l) = true).
  { intros Hno. apply (dots_after i j (S off)); [|exact Hrest].
    rewrite Hno in Hc. unfold stage_pct in Hc.
    destruct (Nat.ltb_spec off i); [discriminate | lia]. }
  unfold stageIcon at 1. destruct (completed o).
  - cbn [iconsInOrder]. exact (IH (S off) Hrest).
  - destruct (ngtb (progress o) (lit 0%nat)); cbn [iconsInOrder]; now apply Hdots.
Qed.

Lemma shows_icons (n i j : nat) (s : State) :
  shows n i j s -> iconsInOrder (stageIcon <$> displayed s) = true.
Proof. intros (_ & _ & Hrows). exact (icons_rows i j 0 (displayed s) Hrows). Qed.

(** [Math.round] of the numbers a position shows. *)
Lemma roundQ_share (a n : nat) :
  (0 < n)%nat ->
  roundQ (lit a / lit n)
  = ((2 * Z.of_nat a + Z.of_nat n) / (2 * Z.of_nat n))%Z.
Proof.
  intros Hn. unfold roundQ. rewrite Zdiv_Qdiv. apply Qfloor_comp.
  unfold lit; simpl. rewrite inject_Z_plus, !inject_Z_mult.
  assert (Hnz : ~ inject_Z (Z.of_nat n) == 0).
  { change 0 with (inject_Z 0). rewrite inject_Z_injective. lia. }
  field. exact Hnz.
Qed.

Lemma roundQ_lit (v : nat) : roundQ (lit v) = Z.of_nat v.
Proof.
  assert (Hv : lit v == lit v / lit 1%nat) by (unfold lit; simpl; field).
  unfold roundQ. rewrite Hv. fold (roundQ (lit v / lit 1%nat)).
  rewrite roundQ_share by lia.
  change (2 * Z.of_nat 1)%Z with 2%Z. change (Z.of_nat 1) with 1%Z.
  Z.div_mod_to_equations. lia.
Qed.

Lemma shows_readout (n i j : nat) (s : State) :
  (0 < n)%nat -> shows n i j s ->
  overallReadout s
    = Some ((2 * Z.of_nat (100 * i + 2 * j) + Z.of_nat n) / (2 * Z.of_nat n))%Z /\
  forall m o, displayed s !! m = Some o ->
    stageReadout o = Some (Z.of_nat (stage_pct i j m)).
Proof.
  intros Hn (_ & Hov & Hrows). unfold overallReadout, stageReadout, mathRound.
  cbn [Q_JSView]. split.
  - f_equal. unfold roundQ. rewrite Hov. now apply roundQ_share.
  - intros m o Hm. destruct (Hrows m o Hm) as (Hp & _).
    f_equal. unfold roundQ. rewrite Hp. apply roundQ_lit.
Qed.

(** Along the timeline no stage goes back. *)
Lemma stage_pct_mono (a b m : nat) :
  (a <= b)%nat ->
  (stage_pct (a / period) (a mod period) m
   <= stage_pct (b / period) (b mod period) m)%nat.
Proof.
  intros Hab. unfold stage_pct. change period with 51%nat.
  pose proof (Nat.div_mod_eq a 51). pose proof (Nat.div_mod_eq b 51).
  pose proof (Nat.mod_upper_bound a 51 ltac:(lia)).
  pose proof (Nat.mod_upper_bound b 51 ltac:(lia)).
  destruct (Nat.ltb_spec m (a / 51)), (Nat.ltb_spec m (b / 51)),
    (Nat.eqb_spec m (a / 51)), (Nat.eqb_spec m (b / 51)); lia.
Qed.

(** *** A conversion through the user interface *)

(** The timers of a run, delivered as events: the refs stay empty until
    the last one opens the preview, which mounts two paused videos. *)
Lemma timers_dispatch (s0 s : State) (k : nat) :
  ready s0 -> (0 < length (processingSteps s0))%nat ->
  uploadedVideo s0 <> None ->
  At s0 0 0 s -> leftVideoRef s = None -> rightVideoRef s = None ->
  (k <= period * length (processingSteps s0))%nat ->
  exists s',
    dispatch_all (replicate k (TimerFires (length (runs s0)))) s = Some s' /\
    At s0 (k / period) (k mod period) s' /\
    if (k <? period * length (processingSteps s0))%nat
    then leftVideoRef s' = None /\ rightVideoRef s' = None
    else leftVideoRef s' = Some (mkVideo true) /\
         rightVideoRef s' = Some (mkVideo true).
Proof.
  intros Hready Hn Hup Hat Hl Hr. induction k as [|k IH]; intros Hk.
  - exists s. split; [reflexivity|]. split; [exact Hat|].
    destruct (Nat.ltb_spec 0 (period * length (processingSteps s0)));
      [now split|]. change period with 51%nat in *. lia.
  - destruct IH as (sk & Hrun & Hatk & Hrefs); [lia|].
    destruct (Nat.ltb_spec k (period * length (processingSteps s0)));
      [|lia]. destruct Hrefs as (Hlk & Hrk).
    destruct (step_at s0 Hready Hn k sk ltac:(lia) Hatk) as (s'' & Hf & Hat').
    destruct (fire_outside _ _ _ _ Hf) as (_ & _ & Hl'' & Hr'' & _).
    exists (commit s''). split; [|split].
    + rewrite replicate_S_end, dispatch_all_app, Hrun. cbn.
      unfold dispatch. cbn [handle]. now rewrite Hf.
    + replace (S k) with (k + 1)%nat by lia. now apply At_commit.
    + replace (S k) with (k + 1)%nat in * by lia.
      unfold commit, previewRendered.
      rewrite (at_step _ _ _ _ Hat'), (proj1 (at_rest _ _ _ _ Hat')).
      rewrite Hl'', Hr'', Hlk, Hrk.
      change period with 51%nat in *.
      pose proof (Nat.div_mod_eq (k + 1) 51) as Hdm.
      pose proof (Nat.mod_upper_bound (k + 1) 51 ltac:(lia)) as Hm.
      destruct (Nat.ltb_spec (k + 1) (51 * length (processingSteps s0))).
      * replace ((k + 1) / 51 =? length (processingSteps s0))%nat with false
          by (symmetry; apply Nat.eqb_neq; lia).
        now split.
      * replace ((k + 1) / 51 =? length (processingSteps s0))%nat with true
          by (symmetry; apply Nat.eqb_eq; lia).
        destruct (uploadedVideo s0); [now split | contradiction].
Qed.

(** From the upload step with no file chosen, the events of one
    conversion are all accepted and end in the preview of the chosen file,
    with two paused videos mounted; what was played and downloaded before
    is left as it was. *)
Lemma conversion_run (s : State) (f : VideoFile.t) :
  reachable s -> currentStep s = upload -> uploadedVideo s = None ->
  exists s',
    dispatch_all (conversion f (length (runs s))) s = Some s' /\
    currentStep s' = preview /\ uploadedVideo s' = Some f /\
    isPlaying s' = isPlaying s /\
    leftVideoRef s' = Some (mkVideo true) /\
    rightVideoRef s' = Some (mkVideo true) /\
    issued s' = issued s /\ downloads s' = downloads s.
Proof.
  intros Hreach Hcs Hup.
  destruct (reachable_inv s Hreach) as (Hlen & Hready). rewrite Hcs in Hready.
  set (s1 := commit (handleVideoUpload f s)).
  assert (Hd1 : dispatch (SelectFile f) s = Some s1)
    by (unfold dispatch; cbn [handle]; now rewrite Hcs, Hup).
  assert (Hs1 : s1 = with_videos None None (handleVideoUpload f s))
    by (unfold s1, commit, previewRendered; cbn; now rewrite Hcs).
  assert (Hready1 : ready s1) by (rewrite Hs1; now apply (ready_same s)).
  assert (Hlen1 : length (processingSteps s1) = 4%nat) by (now rewrite Hs1).
  assert (Hup1 : uploadedVideo s1 = Some f) by (now rewrite Hs1).
  assert (Hruns1 : length (runs s1) = length (runs s)) by (now rewrite Hs1).
  pose proof (start_at s1 Hready1 ltac:(lia)) as Hat.
  set (s2 := commit (startProcessing s1)).
  assert (Hd2 : dispatch ClickStart s1 = Some s2).
  { unfold dispatch. cbn [handle]. rewrite Hup1.
    replace (currentStep s1) with upload by (now rewrite Hs1, <- Hcs).
    reflexivity. }
  assert (Hs2 : s2 = with_videos None None (startProcessing s1)).
  { unfold s2, commit, previewRendered.
    now rewrite (at_step _ _ _ _ Hat), Hlen1. }
  destruct (timers_dispatch s1 s2 (period * 4))
    as (s' & Hrun & Hat' & Hrefs);
    try (rewrite Hs2; reflexivity); try (rewrite Hlen1; lia);
    [exact Hready1 | now rewrite Hup1 | now apply At_commit|].
  rewrite Hlen1, Nat.ltb_irrefl in Hrefs. destruct Hrefs as (Hl' & Hr').
  rewrite Hruns1 in Hrun.
  exists s'. split.
  { unfold conversion. cbn [dispatch_all]. now rewrite Hd1, Hd2. }
  destruct (at_rest _ _ _ _ Hat') as (Hu' & Hp' & Hi' & Hdl').
  rewrite (at_step _ _ _ _ Hat'), Hlen1.
  repeat split; try assumption.
  - now rewrite Hu'.
  - now rewrite Hp', Hs1.
  - now rewrite Hi', Hs1.
  - now rewrite Hdl', Hs1.
Qed.

End Wizard.

(** ** Further properties: sample states the wizard gets into *)

Lemma reachable_previewing64 : reachable previewing64.
Proof.
  apply (reachable_dispatch_all
           (SelectFile clip :: ClickStart :: replicate 204 (TimerFires 0))
           fresh64); [apply reachable_initial | vm_compute; reflexivity].
Qed.

Lemma reachable_playingQ : reachable playingQ.
Proof.
  apply (reachable_dispatch_all (conversion clip 0 ++ [ClickToggle]) freshQ);
    [apply reachable_initial | vm_compute; reflexivity].
Qed.

Lemma reachable_downloadedQ : reachable downloadedQ.
Proof.
  apply (reachable_dispatch_all
           (conversion clip 0 ++ [ClickToggle; ClickDownload]) freshQ);
    [apply reachable_initial | vm_compute; reflexivity].
Qed.

Lemma reachable_lastTickQ : reachable lastTickQ.
Proof.
  apply (reachable_dispatch_all
           (SelectFile clip :: ClickStart
              :: replicate (period * 3 + 49) (TimerFires 0)) freshQ);
    [apply reachable_initial | vm_compute; reflexivity].
Qed.

(** ** Further properties: the stages and the overall progress *)

(** X1: the stages are worked off one at a time.  In every snapshot of a
    run on n >= 1 idle stages, and in every state the wizard can get into,
    there is a stage index such that every stage before it is completed at
    progress 100 and every stage after it has progress 0 and is not
    completed; in snapshot k of a run that index is k div 51. *)
Theorem one_stage_at_a_time :
  (forall (s0 : App Q) (fuel k : nat) (s : App Q),
     ready s0 ->
     0 < length (processingSteps s0) ->
     period * length (processingSteps s0) <= fuel ->
     snapshots fuel s0 !! k = Some s ->
     k / period <= length (processingSteps s0) /\ frontier (k / period) s) /\
  (forall s : App Q, reachable s -> exists i, i <= 4 /\ frontier i s).
Proof.
  split.
  - intros s0 fuel k s Hready Hn Hfuel Hk.
    destruct (Wizard.snapshot_shows s0 fuel k s Hready Hn Hfuel Hk)
      as (Hpos & Hsh).
    split; [unfold on_timeline in Hpos; lia|].
    exact (Wizard.shows_frontier _ _ _ s Hsh).
  - intros s Hreach.
    destruct (Wizard.reachable_position s Hreach) as (i & j & Hpos & Hsh & _).
    exists i. split; [unfold on_timeline in Hpos; lia|].
    exact (Wizard.shows_frontier _ _ _ s Hsh).
Qed.

(** One tick before the end of the conversion of the sample clip. *)
Lemma one_stage_at_a_time_witness :
  reachable lastTickQ /\ exists i, i <= 4 /\ frontier i lastTickQ.
Proof.
  split; [exact reachable_lastTickQ|].
  exact (proj2 one_stage_at_a_time lastTickQ reachable_lastTickQ).
Defined.

(** X2: progress stays within 0 and 100.  In every snapshot of a run on
    n >= 1 idle stages, and in every state the wizard can get into, the
    overall progress and the progress of every displayed stage lie between
    0 and 100. *)
Theorem progress_stays_within_bounds :
  (forall (s0 : App Q) (fuel k : nat) (s : App Q),
     ready s0 ->
     0 < length (processingSteps s0) ->
     period * length (processingSteps s0) <= fuel ->
     snapshots fuel s0 !! k = Some s ->
     (0 <= overallProgress s /\ overallProgress s <= 100)%Q /\
     forall o, o ∈ displayed s -> (0 <= progress o /\ progress o <= 100)%Q) /\
  (forall s : App Q,
     reachable s ->
     (0 <= overallProgress s /\ overallProgress s <= 100)%Q /\
     forall o, o ∈ displayed s -> (0 <= progress o /\ progress o <= 100)%Q).
Proof.
  split.
  - intros s0 fuel k s Hready Hn Hfuel Hk.
    destruct (Wizard.snapshot_shows s0 fuel k s Hready Hn Hfuel Hk)
      as (Hpos & Hsh).
    exact (Wizard.shows_bounds _ _ _ s Hn Hpos Hsh).
  - intros s Hreach.
    destruct (Wizard.reachable_position s Hreach) as (i & j & Hpos & Hsh & _).
    exact (Wizard.shows_bounds 4 i j s ltac:(lia) Hpos Hsh).
Qed.

Lemma progress_stays_within_bounds_witness :
  reachable lastTickQ /\
  (0 <= overallProgress lastTickQ /\ overallProgress lastTickQ <= 100)%Q.
Proof.
  split; [exact reachable_lastTickQ|].
  exact (proj1 (proj2 progress_stays_within_bounds lastTickQ
                  reachable_lastTickQ)).
Defined.

(** X3: overall progress is the mean of the stage progresses.  In every
    snapshot of a run on n >= 1 idle stages, overall progress times n is
    the sum of the progresses of the displayed stages; in every state the
    wizard can get into, overall progress times 4 is that sum. *)
Theorem overall_is_mean_of_stages :
  (forall (s0 : App Q) (fuel k : nat) (s : App Q),
     ready s0 ->
     0 < length (processingSteps s0) ->
     period * length (processingSteps s0) <= fuel ->
     snapshots fuel s0 !! k = Some s ->
     (overallProgress s * lit (length (processingSteps s0))
      == total (progress <$> displayed s))%Q) /\
  (forall s : App Q,
     reachable s ->
     (overallProgress s * 4 == total (progress <$> displayed s))%Q).
Proof.
  split.
  - intros s0 fuel k s Hready Hn Hfuel Hk.
    destruct (Wizard.snapshot_shows s0 fuel k s Hready Hn Hfuel Hk)
      as (Hpos & Hsh).
    exact (Wizard.shows_mean _ _ _ s Hn Hpos Hsh).
  - intros s Hreach.
    destruct (Wizard.reachable_position s Hreach) as (i & j & Hpos & Hsh & _).
    exact (Wizard.shows_mean 4 i j s ltac:(lia) Hpos Hsh).
Qed.

Lemma overall_is_mean_of_stages_witness :
  reachable lastTickQ /\
  (overallProgress lastTickQ * 4
   == total (progress <$> displayed lastTickQ))%Q.
Proof.
  split; [exact reachable_lastTickQ|].
  exact (proj2 overall_is_mean_of_stages lastTickQ reachable_lastTickQ).
Defined.

(** X4: no stage goes back during a run.  Over the snapshots of a run on
    n >= 1 idle stages, the progress a stage shows in a snapshot is at
    most the progress it shows in any later snapshot. *)
Theorem stage_progress_nondecreasing
    (s0 : App Q) (fuel a b m : nat) (sa sb : App Q)
    (oa ob : ProcessingStep Q) :
  ready s0 ->
  0 < length (processingSteps s0) ->
  period * length (processingSteps s0) <= fuel ->
  a <= b ->
  snapshots fuel s0 !! a = Some sa -> snapshots fuel s0 !! b = Some sb ->
  displayed sa !! m = Some oa -> displayed sb !! m = Some ob ->
  (progress oa <= progress ob)%Q.
Proof.
  intros Hready Hn Hfuel Hab Ha Hb Hoa Hob.
  destruct (Wizard.snapshot_shows s0 fuel a sa Hready Hn Hfuel Ha)
    as (_ & _ & _ & Hra).
  destruct (Wizard.snapshot_shows s0 fuel b sb Hready Hn Hfuel Hb)
    as (_ & _ & _ & Hrb).
  rewrite (proj1 (Hra m oa Hoa)), (proj1 (Hrb m ob Hob)).
  apply Exact.lit_le. now apply Wizard.stage_pct_mono.
Qed.

(** The first stage of the four default stages, 10 and 60 timers into the
    run. *)
Lemma stage_progress_nondecreasing_witness :
  exists sa sb oa ob,
    snapshots 204 freshQ !! 10 = Some sa /\
    snapshots 204 freshQ !! 60 = Some sb /\
    displayed sa !! 0 = Some oa /\ displayed sb !! 0 = Some ob /\
    (progress oa <= progress ob)%Q.
Proof.
  do 4 eexists.
  split; [vm_compute; reflexivity|]. split; [vm_compute; reflexivity|].
  split; [vm_compute; reflexivity|]. split; [vm_compute; reflexivity|].
  eapply (stage_progress_nondecreasing freshQ 204 10 60 0);
    [exact Exact.fresh_ready | cbn; lia | cbn; lia | lia
    | vm_compute; reflexivity ..].
Defined.

(** ** Further properties: what the processing view renders *)

(** X5: the icons of the stage rows come in order.  In every snapshot of
    a run on n >= 1 idle stages, and in every state the wizard can get
    into, the rows show check marks first, then at most one spinner, then
    dots only. *)
Theorem stage_icons_in_order :
  (forall (s0 : App Q) (fuel k : nat) (s : App Q),
     ready s0 ->
     0 < length (processingSteps s0) ->
     period * length (processingSteps s0) <= fuel ->
     snapshots fuel s0 !! k = Some s ->
     iconsInOrder (stageIcon <$> displayed s) = true) /\
  (forall s : App Q,
     reachable s -> iconsInOrder (stageIcon <$> displayed s) = true).
Proof.
  split.
  - intros s0 fuel k s Hready Hn Hfuel Hk.
    destruct (Wizard.snapshot_shows s0 fuel k s Hready Hn Hfuel Hk)
      as (_ & Hsh).
    exact (Wizard.shows_icons _ _ _ s Hsh).
  - intros s Hreach.
    destruct (Wizard.reachable_position s Hreach) as (i & j & _ & Hsh & _).
    exact (Wizard.shows_icons 4 i j s Hsh).
Qed.

Lemma stage_icons_in_order_witness :
  reachable lastTickQ /\
  iconsInOrder (stageIcon <$> displayed lastTickQ) = true.
Proof.
  split; [exact reachable_lastTickQ|].
  exact (proj2 stage_icons_in_order lastTickQ reachable_lastTickQ).
Defined.

(** X6: the percentages on display.  In snapshot k of a run on n >= 1
    idle stages the overall readout, Math.round of overall progress, is
    (2 p + n) div (2 n) for p = 100 (k div 51) + 2 (k mod 51).  In every
    state the wizard can get into, at position (i, j) of the timeline, the
    overall readout is 25 i + (j + 1) div 2 and the readout of every stage
    is its progress, an integer.  So the overall readout reaches the value
    of a stage boundary one tick before the stage completes: there is a
    state in the processing step that reads 100 overall while the last
    stage reads 98 and is not completed. *)
Theorem overall_readout_runs_ahead :
  (forall (s0 : App Q) (fuel k : nat) (s : App Q),
     ready s0 ->
     0 < length (processingSteps s0) ->
     period * length (processingSteps s0) <= fuel ->
     snapshots fuel s0 !! k = Some s ->
     overallReadout s
     = Some ((2 * Z.of_nat (pct k) + Z.of_nat (length (processingSteps s0)))
             / (2 * Z.of_nat (length (processingSteps s0))))%Z) /\
  (forall s : App Q,
     reachable s ->
     exists i j,
       on_timeline 4 i j /\ shows 4 i j s /\
       overallReadout s = Some (25 * Z.of_nat i + (Z.of_nat j + 1) / 2)%Z /\
       forall m o, displayed s !! m = Some o ->
                   stageReadout o = Some (Z.of_nat (stage_pct i j m))) /\
  (exists s : App Q,
     reachable s /\ currentStep s = processing /\
     overallReadout s = Some 100%Z /\
     stageReadout <$> displayed s = [Some 100; Some 100; Some 100; Some 98]%Z /\
     completed <$> displayed s = [true; true; true; false]).
Proof.
  split; [|split].
  - intros s0 fuel k s Hready Hn Hfuel Hk.
    destruct (Wizard.snapshot_shows s0 fuel k s Hready Hn Hfuel Hk)
      as (_ & Hsh).
    exact (proj1 (Wizard.shows_readout _ _ _ s Hn Hsh)).
  - intros s Hreach.
    destruct (Wizard.reachable_position s Hreach) as (i & j & Hpos & Hsh & _).
    destruct (Wizard.shows_readout 4 i j s ltac:(lia) Hsh) as (Hov & Hst).
    exists i, j. split; [exact Hpos|]. split; [exact Hsh|].
    split; [|exact Hst]. rewrite Hov. f_equal.
    change (2 * Z.of_nat 4)%Z with 8%Z. change (Z.of_nat 4) with 4%Z.
    Z.div_mod_to_equations. lia.
  - exists lastTickQ. split; [exact reachable_lastTickQ|].
    do 3 (split; [vm_compute; reflexivity|]). vm_compute; reflexivity.
Qed.

Lemma overall_readout_runs_ahead_witness :
  reachable lastTickQ /\
  exists i j,
    on_timeline 4 i j /\ shows 4 i j lastTickQ /\
    overallReadout lastTickQ = Some (25 * Z.of_nat i + (Z.of_nat j + 1) / 2)%Z /\
    forall m o, displayed lastTickQ !! m = Some o ->
                stageReadout o = Some (Z.of_nat (stage_pct i j m)).
Proof.
  split; [exact reachable_lastTickQ|].
  exact (proj1 (proj2 overall_readout_runs_ahead) lastTickQ
           reachable_lastTickQ).
Defined.

(** ** Further properties: the wizard around the engine *)

Lemma commit_currentStep {num : Type} (s : App num) :
  currentStep (commit s) = currentStep s.
Proof. unfold commit. now destruct (previewRendered s). Qed.

(** X7: the state cells agree with the wizard step.  In every state the
    wizard can get into: isProcessing is true exactly in the processing
    step; a file is held in every step but upload, so the preview step
    always renders its two videos; in the processing step exactly one run
    has a timer scheduled; in every other step no timer is scheduled at
    all. *)
Theorem wizard_state_consistent (s : App Q) :
  reachable s ->
  (isProcessing s = true <-> currentStep s = processing) /\
  (uploadedVideo s = None -> currentStep s = upload) /\
  (previewRendered s = true <-> currentStep s = preview) /\
  (currentStep s = processing ->
     exists rid, is_Some (fire rid s) /\
                 forall rid', rid' <> rid -> fire rid' s = None) /\
  (currentStep s <> processing -> forall rid, fire rid s = None).
Proof.
  intros Hreach.
  pose proof (Wizard.reachable_settled s Hreach) as Hset.
  destruct (Exact.reachable_inv s Hreach) as (_ & Hstep).
  unfold settled, previewRendered in *.
  destruct (currentStep s) eqn:Hcs.
  - destruct Hstep as (_ & _ & Hq).
    split; [rewrite Hset; split; discriminate|].
    split; [reflexivity|]. split; [split; discriminate|].
    split; [discriminate|]. intros _ rid. now apply quiet_silent.
  - destruct Hstep as (Hup & s0 & i & j & Hready & Hi & Hj & Hat).
    split; [split; [reflexivity|]; intros _|].
    { rewrite (at_processing _ _ _ _ Hat).
      apply negb_true_iff, Nat.eqb_neq. lia. }
    split; [intros Hno; contradiction|]. split; [split; discriminate|].
    split; [|intros Hne; contradiction]. intros _.
    destruct (Exact.in_flight_step s0 s i j Hready Hi Hj Hat)
      as (κ & s' & _ & _ & Hf & _).
    exists (length (runs s0)). split; [now rewrite Hf|].
    intros rid' Hne. exact (Exact.in_flight_others s0 s i j rid' Hready Hat Hne).
  - destruct Hstep as (Hup & Hq & _). destruct Hset as (Hip & _).
    split; [rewrite Hip; split; discriminate|].
    split; [intros Hno; contradiction|].
    split; [destruct (uploadedVideo s); [now split | contradiction]|].
    split; [discriminate|]. intros _ rid. now apply quiet_silent.
  - destruct Hstep as (Hup & Hq & _). destruct Hset as (Hip & _).
    split; [rewrite Hip; split; discriminate|].
    split; [intros Hno; contradiction|]. split; [split; discriminate|].
    split; [discriminate|]. intros _ rid. now apply quiet_silent.
Qed.

Lemma wizard_state_consistent_witness :
  reachable lastTickQ /\
  exists rid, is_Some (fire rid lastTickQ) /\
              forall rid', rid' <> rid -> fire rid' lastTickQ = None.
Proof.
  split; [exact reachable_lastTickQ|].
  apply (wizard_state_consistent lastTickQ reachable_lastTickQ).
  vm_compute; reflexivity.
Defined.

(** X8: the routes between the wizard steps.  An event accepted in a state
    the wizard can get into is one of these: in the upload step, a file
    chosen or dropped again (the step stays) or the start button (to
    processing); in the processing step, nothing but a timer of the run (the
    step stays, or the preview opens); in the preview step, play or pause
    and the end of a video (the step stays), the download button (to
    download) and the reset button (to upload); in the download step, the
    reset button only (to upload). *)
Theorem wizard_routing (s s' : App Q) (e : Event) :
  reachable s -> dispatch e s = Some s' ->
  match currentStep s, e with
  | upload, SelectFile _ => currentStep s' = upload
  | upload, ClickChooseDifferent => currentStep s' = upload
  | upload, ClickStart => currentStep s' = processing
  | processing, TimerFires _ =>
      currentStep s' = processing \/ currentStep s' = preview
  | preview, ClickToggle => currentStep s' = preview
  | preview, Ended _ => currentStep s' = preview
  | preview, ClickDownload => currentStep s' = download
  | preview, ClickReset => currentStep s' = upload
  | download, ClickReset => currentStep s' = upload
  | _, _ => False
  end.
Proof.
  intros Hreach Hd. unfold dispatch in Hd.
  destruct (handle e s) as [s''|] eqn:He; [|discriminate].
  injection Hd as <-. rewrite commit_currentStep.
  pose proof (Exact.reachable_inv s Hreach) as Hinv.
  destruct e as [f| | | | | |v|rid]; cbn [handle] in He.
  - destruct (currentStep s) eqn:Hcs; try discriminate.
    destruct (uploadedVideo s); [discriminate|]. injection He as <-.
    exact Hcs.
  - destruct (currentStep s) eqn:Hcs; try discriminate.
    destruct (uploadedVideo s); [|discriminate]. injection He as <-.
    exact Hcs.
  - destruct (currentStep s) eqn:Hcs; try discriminate.
    destruct (uploadedVideo s); [|discriminate]. injection He as <-.
    destruct Hinv as (Hlen & Hready). rewrite Hcs in Hready.
    now rewrite (at_step _ _ _ _ (Exact.start_at s Hready ltac:(lia))), Hlen.
  - unfold previewRendered in He.
    destruct (currentStep s) eqn:Hcs; try discriminate.
    destruct (uploadedVideo s); [|discriminate]. injection He as <-.
    now rewrite (proj1 (Exact.toggle_same s)).
  - unfold previewRendered in He.
    destruct (currentStep s) eqn:Hcs; try discriminate.
    destruct (uploadedVideo s); [|discriminate]. injection He as <-.
    reflexivity.
  - unfold previewRendered in He.
    destruct (currentStep s) eqn:Hcs; try discriminate;
      [destruct (uploadedVideo s); [|discriminate]|];
      injection He as <-; reflexivity.
  - unfold previewRendered in He.
    destruct (currentStep s) eqn:Hcs; try discriminate.
    destruct (uploadedVideo s); [|discriminate]. injection He as <-.
    destruct v; exact Hcs.
  - destruct (fire rid s) as [[κ s0']|] eqn:Hf; [|discriminate].
    injection He as <-.
    destruct (Wizard.timer_position s s0' rid κ Hinv Hf)
      as (-> & s0 & i & j & i' & j' & _ & Hfour & _ & _ & _ & _ & Hat' & _).
    rewrite (at_step _ _ _ _ Hat').
    destruct (i' =? length (processingSteps s0)); [now right | now left].
Qed.

(** The download button, pressed in the preview of the sample clip. *)
Lemma wizard_routing_witness :
  reachable playingQ /\
  dispatch ClickDownload playingQ = Some downloadedQ /\
  currentStep downloadedQ = download.
Proof.
  assert (Hd : dispatch ClickDownload playingQ = Some downloadedQ)
    by (vm_compute; reflexivity).
  split; [exact reachable_playingQ|]. split; [exact Hd|].
  exact (wizard_routing playingQ downloadedQ ClickDownload
           reachable_playingQ Hd).
Defined.

Lemma downloadName_stem (f : VideoFile.t) :
  downloadName (Some f)
  = (upToFirst "." (VideoFile.name f) ++ "_VR180.mp4")%string.
Proof. unfold downloadName; simpl. now rewrite split_head. Qed.

Lemma reset_from_shown (s : App Q) :
  reachable s -> currentStep s = preview \/ currentStep s = download ->
  dispatch ClickReset s = Some (with_videos None None (resetProcess s)).
Proof.
  intros Hreach Hstep.
  destruct (Exact.reachable_inv s Hreach) as (_ & Hinv).
  unfold dispatch. cbn [handle]. unfold previewRendered.
  destruct Hstep as [Hcs|Hcs]; rewrite Hcs in *; [|reflexivity].
  destruct Hinv as (Hup & _).
  destruct (uploadedVideo s); [reflexivity | contradiction].
Qed.

(** X9: a whole conversion cycle goes through.  From any state the wizard
    can get into that shows the upload step with no file chosen, these
    events are accepted one after the other: a file is chosen, the
    conversion is started, the 204 timers of the new run fire, the download
    button and then the reset button are pressed.  The cycle appends one
    download, named after the chosen file by the naming rule, sends no
    command to the videos, and ends in the upload step with no file
    chosen, from where the same holds again. *)
Theorem conversion_cycle_accepted (s : App Q) (f : VideoFile.t) :
  reachable s -> currentStep s = upload -> uploadedVideo s = None ->
  exists s',
    dispatch_all
      (conversion f (length (runs s)) ++ [ClickDownload; ClickReset]) s
      = Some s' /\
    reachable s' /\ currentStep s' = upload /\ uploadedVideo s' = None /\
    downloads s'
      = downloads s
          ++ [(upToFirst "." (VideoFile.name f) ++ "_VR180.mp4")%string] /\
    issued s' = issued s.
Proof.
  intros Hreach Hcs Hup.
  destruct (Wizard.conversion_run s f Hreach Hcs Hup)
    as (s1 & Hrun & Hcs1 & Hup1 & _ & _ & _ & Hi1 & Hd1).
  pose proof (reachable_dispatch_all _ s s1 Hreach Hrun) as Hreach1.
  assert (exists s2, dispatch ClickDownload s1 = Some s2 /\
            currentStep s2 = download /\ issued s2 = issued s1 /\
            downloads s2 = downloads s1 ++ [downloadName (Some f)])
    as (s2 & Hdl & Hcs2 & Hi2 & Hd2).
  { exists (commit (downloadVideo s1)). split.
    - unfold dispatch. cbn [handle]. unfold previewRendered.
      now rewrite Hcs1, Hup1.
    - rewrite commit_currentStep.
      destruct (commit_history (downloadVideo s1)) as (-> & ->).
      split; [reflexivity|]. split; [reflexivity|].
      unfold downloadVideo. fields. now rewrite Hup1. }
  pose proof (reachable_dispatch s1 s2 _ Hreach1 Hdl) as Hreach2.
  pose proof (reset_from_shown s2 Hreach2 (or_intror Hcs2)) as Hrs.
  exists (with_videos None None (resetProcess s2)).
  split; [|split].
  - rewrite dispatch_all_app, Hrun. cbn [mbind option_bind dispatch_all].
    rewrite Hdl, Hrs. reflexivity.
  - exact (reachable_dispatch s2 _ _ Hreach2 Hrs).
  - change (currentStep (with_videos None None (resetProcess s2))) with upload.
    change (uploadedVideo (with_videos None None (resetProcess s2)))
      with (@None VideoFile.t).
    change (downloads (with_videos None None (resetProcess s2)))
      with (downloads s2).
    change (issued (with_videos None None (resetProcess s2)))
      with (issued s2).
    do 2 (split; [reflexivity|]). rewrite Hi2, Hd2. split; [|exact Hi1].
    now rewrite Hd1, downloadName_stem.
Qed.

(** The first conversion after the first render, of the sample clip. *)
Lemma conversion_cycle_accepted_witness :
  reachable freshQ /\ currentStep freshQ = upload /\
  uploadedVideo freshQ = None /\
  exists s',
    dispatch_all (conversion clip 0 ++ [ClickDownload; ClickReset]) freshQ
      = Some s' /\
    reachable s' /\ currentStep s' = upload /\ uploadedVideo s' = None /\
    downloads s' = ["holiday_VR180.mp4"] /\ issued s' = [].
Proof.
  split; [apply reachable_initial|]. do 2 (split; [reflexivity|]).
  exact (conversion_cycle_accepted freshQ clip reachable_initial
           eq_refl eq_refl).
Defined.

(** X10: the reset does not touch isPlaying.  From a state the wizard can
    get into that shows the preview or the download step, the reset button
    followed by a new conversion is accepted and ends in a preview whose
    two videos are mounted paused, while isPlaying is what it was before
    the reset.  If the videos were playing then, the new preview shows the
    pause icon over two paused videos, so the play state of the views and
    of the controller differ, and the next click on the button sends pause
    to both. *)
Theorem reset_keeps_play_flag (s : App Q) (f : VideoFile.t) :
  reachable s -> currentStep s = preview \/ currentStep s = download ->
  exists s',
    dispatch_all (ClickReset :: conversion f (length (runs s))) s = Some s' /\
    currentStep s' = preview /\
    leftVideoRef s' = Some (mkVideo true) /\
    rightVideoRef s' = Some (mkVideo true) /\
    isPlaying s' = isPlaying s /\
    (isPlaying s = true ->
       ~ in_step s' /\
       sent_by_toggle s' = [(LeftEye, Pause); (RightEye, Pause)]).
Proof.
  intros Hreach Hstep.
  pose proof (reset_from_shown s Hreach Hstep) as Hrs.
  set (s1 := with_videos None None (resetProcess s)) in *.
  pose proof (reachable_dispatch s s1 _ Hreach Hrs) as Hreach1.
  destruct (Wizard.conversion_run s1 f Hreach1 eq_refl eq_refl)
    as (s' & Hrun & Hcs' & _ & Hp' & Hl' & Hr' & _).
  exists s'. split; [cbn [dispatch_all]; now rewrite Hrs|].
  do 3 (split; [assumption|]). split; [exact Hp'|].
  intros Hplaying. change (isPlaying s1) with (isPlaying s) in Hp'.
  rewrite Hplaying in Hp'. split.
  - intros (Hin & _). rewrite Hl', Hp' in Hin. discriminate.
  - unfold sent_by_toggle, togglePlayback. rewrite Hl', Hr', Hp'. cbn.
    now rewrite drop_app_length.
Qed.

(** The sample clip is played, the wizard reset and the clip converted
    again. *)
Lemma reset_keeps_play_flag_witness :
  reachable playingQ /\ currentStep playingQ = preview /\
  isPlaying playingQ = true /\
  exists s',
    dispatch_all (ClickReset :: conversion clip 1) playingQ = Some s' /\
    currentStep s' = preview /\ isPlaying s' = true /\ ~ in_step s' /\
    sent_by_toggle s' = [(LeftEye, Pause); (RightEye, Pause)].
Proof.
  assert (Hshown : currentStep playingQ = preview) by (vm_compute; reflexivity).
  assert (Hplaying : isPlaying playingQ = true) by (vm_compute; reflexivity).
  assert (Hruns : length (runs playingQ) = 1) by (vm_compute; reflexivity).
  split; [exact reachable_playingQ|]. split; [exact Hshown|].
  split; [exact Hplaying|].
  destruct (reset_keeps_play_flag playingQ clip reachable_playingQ
              (or_introl Hshown))
    as (s' & Hrun & Hcs & _ & _ & Hp & Hstale).
  rewrite Hruns in Hrun. rewrite Hplaying in Hp.
  exists s'. split; [exact Hrun|]. split; [exact Hcs|].
  split; [exact Hp|]. exact (Hstale Hplaying).
Defined.

(** ** Further properties: what holds on any numbers *)

(** X11: the stage list is fixed.  In every state the wizard can get into,
    whatever the arithmetic of the numbers, the displayed stages carry, in
    order, the names and descriptions of the four stages of the first
    render: no handler and no timer callback renames, reorders, adds or
    drops a stage. *)
Theorem stage_list_is_fixed (num : Type) (N : JSNumber num) (s : App num) :
  reachable s ->
  label <$> displayed s = label <$> initialSteps /\
  length (displayed s) = 4.
Proof.
  intros Hreach.
  destruct (reachable_stages_kept s Hreach) as ((_ & Hl) & _).
  assert (Hshown : label <$> displayed s = label <$> initialSteps).
  { rewrite <- Hl. unfold displayed, labels_at.
    rewrite <- list_fmap_compose. reflexivity. }
  split; [exact Hshown|].
  rewrite <- (length_fmap label), Hshown. reflexivity.
Qed.

(** The preview of the converted sample clip, on binary64 numbers. *)
Lemma stage_list_is_fixed_witness :
  reachable previewing64 /\
  name <$> displayed previewing64
  = ["3D Depth Mapping"; "Stereoscopic Rendering"; "VR 180 Conversion";
     "3D Quality Enhancement"].
Proof.
  split; [exact reachable_previewing64|].
  pose proof (proj1 (stage_list_is_fixed float _ previewing64
                       reachable_previewing64)) as Hl.
  apply (f_equal (fmap fst)) in Hl.
  rewrite <- !list_fmap_compose in Hl. exact Hl.
Defined.

(** X12: the two views are never commanded apart.  In every state the
    wizard can get into, whatever the arithmetic of the numbers, the
    history of commands sent to the videos is a sequence of commands each
    sent to the left view and then, the same, to the right view. *)
Theorem commands_go_to_both_views (num : Type) (N : JSNumber num)
    (s : App num) :
  reachable s -> exists cs, issued s = toBothViews cs.
Proof.
  induction 1 as [|s s' e _ (cs & IH) Hd]; [now exists []|].
  unfold dispatch in Hd.
  destruct (handle e s) as [s''|] eqn:He; [|discriminate].
  injection Hd as <-. rewrite (proj1 (commit_history s'')).
  destruct (handle_issued e s s'' He) as [->|(c & ->)].
  - now exists cs.
  - exists (cs ++ [c]). now rewrite toBothViews_snoc, IH.
Qed.

Lemma commands_go_to_both_views_witness :
  reachable playingQ /\ exists cs, issued playingQ = toBothViews cs.
Proof.
  split; [exact reachable_playingQ|].
  exact (commands_go_to_both_views Q _ playingQ reachable_playingQ).
Defined.



(** ** Further properties: the upload paths and the step indicator *)

Lemma prefix_append (a b : string) :
  String.prefix a b = true <-> exists rest, b = (a ++ rest)%string.
Proof.
  revert b. induction a as [|c a IH]; intros b.
  - split; [intros _; now exists b | intros _; now destruct b].
  - destruct b as [|d b]; cbn.
    + split; [discriminate | intros (rest & Hr); discriminate].
    + destruct (ascii_dec c d) as [<-|Hne].
      * rewrite IH. split; intros (rest & Hr); exists rest;
          [now rewrite Hr | now injection Hr].
      * split; [discriminate|]. intros (rest & Hr). injection Hr as <- _.
        now contradiction Hne.
Qed.

Lemma find_first {A : Type} (p : A -> bool) (l : list A) :
  match List.find p l with
  | Some x => exists before after,
                l = before ++ x :: after /\
                Forall (fun y => p y = false) before /\ p x = true
  | None => Forall (fun y => p y = false) l
  end.
Proof.
  induction l as [|y l IH]; cbn; [constructor|].
  destruct (p y) eqn:Hy.
  - exists [], l. now repeat split.
  - destruct (List.find p l) as [x|].
    + destruct IH as (before & after & -> & Hb & Hx).
      exists (y :: before), after. split; [reflexivity|].
      split; [now constructor | exact Hx].
    + now constructor.
Qed.

(** X14: what the two upload paths accept.  A file counts as a video
    exactly when its type starts with "video/".  A drop clears isDragging
    and uploads the first dropped file that is a video, skipping the files
    before it; with no video among the dropped files it changes nothing
    else.  The file input makes no such check: it uploads the first chosen
    file whatever its type, and does nothing when no file is chosen.  The
    uploaded record carries the file's name, its object URL and its
    formatted size, "0 Bytes" for an empty file. *)
Theorem drop_filters_select_does_not (num : Type) (N : JSNumber num)
    (createObjectURL : File.t -> string) (formatNonZero : nat -> string)
    (files : list File.t) (sh : @Shell num) :
  let drop := handleDrop createObjectURL formatNonZero files sh in
  let select := handleFileSelect createObjectURL formatNonZero files sh in
  let record := videoFileOf createObjectURL formatNonZero in
  (forall g, isVideo g = true
             <-> exists rest, File.type g = ("video/" ++ rest)%string) /\
  isDragging drop = false /\
  ((exists before f after,
      files = before ++ f :: after /\
      Forall (fun g => isVideo g = false) before /\ isVideo f = true /\
      app drop = setUploadedVideo (Some (record f)) (app sh)) \/
   (Forall (fun g => isVideo g = false) files /\ app drop = app sh)) /\
  isDragging select = isDragging sh /\
  match files with
  | f :: _ => app select = setUploadedVideo (Some (record f)) (app sh)
  | [] => select = sh
  end /\
  (forall f, VideoFile.name (record f) = File.name f /\
             VideoFile.url (record f) = createObjectURL f /\
             (File.size f = 0 -> VideoFile.size (record f) = "0 Bytes")).
Proof.
  intros drop select record. split; [|split; [|split; [|split; [|split]]]].
  - intros g. apply prefix_append.
  - unfold drop, handleDrop. cbn.
    now destruct (List.find isVideo files).
  - unfold drop, handleDrop. pose proof (find_first isVideo files) as Hfind.
    cbn. destruct (List.find isVideo files) as [f|].
    + left. destruct Hfind as (before & after & Hfiles & Hb & Hf).
      exists before, f, after. now repeat split.
    + right. now split.
  - unfold select, handleFileSelect. now destruct files.
  - unfold select, handleFileSelect. destruct files as [|f rest]; cbn.
    + now destruct sh.
    + reflexivity.
  - intros f. split; [reflexivity|]. split; [reflexivity|].
    intros Hz. unfold record, videoFileOf, formatFileSize. cbn. now rewrite Hz.
Qed.

Lemma indexOf_steps (c : WizardStep) :
  indexOf c indicatorSteps = (indexOf c rankedSteps + 1)%Z.
Proof. now destruct c. Qed.

(** X15: the colours of the step indicator.  The circle of a step has the
    current look exactly for the current step and the passed look exactly
    for the steps before it in the order upload, processing, preview,
    download.  The connector drawn after the step at an index is looked up
    in the three-element array without upload, so it has the passed look
    only when the current step lies at least two places after that index:
    the connector leading into the current step never has it, none has it
    in the upload and processing steps, and the third connector never. *)
Theorem step_indicator_lags (currentStep step : WizardStep) (index : nat) :
  (stepTone currentStep step = CurrentTone <-> step = currentStep) /\
  (stepTone currentStep step = PassedTone
   <-> (indexOf step indicatorSteps < indexOf currentStep indicatorSteps)%Z) /\
  (connectorPassed currentStep index = true
   <-> (Z.of_nat index + 1 < indexOf currentStep indicatorSteps)%Z) /\
  connectorPassed upload index = false /\
  connectorPassed processing index = false /\
  connectorPassed currentStep 2 = false.
Proof.
  split; [|split; [|split; [|split; [|split]]]].
  - destruct currentStep, step; vm_compute; split; intros Heq;
      (discriminate || reflexivity).
  - destruct currentStep, step; vm_compute; split; intros Heq;
      (discriminate || reflexivity).
  - unfold connectorPassed. rewrite indexOf_steps, Z.gtb_ltb, Z.ltb_lt. lia.
  - unfold connectorPassed. rewrite Z.gtb_ltb. apply Z.ltb_ge. cbn. lia.
  - unfold connectorPassed. rewrite Z.gtb_ltb. apply Z.ltb_ge. cbn. lia.
  - now destruct currentStep.
Qed.

(** ** Further properties: the component's own run on binary64 numbers *)

(** X16: on binary64 numbers the run of the component shows the exact
    values.  The 205 snapshots of a run on the four default stages,
    computed with the arithmetic of binary64, show in snapshot k, at
    position (i, j) = (k div 51, k mod 51): stage m at the progress the
    exact model gives, overall progress (100 i + 2 j) / 4, the overall
    readout 25 i + (j + 1) div 2, stage readouts equal to the stage
    progresses, and the icons in order. *)
Theorem binary64_shows_exact_values :
  length snapshots64 = 205 /\
  overallProgress <$> snapshots64
  = (fun k => ndiv (@lit float _ (pct k)) (lit 4)) <$> seq 0 205 /\
  (fun s => progress <$> displayed s) <$> snapshots64
  = (fun k => (fun m => @lit float _ (stage_pct (k / period) (k mod period) m))
                <$> seq 0 4) <$> seq 0 205 /\
  overallReadout <$> snapshots64
  = (fun k => Some (25 * Z.of_nat (k / period)
                    + (Z.of_nat (k mod period) + 1) / 2)%Z) <$> seq 0 205 /\
  (fun s => stageReadout <$> displayed s) <$> snapshots64
  = (fun k => (fun m => Some (Z.of_nat (stage_pct (k / period) (k mod period) m)))
                <$> seq 0 4) <$> seq 0 205 /\
  forallb (fun s => iconsInOrder (stageIcon <$> displayed s)) snapshots64 = true.
Proof.
  do 5 (split; [vm_compute; reflexivity|]). vm_compute; reflexivity.
Qed.

